(** * Poster_app: the poster compositing core of [working.py]

    A shallow embedding of the functions of [src/working.py]
    ([create_background_via_api], [create_gradient_background], [get_font],
    [process_logo], [draw_text_with_outline], [apply_text_layout],
    [generate_simple_poster]) together with the Pillow operations they call.

    - Python objects live in a heap of bitmaps addressed by references, so
      that in-place operations ([Image.paste], [Image.thumbnail],
      [ImageDraw.text], [ImageDraw.line]) and aliasing are visible.
    - Python exceptions are values of [exn]; a computation is a function from
      the world to a result and the world it leaves behind.
    - Python floats are binary64 numbers: finite values are kept as the
      rational they denote and every operation rounds its exact result to
      the nearest binary64 value, ties to even ([round64]).
    - The collaborators outside the core (HTTP provider, font files, glyph
      rasteriser, Lanczos resampler, installed Pillow) are fields of [Env].
    - [print] has no effect on any result and is left out. *)

From Stdlib Require Import ZArith QArith Qround Qabs Qpower Lia Lqa.
From Stdlib Require Import Floats.SpecFloat.
From stdpp Require Import base option list strings.

Local Open Scope Z_scope.

(** ** Python strings: sequences of Unicode code points *)

Definition pystr := list N.

Definition str (s : string) : pystr :=
  map Ascii.N_of_ascii (String.list_ascii_of_string s).

(** [str.isspace] on one code point (CPython's [_PyUnicode_IsWhitespace]). *)
Definition is_whitespace (c : N) : bool :=
  ((9 <=? c) && (c <=? 13) || (28 <=? c) && (c <=? 32) || (c =? 133)
   || (c =? 160) || (c =? 5760) || (8192 <=? c) && (c <=? 8202)
   || (c =? 8232) || (c =? 8233) || (c =? 8239) || (c =? 8287)
   || (c =? 12288))%N.

Fixpoint lstrip (s : pystr) : pystr :=
  match s with
  | [] => []
  | c :: s' => if is_whitespace c then lstrip s' else s
  end.

Definition rstrip (s : pystr) : pystr := rev (lstrip (rev s)).

(** [s.strip()] *)
Definition strip (s : pystr) : pystr := rstrip (lstrip s).

(** [s.split(sep)] for a one-character separator: never the empty list. *)
Fixpoint split (sep : N) (s : pystr) : list pystr :=
  match s with
  | [] => [[]]
  | c :: s' =>
      if (c =? sep)%N then [] :: split sep s'
      else match split sep s' with
           | [] => [[c]]
           | l :: ls => (c :: l) :: ls
           end
  end.

Definition newline : N := 10%N.

(** Truth value of a string in a condition: non-empty. *)
Definition truthy (s : pystr) : bool :=
  match s with [] => false | _ => true end.

(** ** Python floats (binary64) *)

Definition float := Q.

Definition pow2 (k : Z) : Q := Qpower 2 k.

(** floor(log2 q) for q > 0 *)
Definition ilog2 (q : Q) : Z :=
  if Qle_bool 1 q then Z.log2 (Qfloor q) else - Z.log2_up (Qceiling (/ q)).

(** Exponent of the unit in the last place: 53 significant bits, and the
    subnormal grid 2^-1074 below 2^-1022. *)
Definition ulp_exp (q : Q) : Z := Z.max (ilog2 q - 52) (-1074).

Definition round_half_even (q : Q) : Z :=
  let f := Qfloor q in
  match Qcompare (q - inject_Z f) (1 # 2) with
  | Lt => f
  | Gt => f + 1
  | Eq => if Z.even f then f else f + 1
  end.

(** The binary64 number nearest to [q], ties to even.  Magnitudes of 2^1024
    and more, that overflow, do not occur for pixel sizes and colours. *)
Definition round64 (q : Q) : float :=
  match Qcompare q 0 with
  | Eq => 0%Q
  | Gt => let u := pow2 (ulp_exp q) in
          Qred (inject_Z (round_half_even (q / u)) * u)
  | Lt => let u := pow2 (ulp_exp (- q)) in
          Qred (- (inject_Z (round_half_even ((- q) / u)) * u))
  end.

Definition float_of_int (z : Z) : float := round64 (inject_Z z).
Definition fadd (a b : float) : float := round64 (a + b).
Definition fsub (a b : float) : float := round64 (a - b).
Definition fmul (a b : float) : float := round64 (a * b).
Definition fabs (a : float) : float := Qabs a.
Definition fle (a b : float) : bool := Qle_bool a b.

(** [int(x)]: truncation towards zero. *)
Definition py_int (x : float) : Z :=
  if Qle_bool 0 x then Qfloor x else Qceiling x.

Definition math_floor (x : float) : Z := Qfloor x.
Definition math_ceil (x : float) : Z := Qceiling x.

(** Float literals of the source. *)
Definition lit_0_8 : float := round64 (8 # 10).
Definition lit_0_5 : float := round64 (5 # 10).
Definition lit_1_2 : float := round64 (12 # 10).
Definition lit_1_5 : float := round64 (15 # 10).

(** ** Exceptions and computations *)

Inductive exn :=
| NameError (name : string)
| AttributeError (attr : string)
| ZeroDivisionError
| ValueError
| TypeError
| OverflowError
| MemoryError
| OSError
| UnidentifiedImageError
| RequestException
| InvalidReference.   (* a reference to no object: Python cannot form one *)

(** [isinstance(e, IOError)]: [IOError] is [OSError]; Pillow's
    [UnidentifiedImageError] and requests' [RequestException] derive from it. *)
Definition is_IOError (e : exn) : bool :=
  match e with
  | OSError | UnidentifiedImageError | RequestException => true
  | _ => false
  end.

Definition is_RequestException (e : exn) : bool :=
  match e with RequestException => true | _ => false end.

Definition is_AttributeError (e : exn) : bool :=
  match e with AttributeError _ => true | _ => false end.

(** [except Exception]: every exception of the model. *)
Definition is_Exception (e : exn) : bool := true.

Inductive result (A : Type) :=
| Ok (a : A)
| Raise (e : exn).
Arguments Ok {A} a.
Arguments Raise {A} e.

#[export] Instance result_ret : MRet result := fun A a => Ok a.

#[export] Instance result_bind : MBind result := fun A B f r =>
  match r with
  | Ok a => f a
  | Raise e => Raise e
  end.

(** ** Bitmaps *)

(** The four bytes Pillow stores per pixel: r, g, b and alpha (the pad byte
    255 in mode RGB; an L pixel l is kept as (l, l, l, 255)). *)
Definition pixel := (Z * Z * Z * Z)%type.

Inductive mode := L | RGB | RGBA.

#[export] Instance mode_eq_dec : EqDecision mode.
Proof. solve_decision. Defined.

Record Bitmap := {
  im_mode : mode;
  im_width : Z;
  im_height : Z;
  im_data : Z -> Z -> pixel;   (* pixel at column x, row y *)
  im_fault : bool              (* opened lazily from data that fails to decode *)
}.

Definition in_bounds (b : Bitmap) (x y : Z) : bool :=
  (0 <=? x) && (x <? im_width b) && (0 <=? y) && (y <? im_height b).

(** The bands a pixel has in a mode. *)
Definition bands (m : mode) (p : pixel) : list Z :=
  let '(r, g, b, a) := p in
  match m with
  | L => [r]
  | RGB => [r; g; b]
  | RGBA => [r; g; b; a]
  end.

(** [im.getpixel((x, y))]; [None] stands for its IndexError. *)
Definition getpixel (b : Bitmap) (x y : Z) : option (list Z) :=
  if in_bounds b x y then Some (bands (im_mode b) (im_data b x y)) else None.

Definition rgb_of (p : pixel) : Z * Z * Z :=
  let '(r, g, b, _) := p in (r, g, b).

Definition alpha_of (p : pixel) : Z :=
  let '(_, _, _, a) := p in a.

Definition ref := nat.

Inductive Font :=
| TrueType (size : Z)     (* DejaVuSans.ttf at a pixel size *)
| DefaultFont.            (* ImageFont.load_default() *)

(** One call of [draw.text((x, y), text, font=font, fill=fill)]. *)
Record TextCall := {
  tc_target : ref;        (* the bitmap the draw object is bound to *)
  tc_x : Z;
  tc_y : Z;
  tc_text : pystr;
  tc_font : Font;
  tc_fill : string
}.

Record World := {
  heap : list Bitmap;
  trace : list TextCall
}.

Definition M (A : Type) : Type := World -> result A * World.

#[export] Instance M_ret : MRet M := fun A a w => (Ok a, w).

#[export] Instance M_bind : MBind M := fun A B f m w =>
  match m w with
  | (Ok a, w') => f a w'
  | (Raise e, w') => (Raise e, w')
  end.

Definition raise {A} (e : exn) : M A := fun w => (Raise e, w).

Definition lift {A} (r : result A) : M A := fun w => (r, w).

(** [try: body / except C: handler] where [catches] is [isinstance(_, C)]. *)
Definition try_except {A} (body : M A) (catches : exn -> bool)
    (handler : exn -> M A) : M A := fun w =>
  match body w with
  | (Ok a, w') => (Ok a, w')
  | (Raise e, w') => if catches e then handler e w' else (Raise e, w')
  end.

(** [for x in xs: body x] *)
Fixpoint for_each {A} (xs : list A) (body : A -> M unit) : M unit :=
  match xs with
  | [] => mret tt
  | x :: xs' => _ ← body x; for_each xs' body
  end.

(** [range(lo, hi)] *)
Definition range (lo hi : Z) : list Z :=
  map (fun k => lo + Z.of_nat k) (seq 0 (Z.to_nat (hi - lo))).

(** The value of [a / b] on ints, [b] not zero: the correctly rounded
    quotient. *)
Definition true_quotient (a b : Z) : float := round64 (inject_Z a / inject_Z b).

(** [a / b] on ints *)
Definition py_truediv (a b : Z) : result float :=
  if b =? 0 then Raise ZeroDivisionError
  else Ok (true_quotient a b).

(** [a / b] on floats. *)
Definition fdiv (a b : float) : result float :=
  if Qeq_bool b 0 then Raise ZeroDivisionError else Ok (round64 (a / b)).

(** *** The heap *)

Definition alloc (b : Bitmap) : M ref := fun w =>
  (Ok (length (heap w)), {| heap := heap w ++ [b]; trace := trace w |}).

Definition deref (r : ref) : M Bitmap := fun w =>
  match heap w !! r with
  | Some b => (Ok b, w)
  | None => (Raise InvalidReference, w)
  end.

(** [im.load()]: decoding a lazily opened file may fail. *)
Definition load (r : ref) : M Bitmap :=
  b ← deref r;
  if im_fault b then raise OSError else mret b.

(** In-place change of the object behind [r]. *)
Definition mutate (r : ref) (f : Bitmap -> Bitmap) : M unit := fun w =>
  (Ok tt, {| heap := alter f r (heap w); trace := trace w |}).

Definition with_data (d : Z -> Z -> pixel) (b : Bitmap) : Bitmap :=
  {| im_mode := im_mode b; im_width := im_width b; im_height := im_height b;
     im_data := d; im_fault := im_fault b |}.

(** ** The collaborators outside the core *)

Inductive http_outcome :=
| Response (status_code : Z) (content : list N)
| RequestFails.            (* [requests.post] raises a RequestException *)

Record Env := {
  (* os.getenv("HF_TOKEN") *)
  hf_token : option pystr;
  (* what requests.post answers on the attempt with loop index i *)
  http_post : nat -> http_outcome;
  (* Image.open(io.BytesIO(bytes)); None: the bytes are no image *)
  image_open : list N -> option Bitmap;
  (* ImageFont.truetype("DejaVuSans.ttf", size): None when it succeeds,
     the exception it raises otherwise *)
  truetype : Z -> option exn;
  (* draw.textbbox((0, 0), text, font=font); None: this Pillow has no
     textbbox and offers textsize only *)
  textbbox : option (Font -> pystr -> Z * Z * Z * Z);
  (* draw.textsize(text, font=font) *)
  textsize : Font -> pystr -> Z * Z;
  (* the pixels draw.text((x, y), text, font, fill) leaves behind *)
  rasterize : Font -> pystr -> string -> Z -> Z ->
              (Z -> Z -> pixel) -> (Z -> Z -> pixel);
  (* the pixels of im.resize((w, h), LANCZOS) *)
  lanczos : Bitmap -> Z -> Z -> (Z -> Z -> pixel);
  (* whether PIL.Image has the Resampling enumeration *)
  has_Resampling : bool
}.

(** The names bound at module level by the imports (lines 1-5) and the
    [def]s of [working.py]. *)
Definition module_globals : list string :=
  ["gr"; "Image"; "ImageDraw"; "ImageFont"; "os"; "requests"; "io";
   "create_background_via_api"; "create_fallback_background";
   "create_gradient_background"; "get_font"; "process_logo";
   "draw_text_with_outline"; "apply_text_layout"; "generate_simple_poster";
   "create_simple_interface"; "demo"].

(** Evaluating a global name that is no builtin. *)
Definition global (name : string) : M unit :=
  if bool_decide (name ∈ module_globals) then mret tt
  else raise (NameError name).

(** ** Pillow *)

Definition clip8 (v : Z) : Z := Z.max 0 (Z.min 255 v).

(** [((a >> 8) + a) >> 8], Pillow's division by 255 *)
Definition shift_for_div255 (a : Z) : Z := Z.shiftr (Z.shiftr a 8 + a) 8.

(** One pixel of [Image.alpha_composite(dst, src)] (AlphaComposite.c). *)
Definition alpha_composite_pixel (dst src : pixel) : pixel :=
  let '(dr, dg, db, da) := dst in
  let '(sr, sg, sb, sa) := src in
  if sa =? 0 then dst
  else
    let blend := da * (255 - sa) in
    let outa255 := sa * 255 + blend in
    let coef1 := sa * 255 * 255 * 128 / outa255 in
    let coef2 := 255 * 128 - coef1 in
    let channel s d :=
      Z.shiftr (shift_for_div255 (s * coef1 + d * coef2 + 128 * 128)) 7 in
    (channel sr dr, channel sg dg, channel sb db,
     shift_for_div255 (outa255 + 128)).

(** [BLEND(mask, in1, in2)] of Paste.c *)
Definition blend (mask in1 in2 : Z) : Z :=
  shift_for_div255 (in1 * (255 - mask) + in2 * mask + 128).

(** One pixel of [paste_RGBA] through a matte [m].  Recent Pillow releases
    copy the source unchanged where the destination alpha is 0; the poster
    that [apply_text_layout] pastes onto has alpha at least 80, so that case
    never arises here. *)
Definition paste_pixel (out inp : pixel) (m : Z) : pixel :=
  let '(r1, g1, b1, a1) := out in
  let '(r2, g2, b2, a2) := inp in
  (blend m r1 r2, blend m g1 g2, blend m b1 b2, blend m a1 a2).

Definition convert_pixel (from to : mode) (p : pixel) : pixel :=
  let '(r, g, b, a) := p in
  match from, to with
  | RGBA, RGBA => p
  | RGB, RGB => p
  | L, L => p
  | L, _ => (r, r, r, 255)
  | _, L =>
      let l := Z.shiftr (r * 19595 + g * 38470 + b * 7471 + 32768) 16 in
      (l, l, l, 255)
  | _, _ => (r, g, b, 255)
  end.

Definition convert_bitmap (to : mode) (b : Bitmap) : Bitmap :=
  {| im_mode := to; im_width := im_width b; im_height := im_height b;
     im_data := fun x y => convert_pixel (im_mode b) to (im_data b x y);
     im_fault := false |}.

(** A bitmap of one colour. *)
Definition solid (m : mode) (w h : Z) (p : pixel) : Bitmap :=
  {| im_mode := m; im_width := w; im_height := h;
     im_data := fun _ _ => p; im_fault := false |}.

(** [Image.new(mode, (w, h), color)].  [_check_size] refuses a negative side
    with ValueError; the extension takes the sides as C ints, so one beyond
    [INT_MAX] = 2147483647 is an OverflowError; the allocator refuses a line
    of more than [INT_MAX / 4 - 1] pixels with MemoryError.  The memory of
    the machine is not modelled: an image these checks let through is
    allocated. *)
Definition Image_new (m : mode) (size : Z * Z) (color : pixel) : M ref :=
  let '(w, h) := size in
  if (w <? 0) || (h <? 0) then raise ValueError
  else if (2147483647 <? w) || (2147483647 <? h) then raise OverflowError
  else if 536870910 <? w then raise MemoryError
  else alloc (solid m w h color).

(** [im.copy()] *)
Definition Image_copy (r : ref) : M ref :=
  b ← load r;
  alloc b.

(** [im.convert(mode)] *)
Definition Image_convert (r : ref) (to : mode) : M ref :=
  b ← load r;
  alloc (convert_bitmap to b).

(** [im.size] and [im.mode] *)
Definition Image_size (r : ref) : M (Z * Z) :=
  b ← deref r;
  mret (im_width b, im_height b).

Definition Image_mode (r : ref) : M mode :=
  b ← deref r;
  mret (im_mode b).

Definition alpha_composite_bitmap (b1 b2 : Bitmap) : Bitmap :=
  {| im_mode := RGBA; im_width := im_width b1; im_height := im_height b1;
     im_data := fun x y =>
       alpha_composite_pixel (im_data b1 x y) (im_data b2 x y);
     im_fault := false |}.

(** [Image.alpha_composite(im1, im2)]: a new image, [im2] over [im1]. *)
Definition Image_alpha_composite (r1 r2 : ref) : M ref :=
  b1 ← load r1;
  b2 ← load r2;
  if bool_decide (im_mode b1 = RGBA) && bool_decide (im_mode b2 = RGBA)
     && (im_width b1 =? im_width b2) && (im_height b1 =? im_height b2)
  then alloc (alpha_composite_bitmap b1 b2)
  else raise ValueError.

(** The matte of a paste mask at one pixel: the alpha band of an RGBA mask,
    the grey level of an L mask. *)
Definition mask_value (m : mode) (p : pixel) : Z :=
  let '(r, _, _, a) := p in
  match m with RGBA => a | _ => r end.

Definition paste_data (src : Bitmap) (mask : Bitmap) (x0 y0 : Z)
    (d : Z -> Z -> pixel) : Z -> Z -> pixel := fun x y =>
  if (x0 <=? x) && (x <? x0 + im_width src)
     && (y0 <=? y) && (y <? y0 + im_height src)
  then paste_pixel (d x y) (im_data src (x - x0) (y - y0))
         (mask_value (im_mode mask) (im_data mask (x - x0) (y - y0)))
  else d x y.

Definition paste_bitmap (src mask : Bitmap) (x0 y0 : Z) (b : Bitmap) : Bitmap :=
  with_data (paste_data src mask x0 y0 (im_data b)) b.

(** [dst.paste(src, (x0, y0), mask)]: in place, through the mask. *)
Definition Image_paste (dst src : ref) (pos : Z * Z) (mask : ref) : M unit :=
  let '(x0, y0) := pos in
  bs ← load src;
  bd ← load dst;
  let im :=
    if bool_decide (im_mode bs = im_mode bd) then bs
    else if bool_decide (im_mode bd = RGB) && bool_decide (im_mode bs = RGBA)
         then bs
         else convert_bitmap (im_mode bd) bs in
  bm ← load mask;
  if bool_decide (im_mode bm = RGB) then raise ValueError
  else if negb ((im_width bm =? im_width bs) && (im_height bm =? im_height bs))
       then raise ValueError
       else mutate dst (paste_bitmap im bm x0 y0).

(** [Image.Resampling.LANCZOS] *)
Definition Image_Resampling_LANCZOS (E : Env) : M unit :=
  if has_Resampling E then mret tt else raise (AttributeError "Resampling").

(** [max(min(math.floor(number), math.ceil(number), key=key), 1)] *)
Definition round_aspect (number : float) (key : Z -> result float)
    : result Z :=
  let lo := math_floor number in
  let hi := math_ceil number in
  klo ← key lo;
  khi ← key hi;
  mret (Z.max (if fle klo khi then lo else hi) 1).

(** The size [Image.thumbnail] aims at, [None] when the image already fits. *)
Definition preserve_aspect_ratio (width height x y : Z)
    : result (option (Z * Z)) :=
  if (width <=? x) && (height <=? y) then mret None
  else
    aspect ← py_truediv width height;
    box_aspect ← py_truediv x y;
    if fle aspect box_aspect then
      x' ← round_aspect (fmul (float_of_int y) aspect)
             (fun n => q ← py_truediv n y; mret (fabs (fsub aspect q)));
      mret (Some (x', y))
    else
      number ← fdiv (float_of_int x) aspect;
      y' ← round_aspect number
             (fun n => if n =? 0 then mret 0%Q
                       else q ← py_truediv x n;
                            mret (fabs (fsub aspect q)));
      mret (Some (x, y')).

Definition resize_bitmap (E : Env) (size : Z * Z) (b : Bitmap) : Bitmap :=
  {| im_mode := im_mode b; im_width := size.1; im_height := size.2;
     im_data := lanczos E b size.1 size.2; im_fault := false |}.

(** [im.resize(size, resample)] is refused with ValueError when a side asked
    for is below 1, and when the source has no pixels. *)
Definition resize_refused (b : Bitmap) (size : Z * Z) : bool :=
  (size.1 <? 1) || (size.2 <? 1) || (im_width b <? 1) || (im_height b <? 1).

(** [im.thumbnail((x, y), Image.Resampling.LANCZOS)]: in place. *)
Definition Image_thumbnail (E : Env) (r : ref) (size : Z * Z) : M unit :=
  b ← deref r;
  target ← lift (preserve_aspect_ratio (im_width b) (im_height b)
                   size.1 size.2);
  match target with
  | None => mret tt
  | Some new_size =>
      _ ← load r;
      if bool_decide ((im_width b, im_height b) = new_size) then mret tt
      else if resize_refused b new_size then raise ValueError
      else mutate r (resize_bitmap E new_size)
  end.

(** [Image.open(io.BytesIO(content))] *)
Definition Image_open (E : Env) (content : list N) : M ref :=
  match image_open E content with
  | Some b => alloc b
  | None => raise UnidentifiedImageError
  end.

(** [ImageDraw.Draw(im)]: the draw object is known by the bitmap it draws on. *)
Definition ImageDraw_Draw (r : ref) : M ref :=
  _ ← load r;
  mret r.

Definition hline (y x0 x1 : Z) (ink : pixel) (d : Z -> Z -> pixel)
    : Z -> Z -> pixel := fun x' y' =>
  if (y' =? y) && (Z.min x0 x1 <=? x') && (x' <=? Z.max x0 x1) then ink
  else d x' y'.

(** [draw.line([(x0, y), (x1, y)], fill=(r, g, b))]: the horizontal case of
    [ImageDraw.line], both end points included. *)
Definition draw_line (draw : ref) (x0 y x1 : Z) (fill : Z * Z * Z) : M unit :=
  let '(r, g, b) := fill in
  im ← deref draw;
  match im_mode im with
  | L => raise TypeError
  | _ => mutate draw (fun im =>
           with_data (hline y x0 x1 (clip8 r, clip8 g, clip8 b, 255) (im_data im)) im)
  end.

Definition draw_call (E : Env) (c : TextCall) (b : Bitmap) : Bitmap :=
  with_data (rasterize E (tc_font c) (tc_text c) (tc_fill c)
               (tc_x c) (tc_y c) (im_data b)) b.

(** [draw.text((x, y), text, font=font, fill=fill)] *)
Definition draw_text (E : Env) (draw : ref) (x y : Z) (text : pystr)
    (font : Font) (fill : string) : M unit := fun w =>
  let c := {| tc_target := draw; tc_x := x; tc_y := y; tc_text := text;
              tc_font := font; tc_fill := fill |} in
  (Ok tt, {| heap := alter (draw_call E c) draw (heap w);
             trace := trace w ++ [c] |}).

Definition draw_textbbox (E : Env) (text : pystr) (font : Font)
    : M (Z * Z * Z * Z) :=
  match textbbox E with
  | Some f => mret (f font text)
  | None => raise (AttributeError "textbbox")
  end.

Definition draw_textsize (E : Env) (text : pystr) (font : Font) : M (Z * Z) :=
  mret (textsize E font text).

Definition ImageFont_truetype (E : Env) (size : Z) : M Font :=
  match truetype E size with
  | None => mret (TrueType size)
  | Some e => raise e
  end.

Definition ImageFont_load_default : M Font := mret DefaultFont.

(** ** working.py *)

Definition color := (Z * Z * Z)%type.

(** [c1 * (1 - ratio) + c2 * ratio] *)
Definition gradient_value (c1 c2 : Z) (ratio : float) : float :=
  fadd (fmul (float_of_int c1) (fsub (float_of_int 1) ratio))
       (fmul (float_of_int c2) ratio).

(** [int(c1 * (1 - ratio) + c2 * ratio)] (lines 65-67) *)
Definition gradient_channel (c1 c2 : Z) (ratio : float) : Z :=
  py_int (gradient_value c1 c2 ratio).

(** The body of the loop of lines 63-68. *)
Definition gradient_row (draw : ref) (width height : Z) (color1 color2 : color)
    (y : Z) : M unit :=
  ratio ← lift (py_truediv y height);
  let r := gradient_channel color1.1.1 color2.1.1 ratio in
  let g := gradient_channel color1.1.2 color2.1.2 ratio in
  let b := gradient_channel color1.2 color2.2 ratio in
  draw_line draw 0 y width (r, g, b).

Definition create_gradient_background (width height : Z)
    (color1 color2 : color) : M ref :=
  image ← Image_new RGB (width, height) (0, 0, 0, 0);
  draw ← ImageDraw_Draw image;
  _ ← for_each (range 0 height) (gradient_row draw width height color1 color2);
  mret image.

Definition create_fallback_background (width height : Z) : M ref :=
  create_gradient_background width height (100, 150, 255) (150, 200, 255).

Definition get_font (E : Env) (size : Z) : M Font :=
  try_except (ImageFont_truetype E size)
    is_IOError
    (fun _ => ImageFont_load_default).

(** The [try] block of [process_logo] (lines 83-87). *)
Definition process_logo_try (E : Env) (logo_image : ref) (max_size : Z)
    : M (option ref) :=
  logo ← Image_copy logo_image;
  _ ← Image_Resampling_LANCZOS E;
  _ ← Image_thumbnail E logo (max_size, max_size);
  m ← Image_mode logo;
  if bool_decide (m <> RGBA) then
    logo ← Image_convert logo RGBA;
    mret (Some logo)
  else mret (Some logo).

Definition process_logo (E : Env) (logo_image : option ref) (max_size : Z)
    : M (option ref) :=
  match logo_image with
  | None => mret None
  | Some logo_image =>
      try_except (process_logo_try E logo_image max_size)
        is_Exception
        (fun _ => mret None)
  end.

Definition draw_text_with_outline (E : Env) (draw : ref) (text : pystr)
    (x y : Z) (font : Font) (fill_color outline_color : string)
    (center : bool) : M unit :=
  x ← (if center then
         try_except
           (bbox ← draw_textbbox E text font;
            let '(x0, _, x1, _) := bbox in
            mret (x - (x1 - x0) / 2))
           is_AttributeError
           (fun _ =>
              wh ← draw_textsize E text font;
              mret (x - wh.1 / 2))
       else mret x);
  _ ← for_each (range (-2) 3) (fun dx =>
        for_each (range (-2) 3) (fun dy =>
          if negb (dx =? 0) || negb (dy =? 0) then
            draw_text E draw (x + dx) (y + dy) text font outline_color
          else mret tt));
  draw_text E draw x y text font fill_color.

(** The loop of lines 136-138; it hands back the cursor. *)
Fixpoint detail_lines_loop (E : Env) (draw : ref) (details_lines : list pystr)
    (width y_pos : Z) (details_font : Font) (details_size : Z) : M Z :=
  match details_lines with
  | [] => mret y_pos
  | line :: rest =>
      _ ← draw_text_with_outline E draw line (width / 2) y_pos details_font
            "lightgray" "black" true;
      detail_lines_loop E draw rest width
        (y_pos + py_int (fmul (float_of_int details_size) lit_1_5))
        details_font details_size
  end.

(** Lines 140-142: the logo is pasted on the poster, not on the overlay. *)
Definition logo_step (logo : option ref) (poster : ref) (width : Z) : M unit :=
  match logo with
  | Some logo =>
      logo_size ← Image_size logo;
      Image_paste poster logo (width - logo_size.1 - 40, 40) logo
  | None => mret tt
  end.

(** [apply_text_layout] with lines 140-142 as the parameter [paste_logo]. *)
Definition text_layout (E : Env) (paste_logo : ref -> Z -> M unit)
    (image : ref) (subtitle details : pystr) : M ref :=
  copy ← Image_copy image;
  poster ← Image_convert copy RGBA;
  size ← Image_size poster;
  let '(width, height) := size in
  overlay ← Image_new RGBA size (0, 0, 0, 0);
  draw ← ImageDraw_Draw overlay;
  color_overlay ← Image_new RGBA size (0, 0, 0, 80);
  poster ← Image_alpha_composite poster color_overlay;
  let base_size := Z.min width height / 15 in
  let subtitle_size := py_int (fmul (float_of_int base_size) lit_0_8) in
  let details_size := py_int (fmul (float_of_int base_size) lit_0_5) in
  subtitle_font ← get_font E subtitle_size;
  details_font ← get_font E details_size;
  let y_pos := height / 3 in
  let spacing := py_int (fmul (float_of_int base_size) lit_1_2) in
  y_pos ← (if truthy subtitle then
             _ ← draw_text_with_outline E draw subtitle (width / 2) y_pos
                   subtitle_font "white" "black" true;
             mret (y_pos + spacing)
           else mret y_pos);
  _ ← (if truthy details then
         let details_lines :=
           map strip (List.filter (fun line => truthy (strip line))
                                  (split newline details)) in
         detail_lines_loop E draw details_lines width y_pos
           details_font details_size
       else mret y_pos);
  _ ← paste_logo poster width;
  final_poster ← Image_alpha_composite poster overlay;
  Image_convert final_poster RGB.

Definition apply_text_layout (E : Env) (image : ref) (subtitle details : pystr)
    (logo : option ref) : M ref :=
  text_layout E (logo_step logo) image subtitle details.

Definition time_sleep (seconds : Z) : M unit :=
  global "time".

Inductive control :=
| Return (r : ref)
| Continue
| Break.

(** One round of the loop of lines 26-48. *)
Definition api_attempt (E : Env) (i : nat) : M control :=
  try_except
    (_ ← global "requests";
     response ← (match http_post E i with
                 | Response status_code content => mret (status_code, content)
                 | RequestFails => raise RequestException
                 end);
     if response.1 =? 200 then
       _ ← global "Image";
       _ ← global "io";
       r ← Image_open E response.2;
       mret (Return r)
     else if response.1 =? 503 then
       _ ← time_sleep 15;
       mret Continue
     else mret Break)
    is_RequestException
    (fun _ => mret Break).

Fixpoint api_attempts (E : Env) (rounds : list nat) : M (option ref) :=
  match rounds with
  | [] => mret None
  | i :: rest =>
      c ← api_attempt E i;
      match c with
      | Return r => mret (Some r)
      | Continue => api_attempts E rest
      | Break => mret None
      end
  end.

Definition create_background_via_api (E : Env) (prompt : pystr)
    (width height : Z) (retries : nat) : M ref :=
  _ ← global "os";
  match hf_token E with
  | None | Some [] => create_fallback_background width height
  | Some _ =>
      found ← api_attempts E (seq 0 retries);
      match found with
      | Some r => mret r
      | None => create_fallback_background width height
      end
  end.

Definition aspect_ratios : list (pystr * (Z * Z)) :=
  [(str "1:1 - Square", (1024, 1024));
   (str "2:3 - Portrait", (683, 1024));
   (str "3:2 - Landscape", (1024, 683));
   (str "3:4 - Poster", (768, 1024));
   (str "16:9 - Widescreen", (1024, 576))].

(** [d.get(key, default)] *)
Fixpoint dict_get {V} (d : list (pystr * V)) (key : pystr) (default : V) : V :=
  match d with
  | [] => default
  | (k, v) :: d' => if bool_decide (k = key) then v else dict_get d' key default
  end.

Definition generate_simple_poster (E : Env) (prompt subtitle details : pystr)
    (logo_image : option ref) (aspect_ratio : pystr) : M ref :=
  let '(width, height) := dict_get aspect_ratios aspect_ratio (1024, 1024) in
  background ← create_background_via_api E prompt width height 3;
  processed_logo ← process_logo E logo_image 200;
  apply_text_layout E background subtitle details processed_logo.

(** ** A sample installation, for running the model *)

Definition box_raster (font : Font) (text : pystr) (fill : string) (x y : Z)
    (d : Z -> Z -> pixel) : Z -> Z -> pixel := fun px py =>
  if (x <=? px) && (px <? x + 6 * Z.of_nat (length text))
     && (y <=? py) && (py <? y + 11)
  then (if String.eqb fill "black" then (0, 0, 0, 255)
        else if String.eqb fill "white" then (255, 255, 255, 255)
        else (211, 211, 211, 255))
  else d px py.

Definition nearest (b : Bitmap) (w h : Z) : Z -> Z -> pixel := fun x y =>
  im_data b (x * im_width b / w) (y * im_height b / h).

Definition sample_env : Env :=
  {| hf_token := None;
     http_post := fun _ => RequestFails;
     image_open := fun _ => None;
     truetype := fun _ => Some OSError;
     textbbox := Some (fun _ text => (0, 0, 6 * Z.of_nat (length text), 11));
     textsize := fun _ text => (6 * Z.of_nat (length text), 11);
     rasterize := box_raster;
     lanczos := nearest;
     has_Resampling := true |}.

(** The provider keeps answering 503 "model loading". *)
Definition loading_env : Env :=
  {| hf_token := Some (str "hf_token");
     http_post := fun _ => Response 503 [];
     image_open := fun _ => None;
     truetype := fun _ => Some OSError;
     textbbox := Some (fun _ text => (0, 0, 6 * Z.of_nat (length text), 11));
     textsize := fun _ text => (6 * Z.of_nat (length text), 11);
     rasterize := box_raster;
     lanczos := nearest;
     has_Resampling := true |}.

Definition empty_world : World := {| heap := []; trace := [] |}.

(** ** Vocabulary of the statements *)

Definition text_call (draw : ref) (text : pystr) (font : Font) (fill : string)
    (x y : Z) : TextCall :=
  {| tc_target := draw; tc_x := x; tc_y := y; tc_text := text;
     tc_font := font; tc_fill := fill |}.

(** The world after a sequence of [draw.text] calls, one after the other. *)
Definition emit (E : Env) (calls : list TextCall) (w : World) : World :=
  {| heap := foldl (fun h c => alter (draw_call E c) (tc_target c) h)
                   (heap w) calls;
     trace := trace w ++ calls |}.

(** The 24 offsets (dx, dy) with dx, dy in [-2, 2] other than (0, 0). *)
Definition offsets24 : list (Z * Z) :=
  [(-2, -2); (-2, -1); (-2, 0); (-2, 1); (-2, 2);
   (-1, -2); (-1, -1); (-1, 0); (-1, 1); (-1, 2);
   (0, -2); (0, -1); (0, 1); (0, 2);
   (1, -2); (1, -1); (1, 0); (1, 1); (1, 2);
   (2, -2); (2, -1); (2, 0); (2, 1); (2, 2)].

(** The calls of one outlined text: the outline passes, then the fill. *)
Definition outlined_calls (draw : ref) (text : pystr) (font : Font)
    (fill outline : string) (x y : Z) : list TextCall :=
  map (fun d => text_call draw text font outline (x + d.1) (y + d.2)) offsets24
  ++ [text_call draw text font fill x y].

(** The width [draw_text_with_outline] measures: from the bounding box, or
    from [textsize] where this Pillow has no [textbbox]. *)
Definition measured_width (E : Env) (text : pystr) (font : Font) : Z :=
  match textbbox E with
  | Some f => let '(x0, _, x1, _) := f font text in x1 - x0
  | None => (textsize E font text).1
  end.

(** The spec's TextBlock: the trimmed lines of a raw string, empty ones dropped. *)
Definition text_block (raw : pystr) : list pystr :=
  List.filter truthy (map strip (split newline raw)).

(** The text and the y of every fill pass in a given colour, in drawing order. *)
Definition fills_in (colour : string) (calls : list TextCall)
    : list (pystr * Z) :=
  map (fun c => (tc_text c, tc_y c))
      (List.filter (fun c => String.eqb (tc_fill c) colour) calls).

(** What a sequence of [draw.text] calls leaves on a pixel grid. *)
Definition render (E : Env) (calls : list TextCall) (d : Z -> Z -> pixel)
    : Z -> Z -> pixel :=
  foldl (fun d c => rasterize E (tc_font c) (tc_text c) (tc_fill c)
                      (tc_x c) (tc_y c) d) d calls.

(** Every pre-existing object is untouched, and no object disappears. *)
Definition frame (n : nat) (w w' : World) : Prop :=
  (length (heap w) <= length (heap w'))%nat /\
  forall r, (r < n)%nat -> heap w' !! r = heap w !! r.

(** A computation run on a heap with at least [n] objects leaves the first
    [n] as they are, and a value it returns satisfies [Q]. *)
Definition keeps {A} (n : nat) (m : M A) (Q : A -> Prop) : Prop :=
  forall w, (n <= length (heap w))%nat ->
    frame n w (m w).2 /\ forall a, (m w).1 = Ok a -> Q a.

(** The font provider fails with IOError only (a missing font file). *)
Definition font_faults_are_IOError (E : Env) : Prop :=
  forall size e, truetype E size = Some e -> is_IOError e = true.

(** The channel value as the specification words it: the interpolation
    colorTop * (1 - ratio) + colorBottom * ratio with ratio = y / height, in
    exact arithmetic, truncated to an integer. *)
Definition spec_gradient_channel (c1 c2 y height : Z) : Z :=
  let ratio := (inject_Z y / inject_Z height)%Q in
  py_int (inject_Z c1 * (1 - ratio) + inject_Z c2 * ratio)%Q.

(** The exception [get_font] lets through for a size: a fault of
    [ImageFont.truetype] that is no IOError (lines 72-77). *)
Definition escaping_font_error (E : Env) (size : Z) : option exn :=
  match truetype E size with
  | Some e => if is_IOError e then None else Some e
  | None => None
  end.

Definition valid_colour (c : color) : Prop :=
  let '(r, g, b) := c in
  0 <= r <= 255 /\ 0 <= g <= 255 /\ 0 <= b <= 255.

(** The colour of row [y] of a gradient of [height] rows (lines 64-67). *)
Definition gradient_colour (color1 color2 : color) (y height : Z) : color :=
  let ratio := true_quotient y height in
  (gradient_channel color1.1.1 color2.1.1 ratio,
   gradient_channel color1.1.2 color2.1.2 ratio,
   gradient_channel color1.2 color2.2 ratio).

(** The ink Pillow makes of an (r, g, b) fill. *)
Definition ink_of (c : color) : pixel :=
  (clip8 c.1.1, clip8 c.1.2, clip8 c.2, 255).

Definition paint_row (width height : Z) (color1 color2 : color) (im : Bitmap)
    (y : Z) : Bitmap :=
  with_data (hline y 0 width (ink_of (gradient_colour color1 color2 y height))
               (im_data im)) im.

(** The bitmap [create_gradient_background] builds. *)
Definition gradient_bitmap (width height : Z) (color1 color2 : color) : Bitmap :=
  foldl (paint_row width height color1 color2)
        (solid RGB width height (0, 0, 0, 0))
        (range 0 height).

(** The bitmap [Image.thumbnail] leaves in place for a target size. *)
Definition thumbnail_of (E : Env) (b : Bitmap) (target : option (Z * Z))
    : Bitmap :=
  match target with
  | None => b
  | Some new_size =>
      if bool_decide ((im_width b, im_height b) = new_size) then b
      else resize_bitmap E new_size b
  end.

(** Whether the resize of [Image.thumbnail] towards a target size is
    refused. *)
Definition thumbnail_refused (b : Bitmap) (target : option (Z * Z)) : bool :=
  match target with
  | None => false
  | Some new_size =>
      negb (bool_decide ((im_width b, im_height b) = new_size))
      && resize_refused b new_size
  end.

(** The RGBA form [process_logo] gives its result (lines 85-86). *)
Definition as_RGBA (b : Bitmap) : Bitmap :=
  if bool_decide (im_mode b <> RGBA) then convert_bitmap RGBA b else b.

(** The font [get_font] hands back when font faults are IOErrors. *)
Definition font_of (E : Env) (size : Z) : Font :=
  match truetype E size with
  | None => TrueType size
  | Some _ => DefaultFont
  end.

(** [int(n * factor)] *)
Definition scaled (n : Z) (factor : float) : Z :=
  py_int (fmul (float_of_int n) factor).

(** The layout geometry of a width x height poster (lines 120-128, 138). *)
Definition base_size (width height : Z) : Z := Z.min width height / 15.
Definition subtitle_size (width height : Z) : Z :=
  scaled (base_size width height) lit_0_8.
Definition details_size (width height : Z) : Z :=
  scaled (base_size width height) lit_0_5.
Definition spacing (width height : Z) : Z :=
  scaled (base_size width height) lit_1_2.
Definition line_step (width height : Z) : Z :=
  scaled (details_size width height) lit_1_5.

(** The exception that escapes the two font requests of a width x height
    layout (lines 127-128), the subtitle font's first. *)
Definition layout_font_error (E : Env) (width height : Z) : option exn :=
  match escaping_font_error E (subtitle_size width height) with
  | Some e => Some e
  | None => escaping_font_error E (details_size width height)
  end.

(** Both fonts of a width x height layout load or fail with an IOError, the
    fault [get_font] recovers from. *)
Definition fonts_ready (E : Env) (width height : Z) : Prop :=
  layout_font_error E width height = None.

(** At a size of 1 or more [ImageFont.truetype] fails with an IOError only
    (the font file is missing). *)
Definition positive_sizes_recover (E : Env) : Prop :=
  forall size e, 0 < size -> truetype E size = Some e -> is_IOError e = true.

(** Where the first detail line goes: below the subtitle when there is one. *)
Definition details_start (width height : Z) (subtitle : pystr) : Z :=
  if truthy subtitle then height / 3 + spacing width height else height / 3.

(** The calls of one centred, outlined line of the layout. *)
Definition line_calls (E : Env) (draw : ref) (font : Font) (fill : string)
    (width : Z) (text : pystr) (y : Z) : list TextCall :=
  outlined_calls draw text font fill "black"
    (width / 2 - measured_width E text font / 2) y.

Fixpoint detail_calls (E : Env) (draw : ref) (font : Font)
    (width y step : Z) (lines : list pystr) : list TextCall :=
  match lines with
  | [] => []
  | line :: rest =>
      line_calls E draw font "lightgray" width line y
      ++ detail_calls E draw font width (y + step) step rest
  end.

(** Every [draw.text] call of [apply_text_layout], in order. *)
Definition layout_calls (E : Env) (draw : ref) (width height : Z)
    (subtitle details : pystr) : list TextCall :=
  (if truthy subtitle then
     line_calls E draw (font_of E (subtitle_size width height)) "white"
       width subtitle (height / 3)
   else [])
  ++ (if truthy details then
        detail_calls E draw (font_of E (details_size width height)) width
          (details_start width height subtitle) (line_step width height)
          (map strip (List.filter (fun line => truthy (strip line))
                                  (split newline details)))
      else []).

(** The background under the black layer of alpha 80. *)
Definition darkened (bg : Bitmap) : Bitmap :=
  alpha_composite_bitmap (convert_bitmap RGBA bg)
    (solid RGBA (im_width bg) (im_height bg) (0, 0, 0, 80)).

(** The logo pasted through its own alpha, 40 pixels from the top and from
    the right edge. *)
Definition with_logo (logo : option Bitmap) (b : Bitmap) : Bitmap :=
  match logo with
  | Some lg => paste_bitmap lg lg (im_width b - im_width lg - 40) 40 b
  | None => b
  end.

(** The transparent layer the text is drawn on. *)
Definition text_overlay (E : Env) (calls : list TextCall) (width height : Z)
    : Bitmap :=
  with_data (render E calls (fun _ _ => (0, 0, 0, 0)))
    (solid RGBA width height (0, 0, 0, 0)).

(** The sizes [Image.new] accepts. *)
Definition allocatable (width height : Z) : Prop :=
  0 <= width <= 536870910 /\ 0 <= height <= 2147483647.

(** A bitmap that loads and has sides Pillow can give an image. *)
Definition usable (b : Bitmap) : Prop :=
  0 <= im_width b <= 536870910 /\ 0 <= im_height b <= 2147483647 /\
  im_fault b = false.

(** The optional logo argument refers to a processed logo: an RGBA bitmap
    that loads. *)
Definition processed_logo_at (w : World) (logo : option ref)
    (bitmap : option Bitmap) : Prop :=
  match logo, bitmap with
  | Some l, Some lg =>
      heap w !! l = Some lg /\ im_fault lg = false /\ im_mode lg = RGBA
  | None, None => True
  | _, _ => False
  end.

(** The bitmap [apply_text_layout] hands back: the text overlay over the
    darkened background with the logo, reduced to RGB. *)
Definition poster_of (E : Env) (bg : Bitmap) (logo : option Bitmap)
    (calls : list TextCall) : Bitmap :=
  convert_bitmap RGB
    (alpha_composite_bitmap
       (with_logo logo (darkened bg))
       (text_overlay E calls (im_width bg) (im_height bg))).

(** A background, a processed logo and an unprocessed logo. *)
Definition sample_world : World :=
  {| heap := [solid RGB 1024 683 (100, 150, 255, 255);
              solid RGBA 120 60 (255, 0, 0, 255);
              solid RGB 400 100 (10, 20, 30, 255)];
     trace := [] |}.

(** ** The same arithmetic in the standard library's IEEE 754 specification *)

Definition ieee (z : Z) : spec_float := binary_normalize 53 1024 z 0 false.

(** The rational a finite [spec_float] denotes. *)
Definition ieee_value (f : spec_float) : Q :=
  match f with
  | S754_finite s m e =>
      ((if s then -1 else 1) * inject_Z (Zpos m) * pow2 e)%Q
  | _ => 0%Q
  end.

Definition ieee_quotient (a b : Z) : spec_float :=
  SFdiv 53 1024 (ieee a) (ieee b).

Definition ieee_gradient_value (c1 c2 y height : Z) : spec_float :=
  let ratio := ieee_quotient y height in
  SFadd 53 1024
    (SFmul 53 1024 (ieee c1) (SFsub 53 1024 (ieee 1) ratio))
    (SFmul 53 1024 (ieee c2) ratio).

(** All (y, height) with 0 <= y < height <= n. *)
Definition rows_up_to (n : Z) : list (Z * Z) :=
  flat_map (fun h => map (fun y => (y, h)) (range 0 h)) (range 1 (n + 1)).

(** ** Vocabulary of the further properties *)

(** The bitmap [create_fallback_background] builds (line 57). *)
Definition fallback_bitmap (width height : Z) : Bitmap :=
  gradient_bitmap width height (100, 150, 255) (150, 200, 255).

(** The exception [Image.new] raises for a size, if it raises. *)
Definition size_error (width height : Z) : option exn :=
  if (width <? 0) || (height <? 0) then Some ValueError
  else if (2147483647 <? width) || (2147483647 <? height)
  then Some OverflowError
  else if 536870910 <? width then Some MemoryError
  else None.

(** [not token] (line 15): HF_TOKEN is unset or empty. *)
Definition no_token (E : Env) : Prop :=
  hf_token E = None \/ hf_token E = Some [].

(** The first request raises a RequestException, or is answered with a
    status other than 200 and 503: the two ways to [break] (lines 43-48). *)
Definition first_attempt_breaks (E : Env) : Prop :=
  match http_post E 0 with
  | RequestFails => True
  | Response status_code _ => status_code <> 200 /\ status_code <> 503
  end.

(** An installation with a token whose provider always gives the same
    answer, decoded (or not) the same way. *)
Definition answering_env (answer : http_outcome) (decoded : option Bitmap)
    : Env :=
  {| hf_token := Some (str "hf_token");
     http_post := fun _ => answer;
     image_open := fun _ => decoded;
     truetype := fun _ => Some OSError;
     textbbox := Some (fun _ text => (0, 0, 6 * Z.of_nat (length text), 11));
     textsize := fun _ text => (6 * Z.of_nat (length text), 11);
     rasterize := box_raster;
     lanczos := nearest;
     has_Resampling := true |}.

(** Where the truncated interpolation between two channel values [c1] (top)
    and [c2] (bottom) can lie. *)
Definition between_ends (c1 c2 v : Z) : Prop :=
  if c1 <? c2 then c1 <= v < c2
  else if c2 <? c1 then c2 <= v <= c1
  else c1 - 1 <= v <= c1.

(** What the black layer of alpha 80 leaves of an opaque channel value:
    175/255 of it, rounded to the nearest integer. *)
Definition darkened_channel (c : Z) : Z := (175 * c + 127) / 255.

(** The number of text lines [apply_text_layout] draws. *)
Definition lines_drawn (subtitle details : pystr) : nat :=
  ((if truthy subtitle then 1 else 0) + length (text_block details))%nat.

(** An installation with a Pillow older than 9.1: no [Image.Resampling],
    no [textbbox]. *)
Definition legacy_env : Env :=
  {| hf_token := None;
     http_post := fun _ => RequestFails;
     image_open := fun _ => None;
     truetype := fun _ => Some OSError;
     textbbox := None;
     textsize := fun _ text => (6 * Z.of_nat (length text), 11);
     rasterize := box_raster;
     lanczos := nearest;
     has_Resampling := false |}.

(** An installation whose [ImageFont.truetype] refuses a size of 0 or less
    with ValueError, before it looks for the font file. *)
Definition strict_font_env : Env :=
  {| hf_token := None;
     http_post := fun _ => RequestFails;
     image_open := fun _ => None;
     truetype := fun size => if size <=? 0 then Some ValueError
                             else Some OSError;
     textbbox := Some (fun _ text => (0, 0, 6 * Z.of_nat (length text), 11));
     textsize := fun _ text => (6 * Z.of_nat (length text), 11);
     rasterize := box_raster;
     lanczos := nearest;
     has_Resampling := true |}.

(** A background of 20 x 20 pixels. *)
Definition tiny_world : World :=
  {| heap := [solid RGB 20 20 (0, 0, 0, 255)]; trace := [] |}.






(** A background of 768 x 1024 pixels, the "3:4 - Poster" size. *)
Definition portrait_world : World :=
  {| heap := [solid RGB 768 1024 (100, 150, 255, 255)]; trace := [] |}.

(** A pixel whose four bytes are bytes. *)
Definition valid_pixel (p : pixel) : Prop :=
  let '(r, g, b, a) := p in
  0 <= r <= 255 /\ 0 <= g <= 255 /\ 0 <= b <= 255 /\ 0 <= a <= 255.

(** * Properties *)

(** ** Rounding to binary64 *)

Section FloatLemmas.
Local Open Scope Q_scope.

Lemma pow2_pos k : 0 < pow2 k.
Proof. apply Qpower_0_lt. reflexivity. Qed.

Lemma pow2_add a b : pow2 (a + b) == pow2 a * pow2 b.
Proof. apply Qpower_plus. discriminate. Qed.

Lemma pow2_Z k : (0 <= k)%Z -> pow2 k == inject_Z (2 ^ k).
Proof. intros H. unfold pow2. now rewrite Zpower_Qpower. Qed.

Lemma pow2_opp k : pow2 (- k) == / pow2 k.
Proof. apply Qpower_opp. Qed.

Lemma pow2_le a b : (a <= b)%Z -> pow2 a <= pow2 b.
Proof. intros H. apply Qpower_le_compat_l; [exact H | discriminate]. Qed.

Lemma pow2_succ k : pow2 (k + 1) == 2 * pow2 k.
Proof. rewrite pow2_add. unfold pow2 at 2. simpl. ring. Qed.

Lemma ilog2_spec q : 0 < q -> pow2 (ilog2 q) <= q /\ q < pow2 (ilog2 q + 1).
Proof.
  intros Hq. unfold ilog2.
  destruct (Qle_bool 1 q) eqn:E.
  - apply Qle_bool_iff in E.
    assert (Hf : (1 <= Qfloor q)%Z).
    { change 1%Z with (Qfloor 1). now apply Qfloor_resp_le. }
    destruct (Z.log2_spec (Qfloor q)) as [L1 L2]; [lia|].
    pose proof (Z.log2_nonneg (Qfloor q)) as L0.
    rewrite !pow2_Z by lia. split.
    + apply Qle_trans with (inject_Z (Qfloor q)); [|apply Qfloor_le].
      rewrite <- Zle_Qle. exact L1.
    + apply Qlt_le_trans with (inject_Z (Qfloor q + 1)); [apply Qlt_floor|].
      rewrite <- Zle_Qle. rewrite <- Z.add_1_r in L2. lia.
  - assert (Hlt : q < 1).
    { apply Qnot_le_lt. intros H. apply Qle_bool_iff in H. congruence. }
    assert (Hi : 1 < / q).
    { apply Qlt_shift_inv_l; [exact Hq | lra]. }
    pose proof (Qle_ceiling (/ q)) as C1.
    pose proof (Qceiling_lt (/ q)) as C2.
    set (c := Qceiling (/ q)) in *.
    assert (Hc : (1 < c)%Z).
    { rewrite Zlt_Qlt. change (inject_Z 1) with 1. lra. }
    destruct (Z.log2_up_spec c Hc) as [L1 L2].
    pose proof (Z.log2_up_pos c Hc) as L0.
    set (k := Z.log2_up c) in *.
    assert (Hp : 0 < pow2 k) by apply pow2_pos.
    assert (H2 : q * / q == 1) by (apply Qmult_inv_r; lra).
    split.
    + rewrite pow2_opp. apply Qle_shift_inv_r; [exact Hp|].
      assert (H1 : / q <= pow2 k).
      { rewrite pow2_Z by lia. apply Qle_trans with (inject_Z c); [exact C1|].
        now rewrite <- Zle_Qle. }
      nra.
    + replace (- k + 1)%Z with (- (k - 1))%Z by lia.
      rewrite pow2_opp.
      assert (Hp' : 0 < pow2 (k - 1)) by apply pow2_pos.
      apply Qlt_shift_inv_l; [exact Hp'|].
      assert (H1 : pow2 (k - 1) < / q).
      { rewrite pow2_Z by lia.
        apply Qle_lt_trans with (inject_Z (c - 1)); [|exact C2].
        rewrite <- Zle_Qle. replace (Z.pred k) with (k - 1)%Z in L1 by lia. lia. }
      nra.
Qed.

Lemma round_half_even_floor x :
  (Qfloor x <= round_half_even x <= Qfloor x + 1)%Z.
Proof.
  unfold round_half_even.
  destruct (Qcompare _ _); [destruct (Z.even _)|..]; lia.
Qed.

Lemma round_half_even_err x :
  x - (1 # 2) <= inject_Z (round_half_even x) <= x + (1 # 2).
Proof.
  unfold round_half_even.
  pose proof (Qfloor_le x) as F1. pose proof (Qlt_floor x) as F2.
  rewrite inject_Z_plus in F2. change (inject_Z 1) with 1 in F2.
  destruct (Qcompare_spec (x - inject_Z (Qfloor x)) (1 # 2)) as [E|E|E].
  - destruct (Z.even _); rewrite ?inject_Z_plus; change (inject_Z 1) with 1; lra.
  - lra.
  - rewrite inject_Z_plus. change (inject_Z 1) with 1. lra.
Qed.

Lemma round_half_even_le_int x n :
  x <= inject_Z n -> (round_half_even x <= n)%Z.
Proof.
  intros H. unfold round_half_even.
  pose proof (Qfloor_le x) as F1.
  assert (Hf : (Qfloor x <= n)%Z) by (rewrite Zle_Qle; lra).
  assert (Hs : inject_Z (Qfloor x) < x -> (Qfloor x + 1 <= n)%Z).
  { intros Hlt. assert (Qfloor x < n)%Z by (rewrite Zlt_Qlt; lra). lia. }
  destruct (Qcompare_spec (x - inject_Z (Qfloor x)) (1 # 2)) as [E|E|E].
  - destruct (Z.even _); [exact Hf | apply Hs; lra].
  - exact Hf.
  - apply Hs; lra.
Qed.

Lemma round_half_even_ge_int x n :
  inject_Z n <= x -> (n <= round_half_even x)%Z.
Proof.
  intros H. apply Z.le_trans with (Qfloor x).
  - rewrite <- (Qfloor_Z n). now apply Qfloor_resp_le.
  - apply round_half_even_floor.
Qed.

Lemma round64_pos_eq q :
  0 < q ->
  round64 q
  == inject_Z (round_half_even (q / pow2 (ulp_exp q))) * pow2 (ulp_exp q).
Proof.
  intros Hq. unfold round64.
  destruct (Qcompare_spec q 0) as [E|E|E]; try lra.
  apply Qred_correct.
Qed.

Lemma round64_zero q : q == 0 -> round64 q == 0.
Proof.
  intros Hq. unfold round64.
  destruct (Qcompare_spec q 0) as [E|E|E]; try lra.
Qed.

(** The result is within half a unit in the last place. *)
Lemma round64_ulp_err q :
  0 < q ->
  q - pow2 (ulp_exp q - 1) <= round64 q <= q + pow2 (ulp_exp q - 1).
Proof.
  intros Hq. rewrite (round64_pos_eq q Hq).
  pose proof (pow2_pos (ulp_exp q)) as Hu.
  pose proof (pow2_succ (ulp_exp q - 1)) as Hh.
  replace (ulp_exp q - 1 + 1)%Z with (ulp_exp q) in Hh by lia.
  pose proof (round_half_even_err (q / pow2 (ulp_exp q))) as [E1 E2].
  set (u := pow2 (ulp_exp q)) in *. set (h := pow2 (ulp_exp q - 1)) in *.
  set (m := inject_Z (round_half_even (q / u))) in *.
  assert (Hd : q / u * u == q) by (field; lra).
  split; nra.
Qed.

Lemma round64_nonneg q : 0 <= q -> 0 <= round64 q.
Proof.
  intros Hq. destruct (Qlt_le_dec 0 q) as [Hp|Hz].
  - rewrite (round64_pos_eq q Hp).
    apply Qmult_le_0_compat; [|apply Qlt_le_weak, pow2_pos].
    change 0 with (inject_Z 0). rewrite <- Zle_Qle.
    apply round_half_even_ge_int. apply Qle_shift_div_l; [apply pow2_pos|].
    change (inject_Z 0) with 0. lra.
  - rewrite round64_zero; lra.
Qed.

Lemma ulp_exp_small q : 0 < q -> q < pow2 53 -> (ulp_exp q <= 0)%Z.
Proof.
  intros Hq Hlt. destruct (ilog2_spec q Hq) as [L1 _].
  assert (ilog2 q < 53)%Z.
  { apply Qpower_lt_compat_l_inv with (q := 2); [|reflexivity].
    fold (pow2 (ilog2 q)). fold (pow2 53). lra. }
  unfold ulp_exp. lia.
Qed.

(** Below 2^53 every integer is a binary64 number, so rounding never
    crosses one. *)
Lemma round64_le_int q n :
  0 <= q -> q < pow2 53 -> q <= inject_Z n -> round64 q <= inject_Z n.
Proof.
  intros Hq Hlt Hn. destruct (Qlt_le_dec 0 q) as [Hp|Hz].
  - rewrite (round64_pos_eq q Hp).
    pose proof (ulp_exp_small q Hp Hlt) as Hu.
    pose proof (pow2_pos (ulp_exp q)) as Hpos.
    pose proof (pow2_pos (- ulp_exp q)) as Hpos'.
    assert (Hinv : pow2 (- ulp_exp q) * pow2 (ulp_exp q) == 1).
    { rewrite <- pow2_add.
      replace (- ulp_exp q + ulp_exp q)%Z with 0%Z by lia. reflexivity. }
    assert (Hm : (round_half_even (q / pow2 (ulp_exp q))
                  <= n * 2 ^ (- ulp_exp q))%Z).
    { apply round_half_even_le_int. rewrite inject_Z_mult, <- pow2_Z by lia.
      apply Qle_shift_div_r; [exact Hpos|]. nra. }
    rewrite Zle_Qle, inject_Z_mult, <- pow2_Z in Hm by lia.
    set (m := inject_Z (round_half_even _)) in *. nra.
  - rewrite round64_zero; lra.
Qed.

Lemma round64_ge_int q n :
  0 <= q -> q < pow2 53 -> inject_Z n <= q -> inject_Z n <= round64 q.
Proof.
  intros Hq Hlt Hn. destruct (Qlt_le_dec 0 q) as [Hp|Hz].
  - rewrite (round64_pos_eq q Hp).
    pose proof (ulp_exp_small q Hp Hlt) as Hu.
    pose proof (pow2_pos (ulp_exp q)) as Hpos.
    pose proof (pow2_pos (- ulp_exp q)) as Hpos'.
    assert (Hinv : pow2 (- ulp_exp q) * pow2 (ulp_exp q) == 1).
    { rewrite <- pow2_add.
      replace (- ulp_exp q + ulp_exp q)%Z with 0%Z by lia. reflexivity. }
    assert (Hm : (n * 2 ^ (- ulp_exp q)
                  <= round_half_even (q / pow2 (ulp_exp q)))%Z).
    { apply round_half_even_ge_int. rewrite inject_Z_mult, <- pow2_Z by lia.
      apply Qle_shift_div_l; [exact Hpos|]. nra. }
    rewrite Zle_Qle, inject_Z_mult, <- pow2_Z in Hm by lia.
    set (m := inject_Z (round_half_even _)) in *. nra.
  - rewrite round64_zero; lra.
Qed.

(** Absolute error of a value of at most 2^k. *)
Lemma round64_abs_err q k :
  0 <= q -> q <= pow2 k -> (-1021 <= k)%Z ->
  q - pow2 (k - 53) <= round64 q <= q + pow2 (k - 53).
Proof.
  intros Hq Hk Hr. destruct (Qlt_le_dec 0 q) as [Hp|Hz].
  - destruct (ilog2_spec q Hp) as [L1 L2].
    assert (He : (ilog2 q <= k)%Z).
    { apply Qpower_le_compat_l_inv with (q := 2); [|reflexivity].
      fold (pow2 (ilog2 q)). fold (pow2 k). lra. }
    assert (Hu : pow2 (ulp_exp q - 1) <= pow2 (k - 53)).
    { apply pow2_le. unfold ulp_exp. lia. }
    pose proof (round64_ulp_err q Hp). lra.
  - pose proof (pow2_pos (k - 53)). rewrite round64_zero; lra.
Qed.

(** Relative error of a normal number. *)
Lemma round64_rel_err q :
  pow2 (-1022) <= q ->
  q - q * pow2 (-53) <= round64 q <= q + q * pow2 (-53).
Proof.
  intros Hn. pose proof (pow2_pos (-1022)) as H0.
  assert (Hp : 0 < q) by lra.
  destruct (ilog2_spec q Hp) as [L1 L2].
  assert (He : (-1022 <= ilog2 q)%Z).
  { assert (-1022 < ilog2 q + 1)%Z; [|lia].
    apply Qpower_lt_compat_l_inv with (q := 2); [|reflexivity].
    fold (pow2 (ilog2 q + 1)). fold (pow2 (-1022)). lra. }
  assert (Hu : pow2 (ulp_exp q - 1) == pow2 (ilog2 q) * pow2 (-53)).
  { rewrite <- pow2_add. unfold ulp_exp.
    replace (Z.max (ilog2 q - 52) (-1074) - 1)%Z
      with (ilog2 q + -53)%Z by lia. reflexivity. }
  pose proof (round64_ulp_err q Hp) as [E1 E2].
  pose proof (pow2_pos (-53)) as H53.
  rewrite Hu in E1, E2. split; nra.
Qed.

Lemma inject_Z_pos n : (0 < n)%Z -> 0 < inject_Z n.
Proof. intros H. change 0 with (inject_Z 0). now rewrite <- Zlt_Qlt. Qed.

Lemma inject_Z_bound n k : (n <= k)%Z -> inject_Z n <= inject_Z k.
Proof. intros H. now rewrite <- Zle_Qle. Qed.

Lemma Qmult_le_nonneg_l x y z : 0 <= z -> x <= y -> z * x <= z * y.
Proof.
  intros Hz Hxy. rewrite (Qmult_comm z x), (Qmult_comm z y).
  now apply Qmult_le_compat_r.
Qed.

End FloatLemmas.

(** ** Running computations *)

Lemma bind_ok {A B} (m : M A) (f : A -> M B) w a w' :
  m w = (Ok a, w') -> (m ≫= f) w = f a w'.
Proof. intros H. unfold mbind, M_bind. now rewrite H. Qed.

Lemma bind_raise {A B} (m : M A) (f : A -> M B) w e w' :
  m w = (Raise e, w') -> (m ≫= f) w = (Raise e, w').
Proof. intros H. unfold mbind, M_bind. now rewrite H. Qed.

Lemma emit_nil E w : emit E [] w = w.
Proof. destruct w. unfold emit. simpl. now rewrite app_nil_r. Qed.

Lemma emit_app E c1 c2 w : emit E (c1 ++ c2) w = emit E c2 (emit E c1 w).
Proof. unfold emit. simpl. now rewrite foldl_app, app_assoc. Qed.

Lemma draw_text_run E draw x y text font fill w :
  draw_text E draw x y text font fill w
  = (Ok tt, emit E [text_call draw text font fill x y] w).
Proof. reflexivity. Qed.

(** ** The outline loops of [draw_text_with_outline] *)

Lemma outline_inner_run E draw text font outline x y dx dys w :
  for_each dys (fun dy =>
    if negb (dx =? 0) || negb (dy =? 0) then
      draw_text E draw (x + dx) (y + dy) text font outline
    else mret tt) w
  = (Ok tt,
     emit E (map (fun dy => text_call draw text font outline (x + dx) (y + dy))
               (List.filter (fun dy => negb (dx =? 0) || negb (dy =? 0)) dys)) w).
Proof.
  revert w. induction dys as [|dy dys IH]; intros w.
  - simpl. now rewrite emit_nil.
  - cbn [for_each List.filter].
    destruct (negb (dx =? 0) || negb (dy =? 0)).
    + erewrite bind_ok by apply draw_text_run.
      rewrite IH. cbn [map]. now rewrite <- emit_app.
    + erewrite bind_ok by reflexivity. apply IH.
Qed.

Lemma outline_outer_run E draw text font outline x y dxs dys w :
  for_each dxs (fun dx =>
    for_each dys (fun dy =>
      if negb (dx =? 0) || negb (dy =? 0) then
        draw_text E draw (x + dx) (y + dy) text font outline
      else mret tt)) w
  = (Ok tt,
     emit E (map (fun d => text_call draw text font outline (x + d.1) (y + d.2))
               (flat_map (fun dx =>
                  map (pair dx)
                    (List.filter (fun dy => negb (dx =? 0) || negb (dy =? 0)) dys))
                  dxs)) w).
Proof.
  revert w. induction dxs as [|dx dxs IH]; intros w.
  - simpl. now rewrite emit_nil.
  - cbn [for_each flat_map].
    erewrite bind_ok by apply outline_inner_run.
    rewrite IH, map_app, emit_app. do 2 f_equal.
    now rewrite map_map.
Qed.

(** The x at which [draw_text_with_outline] draws. *)
Lemma centering_run E text font x w :
  try_except
    (bbox ← draw_textbbox E text font;
     let '(x0, _, x1, _) := bbox in
     mret (x - (x1 - x0) / 2))
    is_AttributeError
    (fun _ => wh ← draw_textsize E text font; mret (x - wh.1 / 2)) w
  = (Ok (x - measured_width E text font / 2), w).
Proof.
  unfold try_except, draw_textbbox, draw_textsize, measured_width.
  destruct (textbbox E) as [f|]; [|reflexivity].
  unfold mbind, M_bind, mret, M_ret.
  destruct (f font text) as [[[x0 y0] x1] y1]. reflexivity.
Qed.

Lemma draw_text_with_outline_run E draw text x y font fill outline center w :
  draw_text_with_outline E draw text x y font fill outline center w
  = (Ok tt,
     emit E (outlined_calls draw text font fill outline
               (if center then x - measured_width E text font / 2 else x) y) w).
Proof.
  unfold draw_text_with_outline.
  rewrite bind_ok with
    (a := if center then x - measured_width E text font / 2 else x) (w' := w);
    [|destruct center; [apply centering_run | reflexivity]].
  erewrite bind_ok by apply outline_outer_run.
  rewrite draw_text_run, <- emit_app. reflexivity.
Qed.

Lemma offsets24_spec dx dy :
  (dx, dy) ∈ offsets24 <->
  -2 <= dx <= 2 /\ -2 <= dy <= 2 /\ (dx, dy) <> (0, 0).
Proof.
  split.
  - unfold offsets24. rewrite !elem_of_cons, elem_of_nil.
    intros H.
    repeat destruct H as [H|H];
      inversion H; subst; repeat split; (lia || discriminate).
  - intros (Hx & Hy & Hne).
    assert (Hc : dx = -2 \/ dx = -1 \/ dx = 0 \/ dx = 1 \/ dx = 2) by lia.
    assert (Hd : dy = -2 \/ dy = -1 \/ dy = 0 \/ dy = 1 \/ dy = 2) by lia.
    unfold offsets24.
    destruct Hc as [->|[->|[->|[->| ->]]]];
      destruct Hd as [->|[->|[->|[->| ->]]]];
      try congruence;
      apply (bool_decide_unpack _); vm_compute; exact I.
Qed.

Lemma offsets24_NoDup : NoDup offsets24.
Proof. apply (bool_decide_unpack (NoDup offsets24)). vm_compute. exact I. Qed.

(** ** The heap *)

Lemma alter_known {A} (f : A -> A) (l : list A) i x :
  l !! i = Some x -> alter f i l = <[i := f x]> l.
Proof.
  intros H. apply list_eq. intros j.
  destruct (decide (i = j)) as [<-|Hne].
  - rewrite list_lookup_alter_eq, H, list_lookup_insert_eq; [done|].
    eapply lookup_lt_Some, H.
  - now rewrite list_lookup_alter_ne, list_lookup_insert_ne.
Qed.

Lemma lookup_new {A} (l : list A) x : (l ++ [x]) !! length l = Some x.
Proof. now rewrite list_lookup_middle. Qed.

Lemma insert_new {A} (l : list A) x y : <[length l := y]> (l ++ [x]) = l ++ [y].
Proof.
  replace (length l) with (length l + 0)%nat by lia.
  now rewrite insert_app_r.
Qed.

Lemma deref_run r b w : heap w !! r = Some b -> deref r w = (Ok b, w).
Proof. intros H. unfold deref. now rewrite H. Qed.

Lemma load_run r b w :
  heap w !! r = Some b -> im_fault b = false -> load r w = (Ok b, w).
Proof.
  intros H Hf. unfold load. erewrite bind_ok by (apply deref_run, H).
  now rewrite Hf.
Qed.

Lemma mutate_run r f b w :
  heap w !! r = Some b ->
  mutate r f w = (Ok tt, {| heap := <[r := f b]> (heap w); trace := trace w |}).
Proof. intros H. unfold mutate. now rewrite (alter_known _ _ _ _ H). Qed.

(** ** The gradient *)

Lemma range_elem lo hi y : y ∈ range lo hi <-> lo <= y < hi.
Proof.
  unfold range. rewrite list_elem_of_fmap. split.
  - intros (k & -> & Hk). apply elem_of_seq in Hk. lia.
  - intros H. exists (Z.to_nat (y - lo)). split; [lia|].
    apply elem_of_seq. lia.
Qed.

Lemma py_truediv_run a b :
  b <> 0 -> py_truediv a b = Ok (true_quotient a b).
Proof. intros H. unfold py_truediv. now destruct (Z.eqb_spec b 0). Qed.

Lemma gradient_row_run draw width height color1 color2 y im w :
  heap w !! draw = Some im -> im_mode im = RGB -> height <> 0 ->
  gradient_row draw width height color1 color2 y w
  = (Ok tt, {| heap := <[draw := paint_row width height color1 color2 im y]> (heap w);
               trace := trace w |}).
Proof.
  intros Him Hm Hh. unfold gradient_row.
  erewrite bind_ok by (unfold lift; now rewrite py_truediv_run).
  unfold draw_line.
  erewrite bind_ok by (apply deref_run, Him).
  rewrite Hm. now rewrite (mutate_run _ _ _ _ Him).
Qed.

Lemma paint_row_mode width height c1 c2 im y :
  im_mode (paint_row width height c1 c2 im y) = im_mode im.
Proof. reflexivity. Qed.

Lemma gradient_loop_run draw width height color1 color2 ys im w :
  heap w !! draw = Some im -> im_mode im = RGB -> height <> 0 ->
  for_each ys (gradient_row draw width height color1 color2) w
  = (Ok tt,
     {| heap := <[draw := foldl (paint_row width height color1 color2) im ys]> (heap w);
        trace := trace w |}).
Proof.
  intros Him Hm Hh. revert im w Him Hm.
  induction ys as [|y ys IH]; intros im w Him Hm.
  - simpl. rewrite list_insert_id by exact Him. now destruct w.
  - cbn [for_each foldl].
    erewrite bind_ok by (apply gradient_row_run; eassumption).
    rewrite (IH (paint_row width height color1 color2 im y)).
    + cbn [heap trace]. now rewrite list_insert_insert_eq.
    + cbn [heap]. apply list_lookup_insert_eq. eapply lookup_lt_Some, Him.
    + exact Hm.
Qed.

Lemma create_gradient_background_run width height color1 color2 w :
  0 <= width <= 536870910 -> 0 <= height <= 2147483647 ->
  create_gradient_background width height color1 color2 w
  = (Ok (length (heap w)),
     {| heap := heap w ++ [gradient_bitmap width height color1 color2];
        trace := trace w |}).
Proof.
  intros Hw Hh. unfold create_gradient_background, Image_new.
  destruct (Z.ltb_spec width 0); [lia|]. destruct (Z.ltb_spec height 0); [lia|].
  destruct (Z.ltb_spec 2147483647 width); [lia|].
  destruct (Z.ltb_spec 2147483647 height); [lia|].
  destruct (Z.ltb_spec 536870910 width); [lia|].
  cbn [orb]. erewrite bind_ok by reflexivity.
  unfold ImageDraw_Draw at 1.
  erewrite bind_ok; cycle 1.
  { erewrite bind_ok; [reflexivity|]. apply load_run with (b := {| im_mode := RGB; im_width := width; im_height := height; im_data := fun _ _ => (0, 0, 0, 0); im_fault := false |}); [apply lookup_new | reflexivity]. }
  destruct (decide (height = 0)) as [->|Hne].
  - reflexivity.
  - erewrite bind_ok; cycle 1.
    { apply gradient_loop_run; [apply lookup_new | reflexivity | exact Hne]. }
    cbn [heap trace]. rewrite insert_new. reflexivity.
Qed.

Lemma foldl_paint_row_shape width height c1 c2 ys im :
  let im' := foldl (paint_row width height c1 c2) im ys in
  im_mode im' = im_mode im /\ im_width im' = im_width im
  /\ im_height im' = im_height im /\ im_fault im' = im_fault im.
Proof.
  revert im. induction ys as [|y ys IH]; intros im; [done|].
  cbn [foldl]. destruct (IH (paint_row width height c1 c2 im y)) as (?&?&?&?).
  auto.
Qed.

Lemma foldl_paint_row_data width height c1 c2 ys im x y :
  0 <= x <= width -> y ∈ ys ->
  im_data (foldl (paint_row width height c1 c2) im ys) x y
  = ink_of (gradient_colour c1 c2 y height).
Proof.
  intros Hx. revert im.
  assert (Hkeep : forall ys im, y ∉ ys ->
            im_data (foldl (paint_row width height c1 c2) im ys) x y
            = im_data im x y).
  { clear. intros ys. induction ys as [|y0 ys IH]; intros im Hy; [done|].
    cbn [foldl]. rewrite IH by (intros ?; apply Hy; now right).
    cbn. unfold hline. destruct (Z.eqb_spec y y0) as [->|]; [|done].
    exfalso. apply Hy. now left. }
  induction ys as [|y0 ys IH]; intros im Hy; [by apply elem_of_nil in Hy|].
  cbn [foldl]. destruct (decide (y ∈ ys)) as [Hin|Hnin]; [now apply IH|].
  rewrite Hkeep by exact Hnin.
  apply elem_of_cons in Hy as [->|]; [|done].
  cbn. unfold hline. rewrite Z.eqb_refl.
  destruct (Z.leb_spec (Z.min 0 width) x); [|lia].
  destruct (Z.leb_spec x (Z.max 0 width)); [done|lia].
Qed.

Section GradientArithmetic.
Local Open Scope Q_scope.

Lemma round64_int q n :
  (0 <= n < 2 ^ 53)%Z -> q == inject_Z n -> round64 q == inject_Z n.
Proof.
  intros Hn Hq.
  assert (H0 : 0 <= q) by (rewrite Hq; change 0 with (inject_Z 0); rewrite <- Zle_Qle; lia).
  assert (H53 : q < pow2 53).
  { rewrite Hq, pow2_Z by lia. rewrite <- Zlt_Qlt. lia. }
  apply Qle_antisym.
  - apply round64_le_int; [exact H0 | exact H53 | rewrite Hq; apply Qle_refl].
  - apply round64_ge_int; [exact H0 | exact H53 | rewrite Hq; apply Qle_refl].
Qed.

Lemma float_of_int_exact n :
  (0 <= n < 2 ^ 53)%Z -> float_of_int n == inject_Z n.
Proof. intros H. apply round64_int; [exact H | reflexivity]. Qed.

Lemma true_quotient_unit y h :
  (0 <= y < h)%Z -> 0 <= true_quotient y h <= 1.
Proof.
  intros H. unfold true_quotient.
  assert (Hh : 0 < inject_Z h) by (change 0 with (inject_Z 0); rewrite <- Zlt_Qlt; lia).
  assert (Hy : 0 <= inject_Z y) by (change 0 with (inject_Z 0); rewrite <- Zle_Qle; lia).
  assert (Hyh : inject_Z y <= inject_Z h) by (rewrite <- Zle_Qle; lia).
  assert (Hq0 : 0 <= inject_Z y / inject_Z h).
  { apply Qle_shift_div_l; [exact Hh | lra]. }
  assert (Hq1 : inject_Z y / inject_Z h <= 1).
  { apply Qle_shift_div_r; [exact Hh | lra]. }
  split.
  - now apply round64_nonneg.
  - change 1 with (inject_Z 1). apply round64_le_int; [exact Hq0 | | exact Hq1].
    apply Qle_lt_trans with 1; [exact Hq1 | reflexivity].
Qed.

Lemma py_int_nonneg t : 0 <= t -> py_int t = Qfloor t.
Proof.
  intros H. unfold py_int.
  destruct (Qle_bool 0 t) eqn:E; [done|].
  apply Qle_bool_iff in H. congruence.
Qed.

(** A channel of a gradient between two 8-bit values is an 8-bit value. *)
Lemma gradient_channel_range c1 c2 r :
  (0 <= c1 <= 255)%Z -> (0 <= c2 <= 255)%Z -> 0 <= r <= 1 ->
  (0 <= gradient_channel c1 c2 r <= 255)%Z.
Proof.
  intros H1 H2 [Hr0 Hr1]. unfold gradient_channel, gradient_value, fadd, fmul, fsub.
  pose proof (float_of_int_exact c1 ltac:(lia)) as E1.
  pose proof (float_of_int_exact c2 ltac:(lia)) as E2.
  pose proof (float_of_int_exact 1 ltac:(lia)) as E3.
  change (inject_Z 1) with 1 in E3.
  assert (B1 : 0 <= inject_Z c1 <= 255).
  { split; [change 0 with (inject_Z 0)|change 255 with (inject_Z 255)];
      rewrite <- Zle_Qle; lia. }
  assert (B2 : 0 <= inject_Z c2 <= 255).
  { split; [change 0 with (inject_Z 0)|change 255 with (inject_Z 255)];
      rewrite <- Zle_Qle; lia. }
  set (C1 := float_of_int c1) in *. set (C2 := float_of_int c2) in *.
  set (one := float_of_int 1) in *.
  assert (P0 : pow2 0 == 1) by reflexivity.
  assert (P8 : pow2 8 == 256) by reflexivity.
  assert (P9 : pow2 9 == 512) by reflexivity.
  assert (Pa : pow2 (0 - 53) <= 1 # 1000000) by (apply Qle_bool_imp_le; reflexivity).
  assert (Pb : pow2 (8 - 53) <= 1 # 1000000) by (apply Qle_bool_imp_le; reflexivity).
  assert (Pc : pow2 (9 - 53) <= 1 # 1000000) by (apply Qle_bool_imp_le; reflexivity).
  (* s = 1 - ratio *)
  assert (S0 : 0 <= one - r <= pow2 0) by (rewrite P0; lra).
  pose proof (round64_nonneg (one - r) (proj1 S0)) as Ss0.
  pose proof (round64_abs_err (one - r) 0 (proj1 S0) (proj2 S0) ltac:(lia)) as [_ Ss1].
  set (s := round64 (one - r)) in *.
  (* the two products *)
  assert (A0 : 0 <= C1 * s <= pow2 8).
  { rewrite P8. split; [apply Qmult_le_0_compat; lra|].
    assert (C1 * s <= 255 * s) by (apply Qmult_le_compat_r; lra). lra. }
  pose proof (round64_nonneg (C1 * s) (proj1 A0)) as Aa0.
  pose proof (round64_abs_err (C1 * s) 8 (proj1 A0) (proj2 A0) ltac:(lia)) as [_ Aa1].
  assert (B0 : 0 <= C2 * r <= pow2 8).
  { rewrite P8. split; [apply Qmult_le_0_compat; lra|].
    assert (C2 * r <= 255 * r) by (apply Qmult_le_compat_r; lra). lra. }
  pose proof (round64_nonneg (C2 * r) (proj1 B0)) as Bb0.
  pose proof (round64_abs_err (C2 * r) 8 (proj1 B0) (proj2 B0) ltac:(lia)) as [_ Bb1].
  assert (HA : C1 * s <= 255 * s) by (apply Qmult_le_compat_r; lra).
  assert (HB : C2 * r <= 255 * r) by (apply Qmult_le_compat_r; lra).
  set (a := round64 (C1 * s)) in *. set (b := round64 (C2 * r)) in *.
  (* the sum *)
  assert (T0 : 0 <= a + b <= pow2 9) by (rewrite P9; lra).
  pose proof (round64_nonneg (a + b) (proj1 T0)) as Tt0.
  pose proof (round64_abs_err (a + b) 9 (proj1 T0) (proj2 T0) ltac:(lia)) as [_ Tt1].
  set (t := round64 (a + b)) in *.
  rewrite py_int_nonneg by exact Tt0.
  split.
  - change 0%Z with (Qfloor 0). now apply Qfloor_resp_le.
  - assert (Hlt : t < 256) by lra.
    assert (Qfloor t < 256)%Z; [|lia].
    rewrite Zlt_Qlt. apply Qle_lt_trans with t; [apply Qfloor_le | exact Hlt].
Qed.

(** With ratio 0 the channel is the first colour's, exactly. *)
Lemma gradient_channel_top c1 c2 h :
  (0 <= c1 <= 255)%Z -> (0 <= c2 <= 255)%Z -> (0 < h)%Z ->
  gradient_channel c1 c2 (true_quotient 0 h) = c1.
Proof.
  intros H1 H2 Hh. unfold gradient_channel, gradient_value, fadd, fmul, fsub.
  pose proof (float_of_int_exact c1 ltac:(lia)) as E1.
  pose proof (float_of_int_exact c2 ltac:(lia)) as E2.
  pose proof (float_of_int_exact 1 ltac:(lia)) as E3.
  change (inject_Z 1) with 1 in E3.
  assert (Er : true_quotient 0 h == 0).
  { unfold true_quotient. apply round64_zero. unfold Qdiv. ring. }
  set (r := true_quotient 0 h) in *.
  assert (Es : round64 (float_of_int 1 - r) == 1).
  { change 1 with (inject_Z 1). apply round64_int; [lia|].
    rewrite E3, Er. reflexivity. }
  assert (Ea : round64 (float_of_int c1 * round64 (float_of_int 1 - r))
               == inject_Z c1).
  { apply round64_int; [lia|]. rewrite Es, E1. ring. }
  assert (Eb : round64 (float_of_int c2 * r) == 0).
  { apply round64_zero. rewrite Er. ring. }
  assert (Et : round64 (round64 (float_of_int c1 * round64 (float_of_int 1 - r))
                        + round64 (float_of_int c2 * r)) == inject_Z c1).
  { apply round64_int; [lia|]. rewrite Ea, Eb. ring. }
  rewrite py_int_nonneg.
  - rewrite Et. apply Qfloor_Z.
  - rewrite Et. change 0 with (inject_Z 0). rewrite <- Zle_Qle. lia.
Qed.

End GradientArithmetic.

Section GradientAccuracy.
Local Open Scope Q_scope.

(** The binary64 value of the gradient expression is the exact linear
    interpolation up to 10^-12. *)
Lemma gradient_channel_error c1 c2 y h :
  (0 <= c1 <= 255)%Z -> (0 <= c2 <= 255)%Z -> (0 <= y < h)%Z ->
  let q := inject_Z y / inject_Z h in
  let exact := inject_Z c1 * (1 - q) + inject_Z c2 * q in
  exact - 1 - (1 # 1000000000000)
  < inject_Z (gradient_channel c1 c2 (true_quotient y h))
  <= exact + (1 # 1000000000000).
Proof.
  intros H1 H2 Hy q exact.
  unfold gradient_channel, gradient_value, fadd, fmul, fsub.
  pose proof (float_of_int_exact c1 ltac:(lia)) as E1.
  pose proof (float_of_int_exact c2 ltac:(lia)) as E2.
  pose proof (float_of_int_exact 1 ltac:(lia)) as E3.
  change (inject_Z 1) with 1 in E3.
  assert (B1 : 0 <= inject_Z c1 <= 255).
  { split; [change 0 with (inject_Z 0)|change 255 with (inject_Z 255)];
      rewrite <- Zle_Qle; lia. }
  assert (B2 : 0 <= inject_Z c2 <= 255).
  { split; [change 0 with (inject_Z 0)|change 255 with (inject_Z 255)];
      rewrite <- Zle_Qle; lia. }
  assert (Hh : 0 < inject_Z h) by (apply inject_Z_pos; lia).
  assert (Q0 : 0 <= q).
  { apply Qle_shift_div_l; [exact Hh|].
    assert (0 <= inject_Z y)
      by (change 0 with (inject_Z 0); rewrite <- Zle_Qle; lia). lra. }
  assert (Q1 : q <= 1).
  { apply Qle_shift_div_r; [exact Hh|].
    assert (inject_Z y <= inject_Z h) by (rewrite <- Zle_Qle; lia). lra. }
  assert (P0 : pow2 0 == 1) by reflexivity.
  assert (P8 : pow2 8 == 256) by reflexivity.
  assert (P9 : pow2 9 == 512) by reflexivity.
  assert (Pa : pow2 (0 - 53) == 1 # 9007199254740992) by reflexivity.
  assert (Pb : pow2 (8 - 53) == 1 # 35184372088832) by reflexivity.
  assert (Pc : pow2 (9 - 53) == 1 # 17592186044416) by reflexivity.
  pose proof (true_quotient_unit y h Hy) as [R0 R1].
  assert (Rr : q - pow2 (0 - 53) <= true_quotient y h <= q + pow2 (0 - 53)).
  { unfold true_quotient. fold q.
    apply round64_abs_err; [exact Q0 | rewrite P0; exact Q1 | lia]. }
  set (r := true_quotient y h) in *.
  set (C1 := float_of_int c1) in *. set (C2 := float_of_int c2) in *.
  set (one := float_of_int 1) in *.
  assert (S0 : 0 <= one - r <= pow2 0) by (rewrite P0; lra).
  pose proof (round64_nonneg (one - r) (proj1 S0)) as Ss0.
  pose proof (round64_abs_err (one - r) 0 (proj1 S0) (proj2 S0) ltac:(lia))
    as [Ss1 Ss2].
  set (s := round64 (one - r)) in *.
  assert (HA : C1 * s <= 255 * s) by (apply Qmult_le_compat_r; lra).
  assert (HB : C2 * r <= 255 * r) by (apply Qmult_le_compat_r; lra).
  assert (A0 : 0 <= C1 * s <= pow2 8).
  { rewrite P8. split; [apply Qmult_le_0_compat; lra | lra]. }
  pose proof (round64_nonneg (C1 * s) (proj1 A0)) as Aa0.
  pose proof (round64_abs_err (C1 * s) 8 (proj1 A0) (proj2 A0) ltac:(lia))
    as [Aa1 Aa2].
  assert (B0 : 0 <= C2 * r <= pow2 8).
  { rewrite P8. split; [apply Qmult_le_0_compat; lra | lra]. }
  pose proof (round64_nonneg (C2 * r) (proj1 B0)) as Bb0.
  pose proof (round64_abs_err (C2 * r) 8 (proj1 B0) (proj2 B0) ltac:(lia))
    as [Bb1 Bb2].
  set (a := round64 (C1 * s)) in *. set (b := round64 (C2 * r)) in *.
  assert (T0 : 0 <= a + b <= pow2 9) by (rewrite P9; lra).
  pose proof (round64_nonneg (a + b) (proj1 T0)) as Tt0.
  pose proof (round64_abs_err (a + b) 9 (proj1 T0) (proj2 T0) ltac:(lia))
    as [Tt1 Tt2].
  set (t := round64 (a + b)) in *.
  rewrite Pa in *. rewrite Pb in *. rewrite Pc in *.
  (* the products against the exact factors *)
  assert (X1 : inject_Z c1 * (1 - q - (2 # 9007199254740992)) <= C1 * s).
  { rewrite E1. apply Qmult_le_nonneg_l; lra. }
  assert (X2 : C1 * s <= inject_Z c1 * (1 - q + (2 # 9007199254740992))).
  { rewrite E1. apply Qmult_le_nonneg_l; lra. }
  assert (Y1 : inject_Z c2 * (q - (1 # 9007199254740992)) <= C2 * r).
  { rewrite E2. apply Qmult_le_nonneg_l; lra. }
  assert (Y2 : C2 * r <= inject_Z c2 * (q + (1 # 9007199254740992))).
  { rewrite E2. apply Qmult_le_nonneg_l; lra. }
  assert (Z1 : inject_Z c1 * (2 # 9007199254740992) <= 255 * (2 # 9007199254740992))
    by (apply Qmult_le_compat_r; lra).
  assert (Z2 : inject_Z c2 * (1 # 9007199254740992) <= 255 * (1 # 9007199254740992))
    by (apply Qmult_le_compat_r; lra).
  rewrite py_int_nonneg by exact Tt0.
  pose proof (Qfloor_le t) as F1. pose proof (Qlt_floor t) as F2.
  rewrite inject_Z_plus in F2. change (inject_Z 1) with 1 in F2.
  unfold exact. split; lra.
Qed.

Lemma gradient_channel_near_exact c1 c2 y h :
  (0 <= c1 <= 255)%Z -> (0 <= c2 <= 255)%Z -> (0 <= y < h)%Z ->
  let q := inject_Z y / inject_Z h in
  let exact := inject_Z c1 * (1 - q) + inject_Z c2 * q in
  exact - 1 - (1 # 1000000000)
  < inject_Z (gradient_channel c1 c2 (true_quotient y h))
  <= exact + (1 # 1000000000).
Proof.
  intros H1 H2 Hy q exact.
  pose proof (gradient_channel_error c1 c2 y h H1 H2 Hy) as [Lo Up].
  cbv zeta in Lo, Up. fold q in Lo, Up. fold exact in Lo, Up. split; lra.
Qed.

Lemma Zle_of_Qlt a b : inject_Z a - 1 < inject_Z b -> (a <= b)%Z.
Proof.
  intros H. destruct (Z_le_gt_dec a b) as [|Hgt]; [assumption|exfalso].
  assert (Hb : inject_Z b <= inject_Z (a + -1)) by (rewrite <- Zle_Qle; lia).
  rewrite inject_Z_plus in Hb. change (inject_Z (-1)) with (-1) in Hb. lra.
Qed.

Lemma Zle_of_Qlt_succ a b : inject_Z a < inject_Z b + 1 -> (a <= b)%Z.
Proof.
  intros H. destruct (Z_le_gt_dec a b) as [|Hgt]; [assumption|exfalso].
  assert (Hb : inject_Z (b + 1) <= inject_Z a) by (rewrite <- Zle_Qle; lia).
  rewrite inject_Z_plus in Hb. change (inject_Z 1) with 1 in Hb. lra.
Qed.

(** The exact interpolation is a fraction over the height. *)
Lemma exact_interpolation c1 c2 y h :
  (0 < h)%Z ->
  let q := inject_Z y / inject_Z h in
  inject_Z c1 * (1 - q) + inject_Z c2 * q
  == inject_Z (c1 * (h - y) + c2 * y) / inject_Z h.
Proof.
  intros Hh q. unfold q.
  assert (Hne : ~ inject_Z h == 0).
  { pose proof (inject_Z_pos h Hh). lra. }
  rewrite inject_Z_plus, !inject_Z_mult. unfold Z.sub.
  rewrite inject_Z_plus, inject_Z_opp. field. exact Hne.
Qed.

(** The claim's value is a quotient of integers. *)
Lemma spec_gradient_channel_div c1 c2 y h :
  (0 <= c1)%Z -> (0 <= c2)%Z -> (0 <= y < h)%Z ->
  spec_gradient_channel c1 c2 y h = ((c1 * (h - y) + c2 * y) / h)%Z.
Proof.
  intros H1 H2 Hy. unfold spec_gradient_channel.
  assert (Hh : (0 < h)%Z) by lia.
  pose proof (exact_interpolation c1 c2 y h Hh) as E. cbv zeta in E.
  assert (Hn : (0 <= c1 * (h - y) + c2 * y)%Z) by nia.
  assert (H0 : 0 <= inject_Z (c1 * (h - y) + c2 * y) / inject_Z h).
  { apply Qle_shift_div_l; [now apply inject_Z_pos|].
    assert (0 <= inject_Z (c1 * (h - y) + c2 * y))
      by (change 0 with (inject_Z 0); rewrite <- Zle_Qle; lia). lra. }
  rewrite py_int_nonneg by (rewrite E; exact H0).
  rewrite (Qfloor_comp _ _ E). symmetry. apply Zdiv_Qdiv.
Qed.

(** The channel the code paints against the claim's value: equal where the
    exact interpolation is no integer, equal or one less where it is. *)
Lemma gradient_channel_vs_truncation c1 c2 y h :
  (0 <= c1 <= 255)%Z -> (0 <= c2 <= 255)%Z -> (0 <= y < h)%Z ->
  (h <= 2147483647)%Z ->
  let v := gradient_channel c1 c2 (true_quotient y h) in
  let s := spec_gradient_channel c1 c2 y h in
  (s - 1 <= v <= s)%Z
  /\ (~ (h | c1 * (h - y) + c2 * y)%Z -> v = s).
Proof.
  intros H1 H2 Hy Hmax v s.
  assert (Hh : (0 < h)%Z) by lia.
  pose proof (gradient_channel_error c1 c2 y h H1 H2 Hy) as [Lo Up].
  cbv zeta in Lo, Up. fold v in Lo, Up.
  rewrite (exact_interpolation c1 c2 y h Hh) in Lo, Up.
  unfold s. rewrite spec_gradient_channel_div by lia.
  set (n := (c1 * (h - y) + c2 * y)%Z) in *.
  assert (Hpos : 0 < inject_Z h) by (now apply inject_Z_pos).
  assert (Hbig : inject_Z h <= 2147483647).
  { change 2147483647 with (inject_Z 2147483647). rewrite <- Zle_Qle. lia. }
  set (d := inject_Z n / inject_Z h) in *.
  assert (Hd : d * inject_Z h == inject_Z n).
  { unfold d. field. lra. }
  (* v * h <= n and n - h <= v * h, as integers *)
  assert (U : inject_Z (v * h) < inject_Z n + 1).
  { rewrite inject_Z_mult.
    assert (inject_Z v * inject_Z h <= (d + (1 # 1000000000000)) * inject_Z h)
      by (apply Qmult_le_compat_r; lra).
    assert ((1 # 1000000000000) * inject_Z h
            <= (1 # 1000000000000) * 2147483647)
      by (apply Qmult_le_nonneg_l; lra).
    lra. }
  assert (W : inject_Z (n - h) < inject_Z (v * h) + 1).
  { rewrite inject_Z_mult. unfold Z.sub.
    rewrite inject_Z_plus, inject_Z_opp.
    assert ((d - 1 - (1 # 1000000000000)) * inject_Z h
            <= inject_Z v * inject_Z h)
      by (apply Qmult_le_compat_r; lra).
    assert ((1 # 1000000000000) * inject_Z h
            <= (1 # 1000000000000) * 2147483647)
      by (apply Qmult_le_nonneg_l; lra).
    lra. }
  apply Zle_of_Qlt_succ in U. apply Zle_of_Qlt_succ in W.
  pose proof (Z.div_mod n h ltac:(lia)) as Dm.
  pose proof (Z.mod_pos_bound n h Hh) as Mb.
  split; [split; nia|].
  intros Hnd.
  assert (Hm : (n mod h <> 0)%Z).
  { intros Hz. apply Hnd. exists (n / h)%Z. lia. }
  nia.
Qed.

End GradientAccuracy.

Lemma clip8_id v : 0 <= v <= 255 -> clip8 v = v.
Proof. unfold clip8. lia. Qed.

(** C3 (as amended): for a width in 1..536870910, a height in
    1..2147483647 (the sizes [Image.new] accepts) and 8-bit colours,
    [create_gradient_background] returns a new RGB bitmap of the requested
    size that depends on its arguments only (so repeated calls give identical
    bitmaps); every pixel of row y holds, per channel,
    int(colorTop * (1 - ratio) + colorBottom * ratio) with ratio = y / height
    evaluated in binary64, which is the exact interpolation truncated to an
    integer wherever that interpolation is no integer, and that integer or
    one less where it is; the top row holds colorTop exactly. *)
Theorem gradient_rows_interpolate width height color1 color2 w :
  0 < width <= 536870910 -> 0 < height <= 2147483647 ->
  valid_colour color1 -> valid_colour color2 ->
  let g := gradient_bitmap width height color1 color2 in
  create_gradient_background width height color1 color2 w
  = (Ok (length (heap w)), {| heap := heap w ++ [g]; trace := trace w |})
  /\ im_mode g = RGB /\ im_width g = width /\ im_height g = height
  /\ (forall x y, 0 <= x < width -> 0 <= y < height ->
        let ratio := true_quotient y height in
        getpixel g x y
        = Some [gradient_channel color1.1.1 color2.1.1 ratio;
                gradient_channel color1.1.2 color2.1.2 ratio;
                gradient_channel color1.2 color2.2 ratio])
  /\ (forall x, 0 <= x < width ->
        getpixel g x 0 = Some [color1.1.1; color1.1.2; color1.2])
  /\ (forall y c1 c2, 0 <= y < height ->
        (c1, c2) ∈ [(color1.1.1, color2.1.1); (color1.1.2, color2.1.2);
                    (color1.2, color2.2)] ->
        let painted := gradient_channel c1 c2 (true_quotient y height) in
        let claimed := spec_gradient_channel c1 c2 y height in
        claimed - 1 <= painted <= claimed
        /\ (~ (height | c1 * (height - y) + c2 * y) -> painted = claimed)).
Proof.
  intros Hw Hh Hc1 Hc2 g.
  destruct color1 as [[r1 g1] b1], color2 as [[r2 g2] b2].
  destruct Hc1 as (Hr1 & Hg1 & Hb1), Hc2 as (Hr2 & Hg2 & Hb2).
  assert (Sg : im_mode g = RGB /\ im_width g = width /\ im_height g = height).
  { unfold g, gradient_bitmap.
    destruct (foldl_paint_row_shape width height (r1, g1, b1) (r2, g2, b2)
                (range 0 height)
                {| im_mode := RGB; im_width := width; im_height := height;
                   im_data := fun _ _ => (0, 0, 0, 0); im_fault := false |})
      as (Sm & Sw & Sh & _).
    auto. }
  destruct Sg as (Sm & Sw & Sh).
  assert (Hpix : forall x y, 0 <= x < width -> 0 <= y < height ->
            let ratio := true_quotient y height in
            getpixel g x y
            = Some [gradient_channel r1 r2 ratio; gradient_channel g1 g2 ratio;
                    gradient_channel b1 b2 ratio]).
  { intros x y Hx Hy ratio. unfold getpixel, in_bounds. rewrite Sm, Sw, Sh.
    destruct (Z.leb_spec 0 x); [|lia]. destruct (Z.ltb_spec x width); [|lia].
    destruct (Z.leb_spec 0 y); [|lia]. destruct (Z.ltb_spec y height); [|lia].
    cbn [andb]. unfold g, gradient_bitmap.
    rewrite foldl_paint_row_data by (try apply range_elem; lia).
    unfold ink_of, gradient_colour. cbn [fst snd bands].
    fold ratio.
    pose proof (true_quotient_unit y height Hy) as Hr. fold ratio in Hr.
    rewrite !clip8_id by (apply gradient_channel_range; assumption).
    reflexivity. }
  split; [apply create_gradient_background_run; lia|].
  split; [assumption|]. split; [assumption|]. split; [assumption|].
  split; [exact Hpix|]. split.
  - intros x Hx. rewrite Hpix by lia. cbn [fst snd].
    now rewrite !gradient_channel_top by lia.
  - intros y c1 c2 Hy Hin. cbn [fst snd] in Hin.
    rewrite !elem_of_cons, elem_of_nil in Hin.
    destruct Hin as [[= -> ->]|[[= -> ->]|[[= -> ->]|[]]]];
      apply gradient_channel_vs_truncation; lia.
Qed.

(** C3, the claim as worded fails.  Between white and white, row 2 of 49
    holds 254 where the interpolation, truncated, is 255: 1 - 2/49 and 2/49
    are rounded to binary64, and the sum of the two products falls just below
    255.  And a width beyond a C int is refused by [Image.new]. *)
Lemma gradient_row_below_the_truncation :
  create_gradient_background 1 49 (255, 255, 255) (255, 255, 255) empty_world
  = (Ok 0%nat,
     {| heap := [gradient_bitmap 1 49 (255, 255, 255) (255, 255, 255)];
        trace := [] |})
  /\ getpixel (gradient_bitmap 1 49 (255, 255, 255) (255, 255, 255)) 0 2
     = Some [254; 254; 254]
  /\ spec_gradient_channel 255 255 2 49 = 255
  /\ (create_gradient_background 2147483648 1 (255, 255, 255)
        (255, 255, 255) empty_world).1 = Raise OverflowError.
Proof.
  split; [apply create_gradient_background_run; lia|].
  split; [vm_compute; reflexivity|].
  split; [vm_compute; reflexivity | reflexivity].
Qed.

(** ** The size [Image.thumbnail] computes *)

Section ThumbnailArithmetic.
Local Open Scope Q_scope.

Lemma fle_spec a b : fle a b = true <-> a <= b.
Proof. apply Qle_bool_iff. Qed.

Lemma fle_false a b : fle a b = false -> b < a.
Proof.
  intros H. apply Qnot_le_lt. intros Hle.
  apply fle_spec in Hle. congruence.
Qed.

(** A number between 0 and 200 is rounded to an integer between 1 and 200
    at most one away, whichever of floor and ceiling the key prefers. *)
Lemma round_aspect_spec number key :
  (forall n, exists k, key n = Ok k) ->
  0 <= number <= 200 ->
  exists v, round_aspect number key = Ok v
            /\ (1 <= v <= 200)%Z
            /\ inject_Z v - 1 <= number <= inject_Z v + 1.
Proof.
  intros Hkey [H0 H200]. unfold round_aspect, math_floor, math_ceil.
  destruct (Hkey (Qfloor number)) as [klo ->].
  destruct (Hkey (Qceiling number)) as [khi ->].
  cbn. eexists. split; [reflexivity|].
  pose proof (Qfloor_le number) as F1. pose proof (Qlt_floor number) as F2.
  pose proof (Qle_ceiling number) as C1. pose proof (Qceiling_lt number) as C2.
  rewrite inject_Z_plus in F2. change (inject_Z 1) with 1 in F2.
  unfold Z.sub in C2. rewrite inject_Z_plus in C2.
  change (inject_Z (- (1))) with (-1) in C2.
  assert (L0 : (0 <= Qfloor number)%Z).
  { change 0%Z with (Qfloor 0). now apply Qfloor_resp_le. }
  assert (L2 : (Qfloor number <= 200)%Z).
  { change 200%Z with (Qfloor 200). now apply Qfloor_resp_le. }
  assert (U0 : (0 <= Qceiling number)%Z).
  { change 0%Z with (Qceiling 0). now apply Qceiling_resp_le. }
  assert (U2 : (Qceiling number <= 200)%Z).
  { change 200%Z with (Qceiling 200). now apply Qceiling_resp_le. }
  destruct (fle klo khi).
  - split; [lia|].
    destruct (Z.max_spec (Qfloor number) 1) as [[Hc ->]|[Hc ->]].
    + assert (Qfloor number = 0)%Z as E0 by lia. rewrite E0 in *.
      change (inject_Z 0) with 0 in *. change (inject_Z 1) with 1. lra.
    + lra.
  - split; [lia|].
    destruct (Z.max_spec (Qceiling number) 1) as [[Hc ->]|[Hc ->]].
    + assert (Qceiling number = 0)%Z as E0 by lia. rewrite E0 in *.
      change (inject_Z 0) with 0 in *. change (inject_Z 1) with 1. lra.
    + lra.
Qed.

Lemma tall_key_total aspect n :
  exists k, (q ← py_truediv n 200; mret (fabs (fsub aspect q))) = Ok k.
Proof. eexists. reflexivity. Qed.

Lemma wide_key_total aspect n :
  exists k, (if (n =? 0)%Z then mret 0
             else q ← py_truediv 200 n; mret (fabs (fsub aspect q))) = Ok k.
Proof.
  destruct (Z.eqb_spec n 0) as [->|Hn]; [eexists; reflexivity|].
  rewrite py_truediv_run by exact Hn. eexists. reflexivity.
Qed.

(** The target size for a 200 x 200 box: the image fits already, or one side
    is 200 and the other is within one pixel of the exact scaled length. *)
Lemma preserve_aspect_ratio_200 w h :
  (0 < w < 2 ^ 31)%Z -> (0 < h < 2 ^ 31)%Z ->
  (preserve_aspect_ratio w h 200 200 = Ok None /\ (w <= 200)%Z /\ (h <= 200)%Z)
  \/ (exists x, preserve_aspect_ratio w h 200 200 = Ok (Some (x, 200%Z))
                /\ (1 <= x <= 200)%Z /\ (Z.abs (x * h - 200 * w) <= h)%Z)
  \/ (exists y, preserve_aspect_ratio w h 200 200 = Ok (Some (200%Z, y))
                /\ (1 <= y <= 200)%Z /\ (Z.abs (200 * h - y * w) <= w)%Z).
Proof.
  intros Hw Hh. unfold preserve_aspect_ratio.
  destruct ((w <=? 200)%Z && (h <=? 200)%Z) eqn:Efit.
  { left. apply andb_true_iff in Efit as [E1 E2].
    apply Z.leb_le in E1, E2. auto. }
  right.
  rewrite !py_truediv_run by lia. cbn [mbind result_bind].
  (* exact quantities *)
  pose proof (inject_Z_pos w ltac:(lia)) as W0.
  pose proof (inject_Z_pos h ltac:(lia)) as H0.
  pose proof (inject_Z_bound w (2 ^ 31) ltac:(lia)) as W1.
  pose proof (inject_Z_bound h (2 ^ 31) ltac:(lia)) as H1.
  change (inject_Z (2 ^ 31)) with 2147483648 in W1, H1.
  set (W := inject_Z w) in *. set (H := inject_Z h) in *.
  assert (ER : (W / H) * H == W) by (field; lra).
  assert (R0 : 0 < W / H) by (apply Qlt_shift_div_l; lra).
  assert (P31 : pow2 (-1022) <= 1 # 2147483648)
    by (apply Qle_bool_imp_le; reflexivity).
  assert (P53 : pow2 (-53) == 1 # 9007199254740992) by reflexivity.
  assert (P45 : pow2 (8 - 53) == 1 # 35184372088832) by reflexivity.
  assert (P8 : pow2 8 == 256) by reflexivity.
  assert (Rn : pow2 (-1022) <= W / H).
  { apply Qle_trans with (1 # 2147483648); [exact P31|].
    apply Qle_shift_div_l; [exact H0|].
    assert (1 <= W) by (unfold W; change 1 with (inject_Z 1); apply inject_Z_bound; lia).
    nra. }
  pose proof (round64_rel_err (W / H) Rn) as [A1 A2].
  pose proof (round64_nonneg (W / H) (Qlt_le_weak _ _ R0)) as A0.
  change (round64 (W / H)) with (true_quotient w h) in A0, A1, A2.
  set (A := true_quotient w h) in *.
  assert (EA1 : A * H >= W - W * pow2 (-53)).
  { assert ((W / H - W / H * pow2 (-53)) * H <= A * H)
      by (apply Qmult_le_compat_r; lra).
    assert ((W / H - W / H * pow2 (-53)) * H == W - W * pow2 (-53))
      by (field; lra).
    lra. }
  assert (EA2 : A * H <= W + W * pow2 (-53)).
  { assert (A * H <= (W / H + W / H * pow2 (-53)) * H)
      by (apply Qmult_le_compat_r; lra).
    assert ((W / H + W / H * pow2 (-53)) * H == W + W * pow2 (-53))
      by (field; lra).
    lra. }
  assert (EB : true_quotient 200 200 == 1).
  { unfold true_quotient. change 1 with (inject_Z 1).
    apply round64_int; [lia | reflexivity]. }
  pose proof (float_of_int_exact 200 ltac:(lia)) as E200.
  change (inject_Z 200) with 200 in E200.
  rewrite P53 in EA1, EA2.
  destruct (fle A (true_quotient 200 200)) eqn:Ecmp.
  - (* the image is at least as tall as the box *)
    left. apply fle_spec in Ecmp. rewrite EB in Ecmp.
    assert (N0 : 0 <= float_of_int 200 * A <= 200).
    { rewrite E200. split; lra. }
    assert (N1 : 0 <= fmul (float_of_int 200) A <= 200).
    { unfold fmul. split; [apply round64_nonneg; lra|].
      apply (round64_le_int _ 200); [lra | | change (inject_Z 200) with 200; lra].
      apply Qle_lt_trans with 200; [lra | reflexivity]. }
    assert (N2 : float_of_int 200 * A - pow2 (8 - 53)
                 <= fmul (float_of_int 200) A
                 <= float_of_int 200 * A + pow2 (8 - 53)).
    { unfold fmul. apply round64_abs_err; [lra | rewrite P8; lra | lia]. }
    set (number := fmul (float_of_int 200) A) in *.
    destruct (round_aspect_spec number _ (tall_key_total A) N1)
      as (x & -> & Hx & X1 & X2).
    exists x. split; [reflexivity|]. split; [exact Hx|].
    rewrite E200, P45 in N2.
    assert (D1 : inject_Z (x * h - 200 * w) < H + 1).
    { unfold Z.sub. rewrite inject_Z_plus, inject_Z_opp, !inject_Z_mult.
      fold W. fold H. change (inject_Z 200) with 200.
      assert ((inject_Z x - 1) * H <= number * H)
        by (apply Qmult_le_compat_r; lra).
      assert (number * H <= (200 * A + (1 # 35184372088832)) * H)
        by (apply Qmult_le_compat_r; lra).
      lra. }
    assert (D2 : - (H + 1) < inject_Z (x * h - 200 * w)).
    { unfold Z.sub. rewrite inject_Z_plus, inject_Z_opp, !inject_Z_mult.
      fold W. fold H. change (inject_Z 200) with 200.
      assert (number * H <= (inject_Z x + 1) * H)
        by (apply Qmult_le_compat_r; lra).
      assert ((200 * A - (1 # 35184372088832)) * H <= number * H)
        by (apply Qmult_le_compat_r; lra).
      lra. }
    assert (x * h - 200 * w < h + 1)%Z.
    { rewrite Zlt_Qlt, inject_Z_plus. exact D1. }
    assert (- (h + 1) < x * h - 200 * w)%Z.
    { rewrite Zlt_Qlt, inject_Z_opp, inject_Z_plus. exact D2. }
    lia.
  - (* the image is wider than the box *)
    right. apply fle_false in Ecmp. rewrite EB in Ecmp.
    unfold fdiv.
    destruct (Qeq_bool A 0) eqn:Ez.
    { apply Qeq_bool_iff in Ez. lra. }
    cbn [mbind result_bind].
    assert (ED : float_of_int 200 / A * A == 200).
    { rewrite E200. field. lra. }
    assert (D0 : 0 < float_of_int 200 / A).
    { apply Qlt_shift_div_l; lra. }
    assert (D200 : float_of_int 200 / A <= 200).
    { apply Qle_shift_div_r; lra. }
    set (D := float_of_int 200 / A) in *.
    assert (N1 : 0 <= round64 D <= 200).
    { split; [apply round64_nonneg; lra|].
      apply (round64_le_int _ 200); [lra | | change (inject_Z 200) with 200; lra].
      apply Qle_lt_trans with 200; [lra | reflexivity]. }
    assert (N2 : D - pow2 (8 - 53) <= round64 D <= D + pow2 (8 - 53)).
    { apply round64_abs_err; [lra | rewrite P8; lra | lia]. }
    set (number := round64 D) in *.
    match goal with
    | |- context [round_aspect number ?key] =>
        destruct (round_aspect_spec number key
                    (wide_key_total A : forall n, exists k, key n = Ok k) N1)
          as (y & -> & Hy & Y1 & Y2)
    end.
    exists y. split; [reflexivity|]. split; [exact Hy|].
    rewrite P45 in N2.
    (* D * W is within 200 * W * 2^-53 of 200 * H *)
    assert (G1 : D * W - D * W * (1 # 9007199254740992) <= 200 * H).
    { assert (D * (W - W * (1 # 9007199254740992)) <= D * (A * H))
        by (apply Qmult_le_l; lra).
      assert (D * (A * H) == 200 * H) by (rewrite Qmult_assoc, ED; reflexivity).
      lra. }
    assert (G2 : 200 * H <= D * W + D * W * (1 # 9007199254740992)).
    { assert (D * (A * H) <= D * (W + W * (1 # 9007199254740992)))
        by (apply Qmult_le_l; lra).
      assert (D * (A * H) == 200 * H) by (rewrite Qmult_assoc, ED; reflexivity).
      lra. }
    assert (G3 : D * W <= 200 * W) by (apply Qmult_le_compat_r; lra).
    assert (G4 : 0 <= D * W) by (apply Qmult_le_0_compat; lra).
    assert (D1 : inject_Z (200 * h - y * w) < W + 1).
    { unfold Z.sub. rewrite inject_Z_plus, inject_Z_opp, !inject_Z_mult.
      fold W. fold H. change (inject_Z 200) with 200.
      assert (number * W <= (inject_Z y + 1) * W)
        by (apply Qmult_le_compat_r; lra).
      assert ((D - (1 # 35184372088832)) * W <= number * W)
        by (apply Qmult_le_compat_r; lra).
      lra. }
    assert (D2 : - (W + 1) < inject_Z (200 * h - y * w)).
    { unfold Z.sub. rewrite inject_Z_plus, inject_Z_opp, !inject_Z_mult.
      fold W. fold H. change (inject_Z 200) with 200.
      assert ((inject_Z y - 1) * W <= number * W)
        by (apply Qmult_le_compat_r; lra).
      assert (number * W <= (D + (1 # 35184372088832)) * W)
        by (apply Qmult_le_compat_r; lra).
      lra. }
    assert (200 * h - y * w < w + 1)%Z.
    { rewrite Zlt_Qlt, inject_Z_plus. exact D1. }
    assert (- (w + 1) < 200 * h - y * w)%Z.
    { rewrite Zlt_Qlt, inject_Z_opp, inject_Z_plus. exact D2. }
    lia.
Qed.

End ThumbnailArithmetic.

(** ** Pillow operations on valid objects *)

Lemma world_eta w : {| heap := heap w; trace := trace w |} = w.
Proof. now destruct w. Qed.

Lemma alloc_run b w :
  alloc b w = (Ok (length (heap w)),
               {| heap := heap w ++ [b]; trace := trace w |}).
Proof. reflexivity. Qed.

Lemma Image_copy_run r b w :
  heap w !! r = Some b -> im_fault b = false ->
  Image_copy r w = (Ok (length (heap w)),
                    {| heap := heap w ++ [b]; trace := trace w |}).
Proof.
  intros H Hf. unfold Image_copy.
  erewrite bind_ok by (apply load_run; eassumption). reflexivity.
Qed.

Lemma Image_convert_run r b to w :
  heap w !! r = Some b -> im_fault b = false ->
  Image_convert r to w
  = (Ok (length (heap w)),
     {| heap := heap w ++ [convert_bitmap to b]; trace := trace w |}).
Proof.
  intros H Hf. unfold Image_convert.
  erewrite bind_ok by (apply load_run; eassumption). reflexivity.
Qed.

Lemma Image_size_run r b w :
  heap w !! r = Some b -> Image_size r w = (Ok (im_width b, im_height b), w).
Proof.
  intros H. unfold Image_size.
  erewrite bind_ok by (apply deref_run; eassumption). reflexivity.
Qed.

Lemma Image_mode_run r b w :
  heap w !! r = Some b -> Image_mode r w = (Ok (im_mode b), w).
Proof.
  intros H. unfold Image_mode.
  erewrite bind_ok by (apply deref_run; eassumption). reflexivity.
Qed.

Lemma Image_thumbnail_run E r b size target w :
  heap w !! r = Some b -> im_fault b = false ->
  preserve_aspect_ratio (im_width b) (im_height b) size.1 size.2 = Ok target ->
  thumbnail_refused b target = false ->
  Image_thumbnail E r size w
  = (Ok tt, {| heap := <[r := thumbnail_of E b target]> (heap w);
               trace := trace w |}).
Proof.
  intros H Hf Ht Hs. unfold Image_thumbnail.
  erewrite bind_ok by (apply deref_run; eassumption).
  erewrite bind_ok by (unfold lift; rewrite Ht; reflexivity).
  destruct target as [new_size|]; cbn [thumbnail_of thumbnail_refused] in *.
  - erewrite bind_ok by (apply load_run; eassumption).
    destruct (bool_decide _).
    + rewrite list_insert_id by exact H. now rewrite world_eta.
    + cbn [negb andb] in Hs. rewrite Hs. now apply mutate_run.
  - rewrite list_insert_id by exact H. now rewrite world_eta.
Qed.

(** A target with positive sides for a source with positive sides is taken. *)
Lemma thumbnail_accepted b target :
  0 < im_width b -> 0 < im_height b ->
  (forall x y, target = Some (x, y) -> 1 <= x /\ 1 <= y) ->
  thumbnail_refused b target = false.
Proof.
  intros Hw Hh Hs. destruct target as [[x y]|]; [|reflexivity].
  destruct (Hs x y eq_refl) as [Hx Hy].
  unfold thumbnail_refused, resize_refused. cbn [fst snd].
  destruct (Z.ltb_spec x 1); [lia|]. destruct (Z.ltb_spec y 1); [lia|].
  destruct (Z.ltb_spec (im_width b) 1); [lia|].
  destruct (Z.ltb_spec (im_height b) 1); [lia|].
  now rewrite andb_false_r.
Qed.

Lemma thumbnail_of_mode E b target :
  im_mode (thumbnail_of E b target) = im_mode b.
Proof.
  destruct target as [sz|]; cbn; [|done]. now destruct (bool_decide _).
Qed.

Lemma thumbnail_of_fault E b target :
  im_fault b = false -> im_fault (thumbnail_of E b target) = false.
Proof.
  intros H. destruct target as [sz|]; cbn; [|done]. now destruct (bool_decide _).
Qed.

(** ** [process_logo] *)

(** What the [try] block of [process_logo] does with a logo that loads. *)
Lemma process_logo_try_run E logo b target w :
  heap w !! logo = Some b -> im_fault b = false -> has_Resampling E = true ->
  preserve_aspect_ratio (im_width b) (im_height b) 200 200 = Ok target ->
  thumbnail_refused b target = false ->
  let t := thumbnail_of E b target in
  process_logo_try E logo 200 w
  = if bool_decide (im_mode b <> RGBA)
    then (Ok (Some (S (length (heap w)))),
          {| heap := heap w ++ [t; convert_bitmap RGBA t]; trace := trace w |})
    else (Ok (Some (length (heap w))),
          {| heap := heap w ++ [t]; trace := trace w |}).
Proof.
  intros H Hf Hr Ht Hs t. unfold process_logo_try.
  erewrite bind_ok by (apply Image_copy_run; eassumption).
  unfold Image_Resampling_LANCZOS. rewrite Hr.
  erewrite bind_ok by reflexivity.
  erewrite bind_ok; cycle 1.
  { eapply Image_thumbnail_run;
      [apply lookup_new | exact Hf | exact Ht | exact Hs]. }
  cbn [heap trace]. rewrite insert_new. fold t.
  erewrite bind_ok; cycle 1.
  { apply Image_mode_run. cbn [heap]. apply lookup_new. }
  rewrite (bool_decide_ext (im_mode t <> RGBA) (im_mode b <> RGBA))
    by (unfold t; now rewrite thumbnail_of_mode).
  destruct (bool_decide (im_mode b <> RGBA)); [|reflexivity].
  erewrite bind_ok; cycle 1.
  { apply Image_convert_run; cbn [heap];
      [apply lookup_new | now apply thumbnail_of_fault]. }
  cbn [heap trace length]. rewrite length_app. cbn [length].
  rewrite <- app_assoc. cbn [app].
  replace (length (heap w) + 1)%nat with (S (length (heap w))) by lia.
  reflexivity.
Qed.

Lemma preserve_aspect_ratio_fits width height x y :
  width <= x -> height <= y ->
  preserve_aspect_ratio width height x y = Ok None.
Proof.
  intros Hx Hy. unfold preserve_aspect_ratio.
  destruct (Z.leb_spec width x); [|lia].
  destruct (Z.leb_spec height y); [|lia]. reflexivity.
Qed.

Lemma as_RGBA_shape b :
  im_mode (as_RGBA b) = RGBA /\ im_width (as_RGBA b) = im_width b
  /\ im_height (as_RGBA b) = im_height b.
Proof.
  unfold as_RGBA. destruct (bool_decide (im_mode b <> RGBA)) eqn:Em; [done|].
  apply bool_decide_eq_false in Em.
  destruct (decide (im_mode b = RGBA)); [done | contradiction].
Qed.

(** C5: a logo that loads, with positive sides (below 2^31, as Pillow keeps
    them), is turned by [process_logo] with max_size 200 into a new bitmap,
    the input left as it was: the input itself in RGBA when both its sides
    are at most 200, and otherwise the RGBA form of its Lanczos resampling to
    a size with one side exactly 200 and the other in 1..200, within one
    pixel of the exact scaled length.  So both sides of the result are at
    most 200 and its proportions are the input's up to that rounding. *)
Theorem processed_logo_is_bounded E logo b w :
  heap w !! logo = Some b -> im_fault b = false -> has_Resampling E = true ->
  0 < im_width b < 2 ^ 31 -> 0 < im_height b < 2 ^ 31 ->
  exists r target w',
    process_logo E (Some logo) 200 w = (Ok (Some r), w')
    /\ (length (heap w) <= r)%nat
    /\ (forall k, (k < length (heap w))%nat -> heap w' !! k = heap w !! k)
    /\ preserve_aspect_ratio (im_width b) (im_height b) 200 200 = Ok target
    /\ heap w' !! r = Some (as_RGBA (thumbnail_of E b target))
    /\ match target with
       | None =>
           thumbnail_of E b target = b
           /\ im_width b <= 200 /\ im_height b <= 200
       | Some (x, y) =>
           thumbnail_of E b target
           = {| im_mode := im_mode b; im_width := x; im_height := y;
                im_data := lanczos E b x y; im_fault := false |}
           /\ (200 < im_width b \/ 200 < im_height b)
           /\ ((y = 200 /\ 1 <= x <= 200
                /\ Z.abs (x * im_height b - 200 * im_width b) <= im_height b)
               \/ (x = 200 /\ 1 <= y <= 200
                   /\ Z.abs (200 * im_height b - y * im_width b)
                      <= im_width b))
       end
    /\ (let p := as_RGBA (thumbnail_of E b target) in
        im_mode p = RGBA
        /\ 1 <= im_width p <= 200 /\ 1 <= im_height p <= 200
        /\ Z.abs (im_width p * im_height b - im_height p * im_width b)
           <= Z.max (im_width b) (im_height b)).
Proof.
  intros H Hf Hr Hw Hh.
  assert (Hbig : forall x y,
    preserve_aspect_ratio (im_width b) (im_height b) 200 200 = Ok (Some (x, y)) ->
    200 < im_width b \/ 200 < im_height b).
  { intros x y Ht. destruct (Z_le_gt_dec (im_width b) 200); [|lia].
    destruct (Z_le_gt_dec (im_height b) 200); [|lia].
    rewrite preserve_aspect_ratio_fits in Ht by assumption. discriminate. }
  assert (Hrun : forall target,
    preserve_aspect_ratio (im_width b) (im_height b) 200 200 = Ok target ->
    (forall x y, target = Some (x, y) -> 1 <= x /\ 1 <= y) ->
    exists r w',
      process_logo E (Some logo) 200 w = (Ok (Some r), w')
      /\ (length (heap w) <= r)%nat
      /\ (forall k, (k < length (heap w))%nat -> heap w' !! k = heap w !! k)
      /\ heap w' !! r = Some (as_RGBA (thumbnail_of E b target))).
  { intros target Ht Hs.
    assert (Ha : thumbnail_refused b target = false)
      by (apply thumbnail_accepted; [lia | lia | exact Hs]).
    unfold process_logo, try_except.
    rewrite (process_logo_try_run E logo b target w H Hf Hr Ht Ha).
    unfold as_RGBA.
    rewrite (bool_decide_ext (im_mode (thumbnail_of E b target) <> RGBA)
               (im_mode b <> RGBA)) by (now rewrite thumbnail_of_mode).
    set (t := thumbnail_of E b target).
    destruct (bool_decide (im_mode b <> RGBA)).
    - do 2 eexists. split; [reflexivity|]. split; [lia|]. cbn [heap]. split.
      + intros k Hk. now apply lookup_app_l.
      + replace (heap w ++ [t; convert_bitmap RGBA t])
          with ((heap w ++ [t]) ++ [convert_bitmap RGBA t])
          by (now rewrite <- app_assoc).
        replace (S (length (heap w))) with (length (heap w ++ [t]))
          by (rewrite length_app; cbn; lia).
        apply lookup_new.
    - do 2 eexists. split; [reflexivity|]. split; [lia|]. cbn [heap]. split.
      + intros k Hk. now apply lookup_app_l.
      + apply lookup_new. }
  assert (Hres : forall x y,
    200 < im_width b \/ 200 < im_height b -> x <= 200 -> y <= 200 ->
    thumbnail_of E b (Some (x, y))
    = {| im_mode := im_mode b; im_width := x; im_height := y;
         im_data := lanczos E b x y; im_fault := false |}).
  { intros x y Hb Hx Hy. cbn [thumbnail_of].
    destruct (bool_decide _) eqn:Esame; [|reflexivity].
    apply bool_decide_eq_true in Esame. inversion Esame. lia. }
  destruct (preserve_aspect_ratio_200 (im_width b) (im_height b) Hw Hh)
    as [(Ht & F1 & F2)|[(x & Ht & Hx & Tol)|(y & Ht & Hy & Tol)]].
  - destruct (Hrun _ Ht) as (r & w' & Erun & Hfresh & Hold & Hp);
      [discriminate|].
    exists r, None, w'. do 5 (split; [assumption|]).
    split; [now split|].
    destruct (as_RGBA_shape (thumbnail_of E b None)) as (Sm & Sw & Sh).
    cbv zeta. rewrite Sw, Sh. cbn [thumbnail_of].
    split; [exact Sm|]. split; [lia|]. split; lia.
  - destruct (Hrun _ Ht) as (r & w' & Erun & Hfresh & Hold & Hp);
      [intros ? ? [= <- <-]; lia|].
    pose proof (Hbig _ _ Ht) as Hb.
    exists r, (Some (x, 200)), w'. do 5 (split; [assumption|]).
    split.
    { split; [apply Hres; lia|]. split; [exact Hb|]. left. split; [done|].
      split; assumption. }
    destruct (as_RGBA_shape (thumbnail_of E b (Some (x, 200))))
      as (Sm & Sw & Sh).
    cbv zeta. split; [exact Sm|].
    rewrite Sw, Sh, Hres by lia. cbn [im_width im_height].
    split; [lia|]. split; lia.
  - destruct (Hrun _ Ht) as (r & w' & Erun & Hfresh & Hold & Hp);
      [intros ? ? [= <- <-]; lia|].
    pose proof (Hbig _ _ Ht) as Hb.
    exists r, (Some (200, y)), w'. do 5 (split; [assumption|]).
    split.
    { split; [apply Hres; lia|]. split; [exact Hb|]. right. split; [done|].
      split; assumption. }
    destruct (as_RGBA_shape (thumbnail_of E b (Some (200, y))))
      as (Sm & Sw & Sh).
    cbv zeta. split; [exact Sm|].
    rewrite Sw, Sh, Hres by lia. cbn [im_width im_height].
    split; [lia|]. split; lia.
Qed.

(** C6: [process_logo] returns absent when no logo is supplied; it never
    raises: whatever fault its [try] block ends in, it returns absent; and
    [apply_text_layout] with an absent logo is the layout with the logo-paste
    step left out. *)
Theorem absent_or_faulty_logo_is_skipped E max_size :
  (forall w, process_logo E None max_size w = (Ok None, w))
  /\ (forall logo w, exists o w',
        process_logo E logo max_size w = (Ok o, w'))
  /\ (forall logo w e w',
        process_logo_try E logo max_size w = (Raise e, w') ->
        process_logo E (Some logo) max_size w = (Ok None, w'))
  /\ (forall image subtitle details,
        apply_text_layout E image subtitle details None
        = text_layout E (fun _ _ => mret tt) image subtitle details).
Proof.
  split; [reflexivity|]. split; [|split; [|reflexivity]].
  - intros [logo|] w; [|by eexists _, _].
    unfold process_logo, try_except.
    destruct (process_logo_try E logo max_size w) as [[o|e] w'];
      by eexists _, _.
  - intros logo w e w' H. unfold process_logo, try_except. now rewrite H.
Qed.

(** A logo of height 0 wider than the box: the aspect ratio divides by zero
    inside [Image.thumbnail], and the logo is dropped. *)
Example flat_logo_is_dropped :
  let w := {| heap := [solid RGBA 300 0 (0, 0, 0, 0)]; trace := [] |} in
  (process_logo_try sample_env 0%nat 200 w).1 = Raise ZeroDivisionError
  /\ (process_logo sample_env (Some 0%nat) 200 w).1 = Ok None.
Proof. split; reflexivity. Qed.

(** A logo without pixels (0 x 300), and a box of negative size: the resize
    inside [Image.thumbnail] is refused, and the logo is dropped. *)
Example empty_logo_is_dropped :
  let w := {| heap := [solid RGBA 0 300 (0, 0, 0, 0)]; trace := [] |} in
  (process_logo_try sample_env 0%nat 200 w).1 = Raise ValueError
  /\ (process_logo sample_env (Some 0%nat) 200 w).1 = Ok None
  /\ (process_logo_try sample_env 2%nat (-5) sample_world).1
     = Raise ValueError
  /\ (process_logo sample_env (Some 2%nat) (-5) sample_world).1 = Ok None.
Proof. vm_compute. repeat split. Qed.

(** ** Objects a computation leaves alone *)

Lemma frame_refl n w : frame n w w.
Proof. split; [lia | done]. Qed.

Lemma frame_trans n w1 w2 w3 : frame n w1 w2 -> frame n w2 w3 -> frame n w1 w3.
Proof.
  intros [L1 F1] [L2 F2]. split; [lia|].
  intros r Hr. now rewrite F2, F1.
Qed.

Lemma keeps_ret {A} n (a : A) (Q : A -> Prop) : Q a -> keeps n (mret a) Q.
Proof.
  intros H w _. split; [apply frame_refl|].
  intros a' Ha. now inversion Ha; subst.
Qed.

Lemma keeps_raise {A} n e (Q : A -> Prop) : keeps n (raise e) Q.
Proof. intros w _. split; [apply frame_refl | discriminate]. Qed.

Lemma keeps_lift {A} n (r : result A) : keeps n (lift r) (fun _ => True).
Proof. intros w _. split; [apply frame_refl | done]. Qed.

Lemma keeps_weaken {A} n (m : M A) (Q Q' : A -> Prop) :
  keeps n m Q -> (forall a, Q a -> Q' a) -> keeps n m Q'.
Proof.
  intros H HQ w Hn. destruct (H w Hn) as [F P]. split; [exact F|].
  intros a Ha. apply HQ, P, Ha.
Qed.

Lemma keeps_bind {A B} n (m : M A) (f : A -> M B) Q R :
  keeps n m Q -> (forall a, Q a -> keeps n (f a) R) -> keeps n (m ≫= f) R.
Proof.
  intros Hm Hf w Hn. destruct (Hm w Hn) as [F P].
  unfold mbind, M_bind. destruct (m w) as [[a|e] w'] eqn:E; cbn [fst snd] in *.
  - destruct (Hf a (P a eq_refl) w') as [F' P'].
    { destruct F. lia. }
    split; [eapply frame_trans; eassumption | exact P'].
  - split; [exact F | discriminate].
Qed.

Lemma keeps_try {A} n (body : M A) catches handler Q :
  keeps n body Q -> (forall e, keeps n (handler e) Q) ->
  keeps n (try_except body catches handler) Q.
Proof.
  intros Hb Hh w Hn. destruct (Hb w Hn) as [F P].
  unfold try_except. destruct (body w) as [[a|e] w'] eqn:E; cbn [fst snd] in *.
  - split; [exact F | exact P].
  - destruct (catches e); [|split; [exact F | discriminate]].
    destruct (Hh e w') as [F' P'].
    { destruct F. lia. }
    split; [eapply frame_trans; eassumption | exact P'].
Qed.

Lemma keeps_for_each {A} n (xs : list A) (body : A -> M unit) :
  (forall x, keeps n (body x) (fun _ => True)) ->
  keeps n (for_each xs body) (fun _ => True).
Proof.
  intros H. induction xs as [|x xs IH]; cbn [for_each].
  - now apply keeps_ret.
  - eapply keeps_bind; [apply H | intros _ _; exact IH].
Qed.

Lemma keeps_alloc n b : keeps n (alloc b) (fun r => (n <= r)%nat).
Proof.
  intros w Hn. cbn. split.
  - split; cbn; [rewrite length_app; lia|].
    intros r Hr. apply lookup_app_l. lia.
  - intros a Ha. inversion Ha. lia.
Qed.

Lemma keeps_deref n r : keeps n (deref r) (fun _ => True).
Proof.
  intros w _. unfold deref. destruct (heap w !! r); (split; [apply frame_refl | done]).
Qed.

Lemma keeps_load n r : keeps n (load r) (fun _ => True).
Proof.
  eapply keeps_bind; [apply keeps_deref|]. intros b _.
  destruct (im_fault b); [apply keeps_raise | now apply keeps_ret].
Qed.

Lemma frame_alter n r f w :
  (n <= r)%nat ->
  frame n w {| heap := alter f r (heap w); trace := trace w |}.
Proof.
  intros Hr. split; cbn; [now rewrite length_alter|].
  intros r' Hr'. apply list_lookup_alter_ne. lia.
Qed.

Lemma keeps_mutate n r f :
  (n <= r)%nat -> keeps n (mutate r f) (fun _ => True).
Proof. intros Hr w _. split; [now apply frame_alter | done]. Qed.

Lemma keeps_draw_text n E draw x y text font fill :
  (n <= draw)%nat -> keeps n (draw_text E draw x y text font fill) (fun _ => True).
Proof.
  intros Hr w _. split; [|done]. cbn. split; cbn; [now rewrite length_alter|].
  intros r' Hr'. apply list_lookup_alter_ne. lia.
Qed.

Create HintDb keeps discriminated.

#[local] Hint Resolve keeps_raise keeps_lift keeps_alloc keeps_deref keeps_load
  keeps_mutate keeps_draw_text : keeps.

(** Splits a sequence at its first step; the continuation's goal follows. *)
Ltac keeps_step :=
  lazymatch goal with
  | |- keeps _ (_ ≫= _) _ => eapply keeps_bind; [|intros ? ?]
  | |- keeps _ (mret _) _ => apply keeps_ret
  | |- keeps _ (if ?c then _ else _) _ => destruct c
  | |- keeps _ (match ?x with _ => _ end) _ => destruct x
  end.

Lemma keeps_Image_new n m size colour :
  keeps n (Image_new m size colour) (fun r => (n <= r)%nat).
Proof.
  unfold Image_new. destruct size as [w h].
  destruct (_ || _); [auto with keeps|].
  destruct (_ || _); [auto with keeps|].
  destruct (_ <? _); auto with keeps.
Qed.

Lemma keeps_Image_copy n r : keeps n (Image_copy r) (fun r' => (n <= r')%nat).
Proof. unfold Image_copy. keeps_step; auto with keeps. Qed.

Lemma keeps_Image_convert n r to :
  keeps n (Image_convert r to) (fun r' => (n <= r')%nat).
Proof. unfold Image_convert. keeps_step; auto with keeps. Qed.

Lemma keeps_Image_size n r : keeps n (Image_size r) (fun _ => True).
Proof. unfold Image_size. keeps_step; [auto with keeps|]. now keeps_step. Qed.

Lemma keeps_Image_mode n r : keeps n (Image_mode r) (fun _ => True).
Proof. unfold Image_mode. keeps_step; [auto with keeps|]. now keeps_step. Qed.

Lemma keeps_Image_alpha_composite n r1 r2 :
  keeps n (Image_alpha_composite r1 r2) (fun r' => (n <= r')%nat).
Proof.
  unfold Image_alpha_composite.
  keeps_step; [auto with keeps|]. keeps_step; [auto with keeps|].
  keeps_step; auto with keeps.
Qed.

Lemma keeps_Image_paste n dst src pos mask :
  (n <= dst)%nat -> keeps n (Image_paste dst src pos mask) (fun _ => True).
Proof.
  intros Hd. unfold Image_paste. destruct pos as [x0 y0].
  keeps_step; [auto with keeps|]. keeps_step; [auto with keeps|].
  keeps_step; [auto with keeps|].
  keeps_step; [auto with keeps|]. keeps_step; auto with keeps.
Qed.

Lemma keeps_Image_thumbnail n E r size :
  (n <= r)%nat -> keeps n (Image_thumbnail E r size) (fun _ => True).
Proof.
  intros Hr. unfold Image_thumbnail.
  keeps_step; [auto with keeps|]. keeps_step; [auto with keeps|].
  keeps_step; [|now keeps_step].
  keeps_step; [auto with keeps|].
  keeps_step; [now keeps_step|].
  keeps_step; auto with keeps.
Qed.

Lemma keeps_ImageDraw_Draw n r :
  (n <= r)%nat -> keeps n (ImageDraw_Draw r) (fun r' => (n <= r')%nat).
Proof.
  intros Hr. unfold ImageDraw_Draw. keeps_step; [auto with keeps|].
  now keeps_step.
Qed.

Lemma keeps_get_font n E size : keeps n (get_font E size) (fun _ => True).
Proof.
  unfold get_font. apply keeps_try.
  - unfold ImageFont_truetype. destruct (truetype E size);
      [apply keeps_raise | now apply keeps_ret].
  - intros _. now apply keeps_ret.
Qed.

Lemma frame_emit n E calls w :
  Forall (fun c => (n <= tc_target c)%nat) calls -> frame n w (emit E calls w).
Proof.
  intros H. revert w. induction H as [|c calls Hc _ IH]; intros w.
  - rewrite emit_nil. apply frame_refl.
  - change (c :: calls) with ([c] ++ calls). rewrite emit_app.
    eapply frame_trans; [|apply IH].
    split; cbn; [now rewrite length_alter|].
    intros r Hr. apply list_lookup_alter_ne. lia.
Qed.

Lemma keeps_draw_text_with_outline n E draw text x y font fill outline center :
  (n <= draw)%nat ->
  keeps n (draw_text_with_outline E draw text x y font fill outline center)
    (fun _ => True).
Proof.
  intros Hd w Hn. rewrite draw_text_with_outline_run. cbn [fst snd].
  split; [|done]. apply frame_emit. unfold outlined_calls.
  apply Forall_app. split.
  - apply Forall_fmap, Forall_true. intros d. exact Hd.
  - repeat constructor. exact Hd.
Qed.

Lemma keeps_detail_lines_loop n E draw lines width y_pos font size :
  (n <= draw)%nat ->
  keeps n (detail_lines_loop E draw lines width y_pos font size) (fun _ => True).
Proof.
  intros Hd. revert y_pos. induction lines as [|line rest IH]; intros y_pos;
    cbn [detail_lines_loop].
  - now apply keeps_ret.
  - eapply keeps_bind; [now apply keeps_draw_text_with_outline|].
    intros _ _. apply IH.
Qed.

Lemma keeps_logo_step n logo poster width :
  (n <= poster)%nat -> keeps n (logo_step logo poster width) (fun _ => True).
Proof.
  intros Hp. unfold logo_step. destruct logo as [l|]; [|now apply keeps_ret].
  eapply keeps_bind; [apply keeps_Image_size|].
  intros sz _. now apply keeps_Image_paste.
Qed.

Lemma keeps_text_layout n E paste_logo image subtitle details :
  (forall poster width, (n <= poster)%nat ->
     keeps n (paste_logo poster width) (fun _ => True)) ->
  keeps n (text_layout E paste_logo image subtitle details)
    (fun r => (n <= r)%nat).
Proof.
  intros Hpaste. unfold text_layout.
  eapply keeps_bind; [apply keeps_Image_copy|]. intros copy Hcopy.
  eapply keeps_bind; [apply keeps_Image_convert|]. intros poster Hposter.
  eapply keeps_bind; [apply keeps_Image_size|]. intros [width height] _.
  eapply keeps_bind; [apply keeps_Image_new|]. intros overlay Hoverlay.
  eapply keeps_bind; [now apply keeps_ImageDraw_Draw|]. intros draw Hdraw.
  eapply keeps_bind; [apply keeps_Image_new|]. intros color_overlay _.
  eapply keeps_bind; [apply keeps_Image_alpha_composite|]. intros poster' Hposter'.
  eapply keeps_bind; [apply keeps_get_font|]. intros subtitle_font _.
  eapply keeps_bind; [apply keeps_get_font|]. intros details_font _.
  eapply keeps_bind with (Q := fun _ => True).
  { destruct (truthy subtitle); [|now apply keeps_ret].
    eapply keeps_bind; [now apply keeps_draw_text_with_outline|].
    intros _ _. now apply keeps_ret. }
  intros y_pos _.
  eapply keeps_bind with (Q := fun _ => True).
  { destruct (truthy details); [|now apply keeps_ret].
    now apply keeps_detail_lines_loop. }
  intros _ _.
  eapply keeps_bind; [now apply Hpaste|]. intros _ _.
  eapply keeps_bind; [apply keeps_Image_alpha_composite|]. intros final _.
  apply keeps_Image_convert.
Qed.

Lemma keeps_apply_text_layout n E image subtitle details logo :
  keeps n (apply_text_layout E image subtitle details logo)
    (fun r => (n <= r)%nat).
Proof.
  apply keeps_text_layout. intros poster width Hp. now apply keeps_logo_step.
Qed.

Lemma keeps_process_logo n E logo max_size :
  keeps n (process_logo E logo max_size)
    (fun o => forall r, o = Some r -> (n <= r)%nat).
Proof.
  unfold process_logo. destruct logo as [logo|]; [|now apply keeps_ret].
  apply keeps_try; [|intros _; now apply keeps_ret].
  unfold process_logo_try.
  eapply keeps_bind; [apply keeps_Image_copy|]. intros copy Hcopy.
  eapply keeps_bind with (Q := fun _ => True).
  { unfold Image_Resampling_LANCZOS.
    destruct (has_Resampling E); [now apply keeps_ret | apply keeps_raise]. }
  intros _ _.
  eapply keeps_bind; [now apply keeps_Image_thumbnail|]. intros _ _.
  eapply keeps_bind; [apply keeps_Image_mode|]. intros m _.
  destruct (bool_decide (m <> RGBA)).
  - eapply keeps_bind; [apply keeps_Image_convert|]. intros r Hr.
    apply keeps_ret. intros r' [= <-]. exact Hr.
  - apply keeps_ret. intros r' [= <-]. exact Hcopy.
Qed.

(** C9: [apply_text_layout] and [process_logo] change no object that exists
    when they are called, whether they return or raise: the background and
    the logo they are given are afterwards what they were, and the bitmap
    they hand back is a new object. *)
Theorem inputs_are_never_mutated E w :
  (forall image subtitle details logo,
     let run := apply_text_layout E image subtitle details logo w in
     (forall r, (r < length (heap w))%nat -> heap run.2 !! r = heap w !! r)
     /\ (forall b, heap w !! image = Some b -> heap run.2 !! image = Some b)
     /\ (forall l b, logo = Some l -> heap w !! l = Some b ->
           heap run.2 !! l = Some b)
     /\ (forall r, run.1 = Ok r -> (length (heap w) <= r)%nat))
  /\ (forall logo max_size,
        let run := process_logo E logo max_size w in
        (forall r, (r < length (heap w))%nat -> heap run.2 !! r = heap w !! r)
        /\ (forall l b, logo = Some l -> heap w !! l = Some b ->
              heap run.2 !! l = Some b)
        /\ (forall r, run.1 = Ok (Some r) -> (length (heap w) <= r)%nat)).
Proof.
  split.
  - intros image subtitle details logo run.
    destruct (keeps_apply_text_layout (length (heap w)) E image subtitle
                details logo w (le_n _)) as [[_ F] P].
    fold run in F, P.
    split; [exact F|]. split; [|split; [|exact P]].
    + intros b Hb. rewrite F; [exact Hb | eapply lookup_lt_Some, Hb].
    + intros l b _ Hb. rewrite F; [exact Hb | eapply lookup_lt_Some, Hb].
  - intros logo max_size run.
    destruct (keeps_process_logo (length (heap w)) E logo max_size w (le_n _))
      as [[_ F] P].
    fold run in F, P.
    split; [exact F|]. split.
    + intros l b _ Hb. rewrite F; [exact Hb | eapply lookup_lt_Some, Hb].
    + intros r Hr. eapply P; [exact Hr | reflexivity].
Qed.

(** ** The sizes of the layout are integer fractions *)

Section LayoutArithmetic.
Local Open Scope Q_scope.

(** A value just below an integer, by less than a quarter of its unit in the
    last place, rounds up to that integer. *)
Lemma round64_up_to_int q n :
  0 < q -> q < pow2 53 -> q <= inject_Z n ->
  inject_Z n - q <= q * pow2 (-54) ->
  round64 q == inject_Z n.
Proof.
  intros Hp Hlt Hn Hnear.
  rewrite (round64_pos_eq q Hp).
  pose proof (ulp_exp_small q Hp Hlt) as Hu.
  destruct (ilog2_spec q Hp) as [_ L2].
  set (e := ulp_exp q) in *.
  pose proof (pow2_pos e) as Hpos. pose proof (pow2_pos (- e)) as Hpos'.
  assert (Hinv : pow2 (- e) * pow2 e == 1).
  { rewrite <- pow2_add. replace (- e + e)%Z with 0%Z by lia. reflexivity. }
  set (x := q / pow2 e) in *.
  assert (Hdiv : x == q * pow2 (- e)).
  { unfold x, Qdiv. now rewrite pow2_opp. }
  assert (Hhalf : q * pow2 (-54) < pow2 e * (1 # 2)).
  { assert (A : pow2 (ilog2 q + 1) * pow2 (-54) == pow2 (ilog2 q - 52) * (1 # 2)).
    { rewrite <- pow2_add.
      replace (ilog2 q + 1 + -54)%Z with (ilog2 q - 52 + -1)%Z by lia.
      rewrite pow2_add. reflexivity. }
    assert (B : pow2 (ilog2 q - 52) <= pow2 e)
      by (apply pow2_le; unfold e, ulp_exp; lia).
    pose proof (pow2_pos (-54)) as H54.
    assert (C : q * pow2 (-54) < pow2 (ilog2 q + 1) * pow2 (-54))
      by (apply Qmult_lt_compat_r; assumption).
    lra. }
  assert (Hm : round_half_even x = (n * 2 ^ (- e))%Z).
  { apply Z.le_antisymm.
    - apply round_half_even_le_int. rewrite inject_Z_mult, <- pow2_Z by lia.
      assert (q * pow2 (- e) <= inject_Z n * pow2 (- e))
        by (apply Qmult_le_compat_r; lra).
      lra.
    - apply Zle_of_Qlt.
      pose proof (round_half_even_err x) as [E1 _].
      rewrite inject_Z_mult, <- pow2_Z by lia.
      assert (D : (inject_Z n - q) * pow2 (- e) < pow2 e * (1 # 2) * pow2 (- e))
        by (apply Qmult_lt_compat_r; lra).
      assert (D' : pow2 e * (1 # 2) * pow2 (- e) == 1 # 2).
      { rewrite (Qmult_comm (pow2 e)), <- Qmult_assoc, (Qmult_comm (pow2 e)), Hinv.
        reflexivity. }
      rewrite D' in D. lra. }
  rewrite Hm, inject_Z_mult, <- pow2_Z by lia.
  rewrite <- Qmult_assoc, Hinv. ring.
Qed.

Lemma Qfloor_between t m :
  inject_Z m <= t -> t < inject_Z m + 1 -> Qfloor t = m.
Proof.
  intros H1 H2. apply Z.le_antisymm.
  - apply Zle_of_Qlt_succ. pose proof (Qfloor_le t). lra.
  - rewrite <- (Qfloor_Z m). now apply Qfloor_resp_le.
Qed.

(** The float product truncates to [m] when its exact value lies between
    [m] and [m + 9/10]. *)
Lemma py_int_round64_floor q m :
  (0 <= m)%Z -> inject_Z m <= q -> q <= inject_Z m + (9 # 10) ->
  q <= pow2 32 -> py_int (round64 q) = m.
Proof.
  intros Hm H1 H2 H32.
  assert (M0 : 0 <= inject_Z m)
    by (change 0 with (inject_Z 0); rewrite <- Zle_Qle; lia).
  assert (P32 : pow2 32 == 4294967296) by reflexivity.
  assert (P53 : pow2 53 == 9007199254740992) by reflexivity.
  assert (Pe : pow2 (32 - 53) == 1 # 2097152) by reflexivity.
  assert (Hq : 0 <= q) by lra.
  pose proof (round64_ge_int q m Hq ltac:(lra) H1) as G.
  pose proof (round64_abs_err q 32 Hq H32 ltac:(lia)) as [_ U].
  rewrite Pe in U.
  rewrite py_int_nonneg by lra.
  apply Qfloor_between; lra.
Qed.

Lemma scaled_0_5 n : (0 <= n < 2 ^ 31)%Z -> scaled n lit_0_5 = (n / 2)%Z.
Proof.
  intros Hn. unfold scaled, fmul.
  pose proof (float_of_int_exact n ltac:(lia)) as E.
  assert (L : lit_0_5 == 1 # 2) by reflexivity.
  assert (N31 : inject_Z n <= 2147483648).
  { change 2147483648 with (inject_Z (2 ^ 31)). rewrite <- Zle_Qle. lia. }
  assert (N0 : 0 <= inject_Z n)
    by (change 0 with (inject_Z 0); rewrite <- Zle_Qle; lia).
  assert (P32 : pow2 32 == 4294967296) by reflexivity.
  pose proof (Z.div_mod n 2 ltac:(lia)) as Hd.
  pose proof (Z.mod_pos_bound n 2 ltac:(lia)) as Hr.
  set (m := (n / 2)%Z) in *.
  assert (A : inject_Z (2 * m) <= inject_Z n) by (rewrite <- Zle_Qle; lia).
  assert (B : inject_Z n <= inject_Z (2 * m + 1)) by (rewrite <- Zle_Qle; lia).
  rewrite inject_Z_plus, inject_Z_mult in B. rewrite inject_Z_mult in A.
  change (inject_Z 2) with 2 in A, B. change (inject_Z 1) with 1 in B.
  apply py_int_round64_floor; [lia | rewrite E, L; lra ..].
Qed.

Lemma scaled_1_5 n : (0 <= n < 2 ^ 31)%Z -> scaled n lit_1_5 = (3 * n / 2)%Z.
Proof.
  intros Hn. unfold scaled, fmul.
  pose proof (float_of_int_exact n ltac:(lia)) as E.
  assert (L : lit_1_5 == 3 # 2) by reflexivity.
  assert (N31 : inject_Z n <= 2147483648).
  { change 2147483648 with (inject_Z (2 ^ 31)). rewrite <- Zle_Qle. lia. }
  assert (N0 : 0 <= inject_Z n)
    by (change 0 with (inject_Z 0); rewrite <- Zle_Qle; lia).
  assert (P32 : pow2 32 == 4294967296) by reflexivity.
  pose proof (Z.div_mod (3 * n) 2 ltac:(lia)) as Hd.
  pose proof (Z.mod_pos_bound (3 * n) 2 ltac:(lia)) as Hr.
  set (m := (3 * n / 2)%Z) in *.
  assert (A : inject_Z (2 * m) <= inject_Z (3 * n)) by (rewrite <- Zle_Qle; lia).
  assert (B : inject_Z (3 * n) <= inject_Z (2 * m + 1)) by (rewrite <- Zle_Qle; lia).
  rewrite inject_Z_plus, !inject_Z_mult in B. rewrite !inject_Z_mult in A.
  change (inject_Z 2) with 2 in A, B. change (inject_Z 3) with 3 in A, B.
  change (inject_Z 1) with 1 in B.
  apply py_int_round64_floor; [lia | rewrite E, L; lra ..].
Qed.

Lemma scaled_0_8 n : (0 <= n < 2 ^ 31)%Z -> scaled n lit_0_8 = (4 * n / 5)%Z.
Proof.
  intros Hn. unfold scaled, fmul.
  pose proof (float_of_int_exact n ltac:(lia)) as E.
  assert (L1 : 4 # 5 <= lit_0_8) by (apply Qle_bool_imp_le; reflexivity).
  assert (L2 : lit_0_8 <= (4 # 5) + (1 # 10000000000000000))
    by (apply Qle_bool_imp_le; reflexivity).
  assert (N31 : inject_Z n <= 2147483648).
  { change 2147483648 with (inject_Z (2 ^ 31)). rewrite <- Zle_Qle. lia. }
  assert (N0 : 0 <= inject_Z n)
    by (change 0 with (inject_Z 0); rewrite <- Zle_Qle; lia).
  assert (P32 : pow2 32 == 4294967296) by reflexivity.
  pose proof (Z.div_mod (4 * n) 5 ltac:(lia)) as Hd.
  pose proof (Z.mod_pos_bound (4 * n) 5 ltac:(lia)) as Hr.
  set (m := (4 * n / 5)%Z) in *.
  assert (A : inject_Z (5 * m) <= inject_Z (4 * n)) by (rewrite <- Zle_Qle; lia).
  assert (B : inject_Z (4 * n) <= inject_Z (5 * m + 4)) by (rewrite <- Zle_Qle; lia).
  rewrite inject_Z_plus, !inject_Z_mult in B. rewrite !inject_Z_mult in A.
  change (inject_Z 5) with 5 in A, B. change (inject_Z 4) with 4 in A, B.
  assert (K1 : inject_Z n * (4 # 5) <= inject_Z n * lit_0_8)
    by (apply Qmult_le_nonneg_l; lra).
  assert (K2 : inject_Z n * lit_0_8
               <= inject_Z n * ((4 # 5) + (1 # 10000000000000000)))
    by (apply Qmult_le_nonneg_l; lra).
  apply py_int_round64_floor; [lia | rewrite E; lra ..].
Qed.

(** 1.2 is the one factor whose binary64 value lies below the decimal: the
    product with a multiple of 5 falls just short of an integer, and rounds
    up to it. *)
Lemma scaled_1_2 n : (0 <= n < 2 ^ 31)%Z -> scaled n lit_1_2 = (6 * n / 5)%Z.
Proof.
  intros Hn. unfold scaled, fmul.
  pose proof (float_of_int_exact n ltac:(lia)) as E.
  assert (L1 : (6 # 5) - (1 # 10000000000000000) <= lit_1_2)
    by (apply Qle_bool_imp_le; reflexivity).
  assert (L2 : lit_1_2 <= 6 # 5) by (apply Qle_bool_imp_le; reflexivity).
  assert (L3 : (6 # 5) - lit_1_2 <= lit_1_2 * pow2 (-54))
    by (apply Qle_bool_imp_le; reflexivity).
  assert (N31 : inject_Z n <= 2147483648).
  { change 2147483648 with (inject_Z (2 ^ 31)). rewrite <- Zle_Qle. lia. }
  assert (N0 : 0 <= inject_Z n)
    by (change 0 with (inject_Z 0); rewrite <- Zle_Qle; lia).
  assert (P32 : pow2 32 == 4294967296) by reflexivity.
  assert (P53 : pow2 53 == 9007199254740992) by reflexivity.
  pose proof (Z.div_mod (6 * n) 5 ltac:(lia)) as Hd.
  pose proof (Z.mod_pos_bound (6 * n) 5 ltac:(lia)) as Hr.
  set (m := (6 * n / 5)%Z) in *.
  assert (A : inject_Z (5 * m) <= inject_Z (6 * n)) by (rewrite <- Zle_Qle; lia).
  assert (B : inject_Z (6 * n) <= inject_Z (5 * m + 4)) by (rewrite <- Zle_Qle; lia).
  rewrite inject_Z_plus, !inject_Z_mult in B. rewrite !inject_Z_mult in A.
  change (inject_Z 5) with 5 in A, B. change (inject_Z 6) with 6 in A, B.
  change (inject_Z 4) with 4 in B.
  assert (K1 : inject_Z n * ((6 # 5) - (1 # 10000000000000000))
               <= inject_Z n * lit_1_2)
    by (apply Qmult_le_nonneg_l; lra).
  assert (K2 : inject_Z n * lit_1_2 <= inject_Z n * (6 # 5))
    by (apply Qmult_le_nonneg_l; lra).
  destruct (Z.eq_dec ((6 * n) mod 5) 0%Z) as [Hz|Hnz].
  - destruct (Z.eq_dec n 0%Z) as [Hn0|Hn0].
    + assert (Z0 : inject_Z n == 0) by (now rewrite Hn0).
      assert (M0 : 0 <= inject_Z m)
        by (change 0 with (inject_Z 0); rewrite <- Zle_Qle; lia).
      apply py_int_round64_floor; [lia | rewrite E; lra ..].
    + assert (N1 : 1 <= inject_Z n).
      { change 1 with (inject_Z 1). rewrite <- Zle_Qle. lia. }
      assert (A' : inject_Z (6 * n) <= inject_Z (5 * m)) by (rewrite <- Zle_Qle; lia).
      rewrite !inject_Z_mult in A'.
      change (inject_Z 5) with 5 in A'. change (inject_Z 6) with 6 in A'.
      assert (K3 : inject_Z n * ((6 # 5) - lit_1_2)
                   <= inject_Z n * (lit_1_2 * pow2 (-54)))
        by (apply Qmult_le_nonneg_l; lra).
      assert (R : round64 (float_of_int n * lit_1_2) == inject_Z m).
      { apply round64_up_to_int; rewrite E; lra. }
      rewrite py_int_nonneg by (rewrite R; lra).
      rewrite R. apply Qfloor_Z.
  - assert (A' : inject_Z (5 * m + 1) <= inject_Z (6 * n)) by (rewrite <- Zle_Qle; lia).
    rewrite inject_Z_plus, !inject_Z_mult in A'.
    change (inject_Z 5) with 5 in A'. change (inject_Z 6) with 6 in A'.
    change (inject_Z 1) with 1 in A'.
    apply py_int_round64_floor; [lia | rewrite E; lra ..].
Qed.

End LayoutArithmetic.

(** The step between detail lines, as an integer division. *)
Lemma line_step_truncates width height :
  0 <= width < 2 ^ 31 -> 0 <= height < 2 ^ 31 ->
  0 <= details_size width height < 2 ^ 31
  /\ line_step width height = 3 * details_size width height / 2.
Proof.
  intros Hw Hh.
  assert (Hb : 0 <= Z.min width height / 15 < 2 ^ 31).
  { split; [apply Z.div_pos; lia|]. apply Z.div_lt_upper_bound; lia. }
  assert (Hd : 0 <= details_size width height < 2 ^ 31).
  { unfold details_size, base_size. rewrite scaled_0_5 by exact Hb.
    split; [apply Z.div_pos; lia|]. apply Z.div_lt_upper_bound; lia. }
  split; [exact Hd|]. unfold line_step. now apply scaled_1_5.
Qed.

(** ** [apply_text_layout], step by step *)

Lemma get_font_run E size w :
  font_faults_are_IOError E -> get_font E size w = (Ok (font_of E size), w).
Proof.
  intros HE. unfold get_font, try_except, ImageFont_truetype, font_of.
  destruct (truetype E size) as [e|] eqn:Et; [|reflexivity].
  cbn. now rewrite (HE size e Et).
Qed.

Lemma get_font_recovers E size w :
  escaping_font_error E size = None ->
  get_font E size w = (Ok (font_of E size), w).
Proof.
  unfold escaping_font_error, get_font, try_except, ImageFont_truetype, font_of.
  destruct (truetype E size) as [e|]; [|reflexivity].
  cbn. now destruct (is_IOError e).
Qed.

Lemma get_font_escapes E size e w :
  escaping_font_error E size = Some e -> get_font E size w = (Raise e, w).
Proof.
  unfold escaping_font_error, get_font, try_except, ImageFont_truetype.
  destruct (truetype E size) as [e'|]; [|discriminate].
  cbn. destruct (is_IOError e') eqn:Ee; [discriminate|].
  intros [= <-]. reflexivity.
Qed.

Lemma fonts_ready_sizes E width height :
  fonts_ready E width height ->
  escaping_font_error E (subtitle_size width height) = None
  /\ escaping_font_error E (details_size width height) = None.
Proof.
  unfold fonts_ready, layout_font_error.
  destruct (escaping_font_error E (subtitle_size width height));
    [discriminate | auto].
Qed.

(** From a shorter side of 30 pixels on, both font sizes are positive. *)
Lemma fonts_ready_from_30 E width height :
  positive_sizes_recover E ->
  30 <= width < 2 ^ 31 -> 30 <= height < 2 ^ 31 ->
  fonts_ready E width height.
Proof.
  intros HE Hw Hh.
  assert (Hb : 2 <= Z.min width height / 15 < 2 ^ 31).
  { split; [apply Z.div_le_lower_bound; lia|].
    apply Z.div_lt_upper_bound; lia. }
  assert (Hs : 0 < subtitle_size width height).
  { unfold subtitle_size, base_size. rewrite scaled_0_8 by lia.
    apply Z.div_str_pos. lia. }
  assert (Hd : 0 < details_size width height).
  { unfold details_size, base_size. rewrite scaled_0_5 by lia.
    apply Z.div_str_pos. lia. }
  assert (H : forall size, 0 < size -> escaping_font_error E size = None).
  { intros size Hpos. unfold escaping_font_error.
    destruct (truetype E size) as [e|] eqn:Et; [|reflexivity].
    now rewrite (HE size e Hpos Et). }
  unfold fonts_ready, layout_font_error. now rewrite !H.
Qed.

Lemma font_faults_ready E width height :
  font_faults_are_IOError E -> fonts_ready E width height.
Proof.
  intros HE.
  assert (H : forall size, escaping_font_error E size = None).
  { intros size. unfold escaping_font_error.
    destruct (truetype E size) as [e|] eqn:Et; [|reflexivity].
    now rewrite (HE size e Et). }
  unfold fonts_ready, layout_font_error. now rewrite !H.
Qed.

Lemma with_data_with_data d d' b : with_data d (with_data d' b) = with_data d b.
Proof. reflexivity. Qed.

(** Calls that all draw on one bitmap change that bitmap only. *)
Lemma emit_target E calls r b w :
  Forall (fun c => tc_target c = r) calls -> heap w !! r = Some b ->
  emit E calls w
  = {| heap := <[r := with_data (render E calls (im_data b)) b]> (heap w);
       trace := trace w ++ calls |}.
Proof.
  intros H. revert b w. induction H as [|c calls Hc _ IH]; intros b w Hb.
  - rewrite emit_nil. cbn. rewrite app_nil_r.
    replace (with_data (im_data b) b) with b by now destruct b.
    rewrite list_insert_id by exact Hb. now destruct w.
  - change (c :: calls) with ([c] ++ calls). rewrite emit_app.
    unfold emit at 2. cbn [foldl heap trace]. rewrite Hc.
    rewrite (alter_known _ _ _ _ Hb).
    rewrite (IH (draw_call E c b)); cycle 1.
    { cbn [heap]. apply list_lookup_insert_eq. eapply lookup_lt_Some, Hb. }
    cbn [heap trace]. rewrite list_insert_insert_eq, <- app_assoc.
    reflexivity.
Qed.

Lemma outlined_calls_target draw text font fill outline x y :
  Forall (fun c => tc_target c = draw)
    (outlined_calls draw text font fill outline x y).
Proof.
  unfold outlined_calls. apply Forall_app. split.
  - apply Forall_fmap, Forall_true. done.
  - now repeat constructor.
Qed.

Lemma detail_calls_target E draw font width y step lines :
  Forall (fun c => tc_target c = draw)
    (detail_calls E draw font width y step lines).
Proof.
  revert y. induction lines as [|line rest IH]; intros y;
    cbn [detail_calls]; [constructor|].
  apply Forall_app. split; [apply outlined_calls_target | apply IH].
Qed.

Lemma layout_calls_target E draw width height subtitle details :
  Forall (fun c => tc_target c = draw)
    (layout_calls E draw width height subtitle details).
Proof.
  unfold layout_calls. apply Forall_app. split.
  - destruct (truthy subtitle); [apply outlined_calls_target | constructor].
  - destruct (truthy details); [apply detail_calls_target | constructor].
Qed.

Lemma detail_lines_loop_run E draw lines width y_pos font size w :
  let step := scaled size lit_1_5 in
  detail_lines_loop E draw lines width y_pos font size w
  = (Ok (y_pos + Z.of_nat (length lines) * step),
     emit E (detail_calls E draw font width y_pos step lines) w).
Proof.
  intros step. revert y_pos w.
  induction lines as [|line rest IH]; intros y_pos w.
  - cbn [detail_lines_loop detail_calls].
    replace (y_pos + Z.of_nat (length (@nil pystr)) * step) with y_pos
      by (cbn [length]; lia).
    now rewrite emit_nil.
  - cbn [detail_lines_loop detail_calls].
    erewrite bind_ok by apply draw_text_with_outline_run.
    rewrite IH, emit_app.
    change (py_int (fmul (float_of_int size) lit_1_5)) with step.
    replace (y_pos + step + Z.of_nat (length rest) * step)
      with (y_pos + Z.of_nat (length (line :: rest)) * step)
      by (cbn [length]; lia).
    reflexivity.
Qed.

Lemma lookup_tail {A} (l tl : list A) k : (l ++ tl) !! (length l + k)%nat = tl !! k.
Proof.
  rewrite lookup_app_r by lia. f_equal. lia.
Qed.

(** The text part of the layout (lines 130-138), followed by the rest [k]. *)
Lemma layout_text_run {A} E draw width height subtitle details (k : M A) w :
  (y_pos ← (if truthy subtitle then
              _ ← draw_text_with_outline E draw subtitle (width / 2) (height / 3)
                    (font_of E (subtitle_size width height)) "white" "black" true;
              mret (height / 3 + spacing width height)
            else mret (height / 3));
   _ ← (if truthy details then
          detail_lines_loop E draw
            (map strip (List.filter (fun line => truthy (strip line))
                                    (split newline details)))
            width y_pos (font_of E (details_size width height))
            (details_size width height)
        else mret y_pos);
   k) w
  = k (emit E (layout_calls E draw width height subtitle details) w).
Proof.
  unfold layout_calls, details_start, line_step.
  destruct (truthy subtitle).
  - erewrite bind_ok; cycle 1.
    { erewrite bind_ok by apply draw_text_with_outline_run. reflexivity. }
    destruct (truthy details).
    + erewrite bind_ok by apply detail_lines_loop_run.
      now rewrite emit_app.
    + erewrite bind_ok by reflexivity. now rewrite app_nil_r.
  - erewrite bind_ok by reflexivity.
    destruct (truthy details).
    + erewrite bind_ok by apply detail_lines_loop_run. reflexivity.
    + erewrite bind_ok by reflexivity. cbn [app]. now rewrite emit_nil.
Qed.

Lemma Image_new_run m width height colour w :
  0 <= width <= 536870910 -> 0 <= height <= 2147483647 ->
  Image_new m (width, height) colour w
  = (Ok (length (heap w)),
     {| heap := heap w ++ [solid m width height colour]; trace := trace w |}).
Proof.
  intros Hw Hh. unfold Image_new.
  destruct (Z.ltb_spec width 0); [lia|].
  destruct (Z.ltb_spec height 0); [lia|].
  destruct (Z.ltb_spec 2147483647 width); [lia|].
  destruct (Z.ltb_spec 2147483647 height); [lia|].
  destruct (Z.ltb_spec 536870910 width); [lia|]. reflexivity.
Qed.

Lemma lookup_tail_Some {A} (l tl : list A) k x :
  tl !! k = Some x -> (l ++ tl) !! (length l + k)%nat = Some x.
Proof. intros H. now rewrite lookup_tail. Qed.

Lemma logo_step_run w0 logo lgo poster b w1 :
  processed_logo_at w0 logo lgo ->
  (forall r x, heap w0 !! r = Some x -> heap w1 !! r = Some x) ->
  heap w1 !! poster = Some b -> im_mode b = RGBA -> im_fault b = false ->
  logo_step logo poster (im_width b) w1
  = (Ok tt, {| heap := <[poster := with_logo lgo b]> (heap w1);
               trace := trace w1 |}).
Proof.
  intros Hl Hext Hp Hm Hf. unfold logo_step, processed_logo_at in *.
  destruct logo as [l|], lgo as [lg|]; try contradiction.
  - destruct Hl as (Hlg & Hlf & Hlm). apply Hext in Hlg.
    erewrite bind_ok by (apply Image_size_run; exact Hlg).
    unfold Image_paste. cbn [fst snd].
    erewrite bind_ok by (apply load_run; [exact Hlg | exact Hlf]).
    erewrite bind_ok by (apply load_run; [exact Hp | exact Hf]).
    erewrite bind_ok by (apply load_run; [exact Hlg | exact Hlf]).
    rewrite Hlm, Hm.
    change (bool_decide (RGBA = RGB)) with false.
    change (bool_decide (RGBA = RGBA)) with true.
    rewrite !Z.eqb_refl. cbn [andb negb].
    rewrite (mutate_run _ _ _ _ Hp). reflexivity.
  - cbn [with_logo]. rewrite list_insert_id by exact Hp. now rewrite world_eta.
Qed.

(** The whole of [apply_text_layout] on a usable background. *)
Lemma apply_text_layout_run E image subtitle details logo lgo bg w :
  heap w !! image = Some bg -> usable bg ->
  fonts_ready E (im_width bg) (im_height bg) ->
  processed_logo_at w logo lgo ->
  let n := length (heap w) in
  let calls := layout_calls E (n + 2)%nat (im_width bg) (im_height bg)
                 subtitle details in
  let overlay := text_overlay E calls (im_width bg) (im_height bg) in
  let base := with_logo lgo (darkened bg) in
  apply_text_layout E image subtitle details logo w
  = (Ok (n + 6)%nat,
     {| heap := heap w
                ++ [bg; convert_bitmap RGBA bg; overlay;
                    solid RGBA (im_width bg) (im_height bg) (0, 0, 0, 80);
                    base; alpha_composite_bitmap base overlay;
                    poster_of E bg lgo calls];
        trace := trace w ++ calls |}).
Proof.
  intros Hbg (Hw & Hh & Hf) HE Hlogo n calls overlay base.
  apply fonts_ready_sizes in HE as [Hfs Hfd].
  destruct w as [hw tr]. cbn [heap trace] in *. subst n.
  unfold apply_text_layout, text_layout.
  erewrite bind_ok by (apply Image_copy_run; [exact Hbg | exact Hf]).
  cbn [heap trace].
  erewrite bind_ok by
    (apply Image_convert_run; cbn [heap]; [apply lookup_new | exact Hf]).
  cbn [heap trace]. rewrite !length_app, <- !app_assoc. cbn [length app].
  erewrite bind_ok by
    (apply Image_size_run; cbn [heap]; apply lookup_tail_Some; reflexivity).
  cbn [convert_bitmap im_width im_height].
  erewrite bind_ok by (apply Image_new_run; assumption).
  cbn [heap trace]. rewrite !length_app, <- !app_assoc. cbn [length app].
  unfold ImageDraw_Draw.
  erewrite bind_ok; cycle 1.
  { erewrite bind_ok; [reflexivity|].
    apply load_run with (b := solid RGBA (im_width bg) (im_height bg) (0, 0, 0, 0));
      [cbn [heap]; apply lookup_tail_Some; reflexivity | reflexivity]. }
  erewrite bind_ok by (apply Image_new_run; assumption).
  cbn [heap trace]. rewrite !length_app, <- !app_assoc. cbn [length app].
  (* the darkening layer *)
  erewrite bind_ok; cycle 1.
  { unfold Image_alpha_composite.
    erewrite bind_ok by
      (apply load_run with (b := convert_bitmap RGBA bg);
       [cbn [heap]; apply (lookup_tail_Some hw _ 1); reflexivity | reflexivity]).
    erewrite bind_ok by
      (apply load_run with (b := solid RGBA (im_width bg) (im_height bg) (0, 0, 0, 80));
       [cbn [heap]; apply (lookup_tail_Some hw _ 3); reflexivity | reflexivity]).
    cbn [convert_bitmap solid im_mode im_width im_height].
    change (bool_decide (RGBA = RGBA)) with true.
    rewrite !Z.eqb_refl. cbn [andb].
    apply alloc_run. }
  cbn [heap trace]. rewrite !length_app, <- !app_assoc. cbn [length app].
  fold (darkened bg).
  erewrite bind_ok by (apply get_font_recovers; exact Hfs).
  erewrite bind_ok by (apply get_font_recovers; exact Hfd).
  (* the text *)
  change (py_int (fmul (float_of_int (Z.min (im_width bg) (im_height bg) / 15)) lit_0_8))
    with (subtitle_size (im_width bg) (im_height bg)).
  change (py_int (fmul (float_of_int (Z.min (im_width bg) (im_height bg) / 15)) lit_0_5))
    with (details_size (im_width bg) (im_height bg)).
  change (py_int (fmul (float_of_int (Z.min (im_width bg) (im_height bg) / 15)) lit_1_2))
    with (spacing (im_width bg) (im_height bg)).
  rewrite layout_text_run.
  fold calls.
  rewrite (emit_target E calls (length hw + 2)%nat
             (solid RGBA (im_width bg) (im_height bg) (0, 0, 0, 0)));
    [|apply layout_calls_target
     |cbn [heap]; apply (lookup_tail_Some hw _ 2); reflexivity].
  cbn [heap trace]. rewrite insert_app_r. cbn [insert list_insert].
  fold (text_overlay E calls (im_width bg) (im_height bg)). fold overlay.
  (* the logo *)
  erewrite bind_ok; cycle 1.
  { change (im_width bg) with (im_width (darkened bg)) at 1.
    eapply (logo_step_run {| heap := hw; trace := tr |} logo lgo);
      [exact Hlogo | | cbn [heap]; apply (lookup_tail_Some hw _ 4); reflexivity
      | reflexivity | reflexivity].
    intros r x Hr. cbn [heap] in *. now apply lookup_app_l_Some. }
  cbn [heap trace]. rewrite insert_app_r. cbn [insert list_insert]. fold base.
  (* flattening *)
  erewrite bind_ok; cycle 1.
  { unfold Image_alpha_composite.
    erewrite bind_ok by
      (apply load_run with (b := base);
       [cbn [heap]; apply (lookup_tail_Some hw _ 4); reflexivity
       | unfold base; now destruct lgo]).
    erewrite bind_ok by
      (apply load_run with (b := overlay);
       [cbn [heap]; apply (lookup_tail_Some hw _ 2); reflexivity | reflexivity]).
    replace (im_mode base) with RGBA by (unfold base; now destruct lgo).
    replace (im_width base) with (im_width bg) by (unfold base; now destruct lgo).
    replace (im_height base) with (im_height bg) by (unfold base; now destruct lgo).
    cbn [overlay text_overlay with_data solid im_mode im_width im_height].
    change (bool_decide (RGBA = RGBA)) with true.
    rewrite !Z.eqb_refl. cbn [andb].
    apply alloc_run. }
  cbn [heap trace]. rewrite !length_app, <- !app_assoc. cbn [length app].
  rewrite Image_convert_run with (b := alpha_composite_bitmap base overlay);
    [|cbn [heap]; apply (lookup_tail_Some hw _ 5); reflexivity | reflexivity].
  cbn [heap trace]. rewrite !length_app, <- !app_assoc. cbn [length app].
  reflexivity.
Qed.

(** ** The claims about [draw_text_with_outline] *)

(** C8: every call of [draw_text_with_outline] draws the text once in the
    outline colour at (x + dx, y + dy) for each of the 24 offsets with
    dx, dy in [-2, 2] other than (0, 0), and then once at (x, y) in the fill
    colour, after (so on top of) all outline passes; x is the drawing x,
    centred or not. *)
Theorem outline_is_24_passes_then_fill
    E draw text x y font fill_color outline_color (center : bool) w :
  let x' := if center then x - measured_width E text font / 2 else x in
  draw_text_with_outline E draw text x y font fill_color outline_color center w
  = (Ok tt,
     emit E (map (fun d : Z * Z => text_call draw text font outline_color
                                     (x' + d.1) (y + d.2)) offsets24
             ++ [text_call draw text font fill_color x' y]) w)
  /\ length offsets24 = 24%nat
  /\ NoDup offsets24
  /\ forall dx dy, (dx, dy) ∈ offsets24
                   <-> -2 <= dx <= 2 /\ -2 <= dy <= 2 /\ (dx, dy) <> (0, 0).
Proof.
  intros x'. split; [apply draw_text_with_outline_run|].
  split; [reflexivity|]. split; [apply offsets24_NoDup|].
  apply offsets24_spec.
Qed.


(** ** The claims about [apply_text_layout] *)

Lemma byte_forall (P : Z -> bool) :
  forallb P (range 0 256) = true -> forall s, 0 <= s <= 255 -> P s = true.
Proof.
  intros H s Hs. rewrite forallb_forall in H. apply H.
  apply list_elem_of_In, range_elem. lia.
Qed.

Lemma opaque_channel s :
  0 <= s <= 255 -> Z.shiftr (shift_for_div255 (s * 32640 + 16384)) 7 = s.
Proof.
  intros Hs. apply Z.eqb_eq.
  apply (byte_forall (fun s => Z.shiftr (shift_for_div255 (s * 32640 + 16384)) 7 =? s));
    [vm_compute; reflexivity | exact Hs].
Qed.

(** An opaque pixel over anything is that pixel. *)
Lemma alpha_composite_opaque dst r g b :
  0 <= r <= 255 -> 0 <= g <= 255 -> 0 <= b <= 255 ->
  alpha_composite_pixel dst (r, g, b, 255) = (r, g, b, 255).
Proof.
  intros Hr Hg Hb. destruct dst as [[[dr dg] db] da].
  unfold alpha_composite_pixel. cbn [Z.eqb].
  replace (255 * 255 + da * (255 - 255)) with 65025 by lia.
  change (255 * 255 * 255 * 128 / 65025) with 32640.
  change (255 * 128 - 32640) with 0.
  replace (r * 32640 + dr * 0 + 128 * 128) with (r * 32640 + 16384) by lia.
  replace (g * 32640 + dg * 0 + 128 * 128) with (g * 32640 + 16384) by lia.
  replace (b * 32640 + db * 0 + 128 * 128) with (b * 32640 + 16384) by lia.
  now rewrite !opaque_channel by assumption.
Qed.

(** A fully transparent pixel over anything leaves it as it is. *)
Lemma alpha_composite_transparent dst src :
  alpha_of src = 0 -> alpha_composite_pixel dst src = dst.
Proof.
  destruct dst as [[[dr dg] db] da], src as [[[sr sg] sb] sa]. cbn.
  now intros ->.
Qed.

Lemma blend_opaque c d : 0 <= c <= 255 -> blend 255 d c = c.
Proof.
  intros Hc. unfold blend.
  replace (d * (255 - 255) + c * 255 + 128) with (c * 255 + 128) by lia.
  apply Z.eqb_eq.
  apply (byte_forall (fun c => shift_for_div255 (c * 255 + 128) =? c));
    [vm_compute; reflexivity | exact Hc].
Qed.

(** Pasting an opaque logo pixel replaces what is under it. *)
Lemma paste_opaque p r g b :
  0 <= r <= 255 -> 0 <= g <= 255 -> 0 <= b <= 255 ->
  paste_pixel p (r, g, b, 255) 255 = (r, g, b, 255).
Proof.
  intros Hr Hg Hb. destruct p as [[[pr pg] pb] pa]. unfold paste_pixel.
  now rewrite !blend_opaque by lia.
Qed.

Lemma mask_value_RGBA p : mask_value RGBA p = alpha_of p.
Proof. now destruct p as [[[r g] b] a]. Qed.

Lemma convert_drops_alpha r g b a : convert_pixel RGBA RGB (r, g, b, a) = (r, g, b, 255).
Proof. reflexivity. Qed.

(** The logo layer at one pixel: the logo blended in through its alpha
    inside the box at (width - logoWidth - 40, 40), nothing elsewhere. *)
Lemma with_logo_data lgo b x y :
  (forall lg, lgo = Some lg -> im_mode lg = RGBA) ->
  im_data (with_logo lgo b) x y
  = match lgo with
    | Some lg =>
        let x0 := im_width b - im_width lg - 40 in
        if (x0 <=? x) && (x <? x0 + im_width lg)
           && (40 <=? y) && (y <? 40 + im_height lg)
        then paste_pixel (im_data b x y) (im_data lg (x - x0) (y - 40))
               (alpha_of (im_data lg (x - x0) (y - 40)))
        else im_data b x y
    | None => im_data b x y
    end.
Proof.
  intros Hm. destruct lgo as [lg|]; [|reflexivity].
  cbn [with_logo paste_bitmap with_data im_data]. unfold paste_data.
  now rewrite (Hm lg eq_refl), mask_value_RGBA.
Qed.

Lemma processed_logo_is_RGBA w logo lgo :
  processed_logo_at w logo lgo -> forall lg, lgo = Some lg -> im_mode lg = RGBA.
Proof.
  intros H lg ->. destruct logo as [l|]; [|contradiction].
  now destruct H as (_ & _ & Hm).
Qed.

(** C2: where the two fonts of the layout load or fall back, the poster
    [apply_text_layout] returns is, pixel by pixel, the text overlay
    alpha-composited over a base that is the background (made RGBA) under a
    black layer of alpha 80, with the processed logo, when there is one,
    pasted onto that darkened base through its own alpha at
    (width - logoWidth - 40, 40); so a transparent overlay pixel shows the
    base, an opaque logo pixel hides the darkened background, and an opaque
    overlay pixel hides both. *)
Theorem layers_are_composited_in_order
    E image subtitle details logo lgo bg w :
  heap w !! image = Some bg -> usable bg ->
  fonts_ready E (im_width bg) (im_height bg) ->
  processed_logo_at w logo lgo ->
  exists r out w',
    apply_text_layout E image subtitle details logo w = (Ok r, w')
    /\ heap w' !! r = Some out
    /\ forall x y,
         let dark :=
           alpha_composite_pixel
             (convert_pixel (im_mode bg) RGBA (im_data bg x y)) (0, 0, 0, 80) in
         let base :=
           match lgo with
           | Some lg =>
               let x0 := im_width bg - im_width lg - 40 in
               if (x0 <=? x) && (x <? x0 + im_width lg)
                  && (40 <=? y) && (y <? 40 + im_height lg)
               then paste_pixel dark (im_data lg (x - x0) (y - 40))
                      (alpha_of (im_data lg (x - x0) (y - 40)))
               else dark
           | None => dark
           end in
         let text :=
           render E (drop (length (trace w)) (trace w'))
             (fun _ _ => (0, 0, 0, 0)) x y in
         im_data out x y
         = convert_pixel RGBA RGB (alpha_composite_pixel base text)
         /\ (alpha_of text = 0 -> im_data out x y = convert_pixel RGBA RGB base)
         /\ (forall r g b, text = (r, g, b, 255) ->
               0 <= r <= 255 -> 0 <= g <= 255 -> 0 <= b <= 255 ->
               im_data out x y = (r, g, b, 255))
         /\ (forall lg r g b, lgo = Some lg ->
               let x0 := im_width bg - im_width lg - 40 in
               x0 <= x < x0 + im_width lg -> 40 <= y < 40 + im_height lg ->
               im_data lg (x - x0) (y - 40) = (r, g, b, 255) ->
               0 <= r <= 255 -> 0 <= g <= 255 -> 0 <= b <= 255 ->
               base = (r, g, b, 255)).
Proof.
  intros Hbg Hu HE Hlogo.
  pose proof (apply_text_layout_run E image subtitle details logo lgo bg w
                Hbg Hu HE Hlogo) as Hrun.
  cbv zeta in Hrun. do 3 eexists. split; [exact Hrun|]. split.
  { cbn [heap]. apply (lookup_tail_Some (heap w) _ 6). reflexivity. }
  intros x y dark base text. cbn [trace] in text.
  assert (Hdata : im_data
                    (poster_of E bg lgo
                       (layout_calls E (length (heap w) + 2)%nat (im_width bg)
                          (im_height bg) subtitle details)) x y
                  = convert_pixel RGBA RGB (alpha_composite_pixel base text)).
  { unfold poster_of. cbn [convert_bitmap alpha_composite_bitmap im_data im_mode].
    rewrite with_logo_data by (eapply processed_logo_is_RGBA; exact Hlogo).
    unfold text, base, dark.
    rewrite drop_app_length. reflexivity. }
  rewrite Hdata. split; [reflexivity|]. split; [|split].
  - intros Ha. now rewrite alpha_composite_transparent.
  - intros r g b -> Hr Hg Hb. now rewrite alpha_composite_opaque.
  - intros lg r g b -> x0 Hx Hy Hpx Hr Hg Hb. unfold base. fold x0.
    destruct (Z.leb_spec x0 x); [|lia].
    destruct (Z.ltb_spec x (x0 + im_width lg)); [|lia].
    destruct (Z.leb_spec 40 y); [|lia].
    destruct (Z.ltb_spec y (40 + im_height lg)); [|lia].
    cbn [andb]. rewrite Hpx. cbn [alpha_of]. now apply paste_opaque.
Qed.

(** A font error that [get_font] does not catch ends [apply_text_layout],
    whatever the texts and the logo. *)
Lemma apply_text_layout_font_error E image subtitle details logo bg w e :
  heap w !! image = Some bg -> usable bg ->
  layout_font_error E (im_width bg) (im_height bg) = Some e ->
  (apply_text_layout E image subtitle details logo w).1 = Raise e.
Proof.
  intros Hbg (Hw & Hh & Hf) He.
  destruct w as [hw tr]. cbn [heap trace] in *.
  unfold apply_text_layout, text_layout.
  erewrite bind_ok by (apply Image_copy_run; [exact Hbg | exact Hf]).
  cbn [heap trace].
  erewrite bind_ok by
    (apply Image_convert_run; cbn [heap]; [apply lookup_new | exact Hf]).
  cbn [heap trace]. rewrite !length_app, <- !app_assoc. cbn [length app].
  erewrite bind_ok by
    (apply Image_size_run; cbn [heap]; apply lookup_tail_Some; reflexivity).
  cbn [convert_bitmap im_width im_height].
  erewrite bind_ok by (apply Image_new_run; assumption).
  cbn [heap trace]. rewrite !length_app, <- !app_assoc. cbn [length app].
  unfold ImageDraw_Draw.
  erewrite bind_ok; cycle 1.
  { erewrite bind_ok; [reflexivity|].
    apply load_run with (b := solid RGBA (im_width bg) (im_height bg) (0, 0, 0, 0));
      [cbn [heap]; apply lookup_tail_Some; reflexivity | reflexivity]. }
  erewrite bind_ok by (apply Image_new_run; assumption).
  cbn [heap trace]. rewrite !length_app, <- !app_assoc. cbn [length app].
  erewrite bind_ok; cycle 1.
  { unfold Image_alpha_composite.
    erewrite bind_ok by
      (apply load_run with (b := convert_bitmap RGBA bg);
       [cbn [heap]; apply (lookup_tail_Some hw _ 1); reflexivity | reflexivity]).
    erewrite bind_ok by
      (apply load_run with (b := solid RGBA (im_width bg) (im_height bg) (0, 0, 0, 80));
       [cbn [heap]; apply (lookup_tail_Some hw _ 3); reflexivity | reflexivity]).
    cbn [convert_bitmap solid im_mode im_width im_height].
    change (bool_decide (RGBA = RGBA)) with true.
    rewrite !Z.eqb_refl. cbn [andb].
    apply alloc_run. }
  change (py_int (fmul (float_of_int (Z.min (im_width bg) (im_height bg) / 15)) lit_0_8))
    with (subtitle_size (im_width bg) (im_height bg)).
  change (py_int (fmul (float_of_int (Z.min (im_width bg) (im_height bg) / 15)) lit_0_5))
    with (details_size (im_width bg) (im_height bg)).
  unfold layout_font_error in He.
  destruct (escaping_font_error E (subtitle_size (im_width bg) (im_height bg)))
    as [e1|] eqn:E1.
  - injection He as ->.
    erewrite bind_raise; [reflexivity|]. now apply get_font_escapes.
  - erewrite bind_ok by (apply get_font_recovers; exact E1).
    erewrite bind_raise; [reflexivity|]. now apply get_font_escapes.
Qed.

(** C10 fails on the code: on a usable background, whatever the subtitle,
    the details and the (processed or absent) logo, [apply_text_layout]
    returns a bitmap of the background's width and height in mode RGB only
    where the two fonts of the layout load or fail with an IOError;
    otherwise the font error leaves [apply_text_layout] and there is no
    poster.  Recent Pillow refuses a font size of 0, the size asked for on a
    background whose shorter side is below 30 pixels, with a ValueError,
    which [get_font] does not catch. *)
Theorem poster_has_background_size_unless_a_font_fails
    E image subtitle details logo lgo bg w :
  heap w !! image = Some bg -> usable bg ->
  processed_logo_at w logo lgo ->
  match layout_font_error E (im_width bg) (im_height bg) with
  | None =>
      exists r out w',
        apply_text_layout E image subtitle details logo w = (Ok r, w')
        /\ heap w' !! r = Some out
        /\ im_mode out = RGB
        /\ im_width out = im_width bg
        /\ im_height out = im_height bg
  | Some e =>
      (apply_text_layout E image subtitle details logo w).1 = Raise e
  end.
Proof.
  intros Hbg Hu Hlogo.
  destruct (layout_font_error E (im_width bg) (im_height bg)) as [e|] eqn:HE.
  { now apply (apply_text_layout_font_error E image subtitle details logo bg). }
  pose proof (apply_text_layout_run E image subtitle details logo lgo bg w
                Hbg Hu HE Hlogo) as Hrun.
  cbv zeta in Hrun. do 3 eexists. split; [exact Hrun|]. split.
  { cbn [heap]. apply (lookup_tail_Some (heap w) _ 6). reflexivity. }
  unfold poster_of. cbn [convert_bitmap im_mode im_width im_height alpha_composite_bitmap].
  now destruct lgo.
Qed.

(** ** Trimming and splitting *)

Lemma lstrip_head s c s' : lstrip s = c :: s' -> is_whitespace c = false.
Proof.
  induction s as [|a s IH]; cbn; [discriminate|].
  destruct (is_whitespace a) eqn:Ea; [exact IH|].
  now intros [= <- _].
Qed.

Lemma lstrip_suffix s : exists pre, s = pre ++ lstrip s.
Proof.
  induction s as [|a s [pre IH]]; [now exists []|]. cbn.
  destruct (is_whitespace a).
  - exists (a :: pre). cbn. now rewrite <- IH.
  - now exists [].
Qed.

(** A stripped string neither starts nor ends with whitespace. *)
Lemma strip_trimmed s c :
  (head (strip s) = Some c -> is_whitespace c = false)
  /\ (last (strip s) = Some c -> is_whitespace c = false).
Proof.
  unfold strip, rstrip.
  set (t := lstrip s). set (u := lstrip (rev t)).
  destruct (lstrip_suffix (rev t)) as [pre Hpre]. fold u in Hpre.
  assert (Ht : t = rev u ++ rev pre).
  { rewrite <- (rev_involutive t), Hpre. apply rev_app_distr. }
  split.
  - intros Hh. destruct (rev u) as [|a ru] eqn:Eu; [discriminate|].
    cbn in Hh. injection Hh as ->.
    apply (lstrip_head s c (ru ++ rev pre)). fold t. now rewrite Ht.
  - destruct u as [|a u'] eqn:Eu; [discriminate|].
    cbn [rev]. rewrite last_snoc. intros [= ->].
    apply (lstrip_head (rev t) c u'). exact Eu.
Qed.

(** The list comprehension of line 135 builds the spec's TextBlock. *)
Lemma details_lines_text_block raw :
  map strip (List.filter (fun line => truthy (strip line)) (split newline raw))
  = text_block raw.
Proof.
  unfold text_block. generalize (split newline raw). intros ls.
  induction ls as [|l ls IH]; [done|]. cbn.
  destruct (truthy (strip l)); cbn; now rewrite IH.
Qed.

Lemma text_block_lines raw line :
  line ∈ text_block raw ->
  line <> []
  /\ (forall c, head line = Some c -> is_whitespace c = false)
  /\ (forall c, last line = Some c -> is_whitespace c = false).
Proof.
  unfold text_block. rewrite list_elem_of_In, filter_In, in_map_iff.
  intros [(s & <- & _) Ht]. split; [now destruct (strip s)|].
  split; intros c; apply strip_trimmed.
Qed.

(** ** The fill passes of the detail lines *)

Lemma fills_in_app colour l1 l2 :
  fills_in colour (l1 ++ l2) = fills_in colour l1 ++ fills_in colour l2.
Proof. unfold fills_in. now rewrite List.filter_app, map_app. Qed.

Lemma fills_in_detail_calls E draw font width y step lines :
  fills_in "lightgray" (detail_calls E draw font width y step lines)
  = imap (fun k line => (line, y + Z.of_nat k * step)) lines.
Proof.
  revert y. induction lines as [|line rest IH]; intros y; [done|].
  cbn [detail_calls]. rewrite fills_in_app, IH, imap_cons.
  change (fills_in "lightgray" (line_calls E draw font "lightgray" width line y))
    with [(line, y)].
  cbn [app]. f_equal; [f_equal; lia|].
  apply imap_ext. intros k l _. cbn. f_equal. lia.
Qed.

(** C4 (as amended): where the two fonts of the layout load or fall back,
    [apply_text_layout] renders, in the detail colour, exactly the TextBlock
    of the raw details (its lines split at newlines and trimmed, the empty
    ones dropped), in their order, the k-th line at the cursor start plus k
    times the line step int(details_size * 1.5) of line 138, which is
    3 * details_size // 2: one and a half font sizes rounded down; no
    rendered line is empty or starts or ends with whitespace; and
    "A\n\n  \nB" gives the two lines "A" and "B", one line step apart. *)
Theorem detail_lines_are_trimmed_and_stacked
    E image subtitle details logo lgo bg w :
  heap w !! image = Some bg -> usable bg ->
  fonts_ready E (im_width bg) (im_height bg) ->
  processed_logo_at w logo lgo ->
  let width := im_width bg in
  let height := im_height bg in
  let step := 3 * details_size width height / 2 in
  let w' := (apply_text_layout E image subtitle details logo w).2 in
  line_step width height = step
  /\ fills_in "lightgray" (drop (length (trace w)) (trace w'))
     = imap (fun k line =>
               (line, details_start width height subtitle + Z.of_nat k * step))
            (text_block details)
  /\ (forall line, line ∈ text_block details ->
        line <> []
        /\ (forall c, head line = Some c -> is_whitespace c = false)
        /\ (forall c, last line = Some c -> is_whitespace c = false))
  /\ text_block (str "A" ++ [newline; newline; 32; 32; newline]%N ++ str "B")
     = [str "A"; str "B"].
Proof.
  intros Hbg Hu HE Hlogo width height step w'.
  assert (Hstep : line_step width height = step).
  { destruct Hu as (Hw & Hh & _).
    assert (Hw31 : 0 <= width < 2 ^ 31) by (unfold width; lia).
    assert (Hh31 : 0 <= height < 2 ^ 31) by (unfold height; lia).
    exact (proj2 (line_step_truncates width height Hw31 Hh31)). }
  split; [exact Hstep|].
  split; [|split; [apply text_block_lines | reflexivity]].
  unfold w'.
  rewrite (apply_text_layout_run E image subtitle details logo lgo bg w
             Hbg Hu HE Hlogo).
  cbn [snd trace]. rewrite drop_app_length.
  unfold layout_calls. rewrite fills_in_app.
  fold width height.
  replace (fills_in "lightgray"
             (if truthy subtitle
              then line_calls E (length (heap w) + 2)%nat
                     (font_of E (subtitle_size width height)) "white" width
                     subtitle (height / 3)
              else [])) with (@nil (pystr * Z))
    by (destruct (truthy subtitle); reflexivity).
  cbn [app]. rewrite <- Hstep.
  destruct (truthy details) eqn:Ed.
  - rewrite details_lines_text_block. apply fills_in_detail_calls.
  - destruct details; [reflexivity | discriminate].
Qed.

(** C4, the claim as worded fails: on a 768 x 1024 background the detail
    font size is 25 and two detail lines are drawn 37 pixels apart, less
    than one and a half font sizes. *)
Lemma detail_line_step_is_rounded_down :
  details_size 768 1024 = 25
  /\ fills_in "lightgray"
       (trace (apply_text_layout sample_env 0%nat []
                 (str "A" ++ [newline] ++ str "B") None portrait_world).2)
     = [(str "A", 341); (str "B", 378)]
  /\ (inject_Z (378 - 341) < (3 # 2) * inject_Z 25)%Q.
Proof.
  split; [vm_compute; reflexivity|]. split; [|reflexivity].
  rewrite (apply_text_layout_run sample_env 0%nat [] (str "A" ++ [newline] ++ str "B")
             None None (solid RGB 768 1024 (100, 150, 255, 255)) portrait_world);
    [vm_compute; reflexivity | reflexivity | | reflexivity | exact I].
  unfold usable, solid. cbn [im_width im_height im_fault].
  split; [lia|]. split; [lia | reflexivity].
Qed.

(** ** The entry point *)

(** C1 fails on the code: whenever a token is set and the provider answers
    the first request with HTTP 503, [generate_simple_poster] raises
    NameError for [time] (line 41: the module is never imported) instead of
    sleeping, retrying and returning a poster. *)
Theorem model_loading_response_raises_NameError
    E prompt subtitle details logo_image aspect_ratio w token content :
  hf_token E = Some token -> token <> [] ->
  http_post E 0 = Response 503 content ->
  generate_simple_poster E prompt subtitle details logo_image aspect_ratio w
  = (Raise (NameError "time"), w).
Proof.
  intros Ht Hne Hp. unfold generate_simple_poster.
  destruct (dict_get aspect_ratios aspect_ratio (1024, 1024)) as [width height].
  erewrite bind_raise; [reflexivity|].
  unfold create_background_via_api.
  erewrite bind_ok by reflexivity.
  rewrite Ht. destruct token as [|c token]; [contradiction|].
  erewrite bind_raise; [reflexivity|].
  cbn [seq api_attempts].
  erewrite bind_raise; [reflexivity|].
  unfold api_attempt, try_except.
  erewrite bind_ok by reflexivity. rewrite Hp. cbn [fst snd].
  reflexivity.
Qed.

(** ** The model run against reference values *)

(** [round64] computes what the IEEE 754 operations of [SpecFloat] compute:
    every quotient y / height with 0 <= y < height <= 40, and the gradient
    expression on those rows for some colour pairs. *)
Example round64_is_IEEE_division :
  forallb (fun p : Z * Z =>
             Qeq_bool (ieee_value (ieee_quotient p.1 p.2))
                      (true_quotient p.1 p.2))
          (rows_up_to 40) = true.
Proof. vm_compute. reflexivity. Qed.

Example round64_is_IEEE_gradient :
  forallb (fun c : Z * Z =>
     forallb (fun p : Z * Z =>
                Qeq_bool (ieee_value (ieee_gradient_value c.1 c.2 p.1 p.2))
                         (gradient_value c.1 c.2 (true_quotient p.1 p.2)))
             (rows_up_to 24))
    [(100, 150); (150, 200); (255, 255); (5, 0); (0, 255); (29, 29); (7, 200)]
  = true.
Proof. vm_compute. reflexivity. Qed.

(** Values CPython computes for the same expressions. *)
Example gradient_channel_samples :
  map (fun q : Z * Z * Z * Z =>
         gradient_channel q.1.1.1 q.1.1.2 (true_quotient q.1.2 q.2))
      [(5, 0, 4, 5); (29, 29, 3, 7); (255, 255, 285, 576); (100, 150, 682, 683);
       (0, 255, 1, 3); (255, 0, 1, 3); (7, 7, 1, 576); (200, 13, 500, 1024)]
  = [0; 28; 254; 149; 85; 170; 6; 108].
Proof. vm_compute. reflexivity. Qed.

Example layout_geometry_samples :
  map (fun n => (scaled n lit_0_8, scaled n lit_0_5, scaled n lit_1_2,
                 scaled (scaled n lit_0_5) lit_1_5))
      [45; 68; 51; 38; 1; 7; 1000003]
  = [(36, 22, 54, 33); (54, 34, 81, 51); (40, 25, 61, 37); (30, 19, 45, 28);
     (0, 0, 1, 0); (5, 3, 8, 4); (800002, 500001, 1200003, 750001)].
Proof. vm_compute. reflexivity. Qed.

Example thumbnail_size_samples :
  map (fun s : Z * Z => preserve_aspect_ratio s.1 s.2 200 200)
      [(400, 100); (10, 300); (1000, 3); (333, 777); (201, 200); (200, 201);
       (1920, 1080); (4000, 3000); (999, 1000); (12345, 6789); (7, 100000);
       (150, 90); (1, 1000); (1101, 4663); (3683, 3869); (4843, 838)]
  = [Ok (Some (200, 50)); Ok (Some (7, 200)); Ok (Some (200, 1));
     Ok (Some (86, 200)); Ok (Some (200, 199)); Ok (Some (199, 200));
     Ok (Some (200, 113)); Ok (Some (200, 150)); Ok (Some (200, 200));
     Ok (Some (200, 110)); Ok (Some (1, 200)); Ok None; Ok (Some (1, 200));
     Ok (Some (47, 200)); Ok (Some (190, 200)); Ok (Some (200, 35))].
Proof. vm_compute. reflexivity. Qed.

(** The aspect-ratio table of [generate_simple_poster]. *)
Example aspect_ratio_samples :
  dict_get aspect_ratios (str "3:4 - Poster") (1024, 1024) = (768, 1024)
  /\ dict_get aspect_ratios (str "4:3 - Unknown") (1024, 1024) = (1024, 1024).
Proof. split; reflexivity. Qed.

(** ** The theorems at work on the sample installation *)

Lemma gradient_rows_interpolate_witness :
  getpixel (gradient_bitmap 4 3 (100, 150, 255) (150, 200, 255)) 1 0
  = Some [100; 150; 255].
Proof.
  destruct (gradient_rows_interpolate 4 3 (100, 150, 255) (150, 200, 255)
              empty_world) as (_ & _ & _ & _ & _ & Htop & _);
    [lia | lia | cbn; lia | cbn; lia |].
  apply Htop. lia.
Defined.

Lemma processed_logo_is_bounded_witness :
  exists r w',
    process_logo sample_env (Some 2%nat) 200 sample_world = (Ok (Some r), w')
    /\ heap w' !! r
       = Some (convert_bitmap RGBA
                 (resize_bitmap sample_env (200, 50)
                    (solid RGB 400 100 (10, 20, 30, 255)))).
Proof.
  destruct (processed_logo_is_bounded sample_env 2%nat
              (solid RGB 400 100 (10, 20, 30, 255)) sample_world)
    as (r & target & w' & Hrun & _ & _ & Ht & Hp & _);
    [reflexivity | reflexivity | reflexivity
    | split; reflexivity | split; reflexivity |].
  exists r, w'. split; [exact Hrun|].
  vm_compute in Ht. injection Ht as <-. exact Hp.
Defined.

Lemma layers_are_composited_in_order_witness :
  exists r out w',
    apply_text_layout strict_font_env 0%nat (str "Tech Summit 2024")
      (str "Dec 15-17") (Some 1%nat) sample_world = (Ok r, w')
    /\ heap w' !! r = Some out.
Proof.
  destruct (layers_are_composited_in_order strict_font_env 0%nat
              (str "Tech Summit 2024") (str "Dec 15-17") (Some 1%nat)
              (Some (solid RGBA 120 60 (255, 0, 0, 255)))
              (solid RGB 1024 683 (100, 150, 255, 255)) sample_world)
    as (r & out & w' & Hrun & Hout & _).
  - reflexivity.
  - unfold usable, solid. cbn [im_width im_height im_fault].
    split; [lia|]. split; [lia | reflexivity].
  - vm_compute. reflexivity.
  - cbn. split; [reflexivity|]. split; reflexivity.
  - exists r, out, w'. split; assumption.
Defined.

Lemma detail_lines_are_trimmed_and_stacked_witness :
  fills_in "lightgray"
    (trace (apply_text_layout strict_font_env 0%nat (str "Tech Summit 2024")
              (str "A" ++ [newline; newline; 32; 32; newline]%N ++ str "B")
              None sample_world).2)
  = [(str "A", 281); (str "B", 314)].
Proof.
  destruct (detail_lines_are_trimmed_and_stacked strict_font_env 0%nat
              (str "Tech Summit 2024")
              (str "A" ++ [newline; newline; 32; 32; newline]%N ++ str "B")
              None None (solid RGB 1024 683 (100, 150, 255, 255)) sample_world)
    as (_ & Hfills & _).
  - reflexivity.
  - unfold usable, solid. cbn [im_width im_height im_fault].
    split; [lia|]. split; [lia | reflexivity].
  - vm_compute. reflexivity.
  - exact I.
  - refine (eq_trans Hfills _). vm_compute. reflexivity.
Defined.

Lemma poster_has_background_size_unless_a_font_fails_witness :
  (apply_text_layout strict_font_env 0%nat [] [] None tiny_world).1
  = Raise ValueError.
Proof.
  pose proof (poster_has_background_size_unless_a_font_fails strict_font_env
                0%nat [] [] None None (solid RGB 20 20 (0, 0, 0, 255))
                tiny_world) as H.
  assert (HE : layout_font_error strict_font_env 20 20 = Some ValueError)
    by (vm_compute; reflexivity).
  cbn [im_width im_height solid] in H. rewrite HE in H.
  apply H; [reflexivity | | exact I].
  unfold usable, solid. cbn [im_width im_height im_fault].
  split; [lia|]. split; [lia | reflexivity].
Defined.


Lemma model_loading_response_raises_NameError_witness :
  generate_simple_poster loading_env (str "Tech conference poster")
    (str "Tech Summit 2024") (str "Dec 15-17") None (str "3:4 - Poster")
    empty_world
  = (Raise (NameError "time"), empty_world).
Proof.
  apply (model_loading_response_raises_NameError loading_env _ _ _ _ _ _
           (str "hf_token") []);
    [reflexivity | discriminate | reflexivity].
Defined.

(** * Further properties *)

(** ** [create_background_via_api] *)

Lemma create_fallback_background_run width height w :
  0 <= width <= 536870910 -> 0 <= height <= 2147483647 ->
  create_fallback_background width height w
  = (Ok (length (heap w)),
     {| heap := heap w ++ [fallback_bitmap width height]; trace := trace w |}).
Proof.
  intros Hw Hh. unfold create_fallback_background.
  now apply create_gradient_background_run.
Qed.

Lemma api_attempt_breaks E w :
  first_attempt_breaks E -> api_attempt E 0 w = (Ok Break, w).
Proof.
  unfold first_attempt_breaks, api_attempt, try_except.
  erewrite bind_ok by reflexivity.
  destruct (http_post E 0) as [status content|]; [|reflexivity].
  intros [H200 H503]. cbn [fst snd].
  erewrite bind_ok by reflexivity. cbn [fst snd].
  destruct (Z.eqb_spec status 200); [contradiction|].
  destruct (Z.eqb_spec status 503); [contradiction|]. reflexivity.
Qed.

Lemma api_attempt_image E content b w :
  http_post E 0 = Response 200 content -> image_open E content = Some b ->
  api_attempt E 0 w
  = (Ok (Return (length (heap w))),
     {| heap := heap w ++ [b]; trace := trace w |}).
Proof.
  intros Hp Ho. unfold api_attempt, try_except.
  erewrite bind_ok by reflexivity. rewrite Hp.
  erewrite bind_ok by reflexivity. cbn [fst snd Z.eqb Pos.eqb].
  erewrite bind_ok by reflexivity. erewrite bind_ok by reflexivity.
  unfold Image_open. rewrite Ho.
  erewrite bind_ok by apply alloc_run. reflexivity.
Qed.

Lemma api_attempt_no_image E content w :
  http_post E 0 = Response 200 content -> image_open E content = None ->
  api_attempt E 0 w = (Raise UnidentifiedImageError, w).
Proof.
  intros Hp Ho. unfold api_attempt, try_except.
  erewrite bind_ok by reflexivity. rewrite Hp.
  erewrite bind_ok by reflexivity. cbn [fst snd Z.eqb Pos.eqb].
  erewrite bind_ok by reflexivity. erewrite bind_ok by reflexivity.
  unfold Image_open. rewrite Ho. reflexivity.
Qed.

(** No round of the loop ever ends in [continue]: the only branch that would
    (status 503) stops at the unbound name [time]. *)
Lemma api_attempt_never_continues E i w : (api_attempt E i w).1 <> Ok Continue.
Proof.
  unfold api_attempt, try_except.
  erewrite bind_ok by reflexivity.
  destruct (http_post E i) as [status content|]; [|discriminate].
  erewrite bind_ok by reflexivity. cbn [fst snd].
  destruct (Z.eqb_spec status 200).
  - erewrite bind_ok by reflexivity. erewrite bind_ok by reflexivity.
    unfold Image_open. destruct (image_open E content); discriminate.
  - destruct (Z.eqb_spec status 503); discriminate.
Qed.

Lemma api_attempts_first_round E i rest w :
  api_attempts E (i :: rest) w = api_attempts E [i] w.
Proof.
  cbn [api_attempts]. unfold mbind, M_bind.
  pose proof (api_attempt_never_continues E i w) as H.
  destruct (api_attempt E i w) as [[[r| |]|e] w']; try reflexivity.
  now contradiction H.
Qed.

Lemma size_error_none width height :
  0 <= width <= 536870910 -> 0 <= height <= 2147483647 ->
  size_error width height = None.
Proof.
  intros Hw Hh. unfold size_error.
  destruct (Z.ltb_spec width 0); [lia|].
  destruct (Z.ltb_spec height 0); [lia|].
  destruct (Z.ltb_spec 2147483647 width); [lia|].
  destruct (Z.ltb_spec 2147483647 height); [lia|].
  destruct (Z.ltb_spec 536870910 width); [lia|]. reflexivity.
Qed.

(** [create_gradient_background] on every size. *)
Lemma create_gradient_background_any width height color1 color2 w :
  create_gradient_background width height color1 color2 w
  = match size_error width height with
    | Some e => (Raise e, w)
    | None =>
        (Ok (length (heap w)),
         {| heap := heap w ++ [gradient_bitmap width height color1 color2];
            trace := trace w |})
    end.
Proof.
  unfold size_error.
  destruct ((width <? 0) || (height <? 0)) eqn:Eneg.
  { unfold create_gradient_background, Image_new.
    erewrite bind_raise; [reflexivity|]. now rewrite Eneg. }
  destruct ((2147483647 <? width) || (2147483647 <? height)) eqn:Ebig.
  { unfold create_gradient_background, Image_new.
    erewrite bind_raise; [reflexivity|]. now rewrite Eneg, Ebig. }
  destruct (536870910 <? width) eqn:Eline.
  { unfold create_gradient_background, Image_new.
    erewrite bind_raise; [reflexivity|]. now rewrite Eneg, Ebig, Eline. }
  apply orb_false_iff in Eneg as [Hw Hh]. apply Z.ltb_ge in Hw, Hh.
  apply orb_false_iff in Ebig as [Bw Bh]. apply Z.ltb_ge in Bw, Bh.
  apply Z.ltb_ge in Eline.
  apply create_gradient_background_run; lia.
Qed.

(** The ways [create_background_via_api] ends in the fallback. *)
Lemma create_background_falls_back E prompt width height retries w :
  no_token E \/ retries = 0%nat \/ first_attempt_breaks E ->
  create_background_via_api E prompt width height retries w
  = create_fallback_background width height w.
Proof.
  intros H. unfold create_background_via_api.
  erewrite bind_ok by reflexivity.
  destruct (hf_token E) as [[|c token]|] eqn:Et; try reflexivity.
  destruct H as [[H|H]|[->|H]]; try congruence.
  - cbn [seq api_attempts]. erewrite bind_ok by reflexivity. reflexivity.
  - destruct retries as [|k].
    + cbn [seq api_attempts]. erewrite bind_ok by reflexivity. reflexivity.
    + erewrite bind_ok with (a := None) (w' := w); [reflexivity|].
      cbn [seq]. rewrite api_attempts_first_round. cbn [api_attempts].
      erewrite bind_ok by (now apply api_attempt_breaks). reflexivity.
Qed.

Lemma create_background_fallback E prompt width height retries w :
  no_token E \/ retries = 0%nat \/ first_attempt_breaks E ->
  0 <= width <= 536870910 -> 0 <= height <= 2147483647 ->
  create_background_via_api E prompt width height retries w
  = (Ok (length (heap w)),
     {| heap := heap w ++ [fallback_bitmap width height]; trace := trace w |}).
Proof.
  intros H Hw Hh. rewrite create_background_falls_back by exact H.
  now apply create_fallback_background_run.
Qed.

(** The fallback on every size. *)
Lemma create_background_fallback_any E prompt width height retries w :
  no_token E \/ retries = 0%nat \/ first_attempt_breaks E ->
  create_background_via_api E prompt width height retries w
  = match size_error width height with
    | Some e => (Raise e, w)
    | None =>
        (Ok (length (heap w)),
         {| heap := heap w ++ [fallback_bitmap width height];
            trace := trace w |})
    end.
Proof.
  intros H. rewrite create_background_falls_back by exact H.
  apply create_gradient_background_any.
Qed.

(** X1: Without a token (HF_TOKEN unset or empty) [create_background_via_api]
    returns the fallback gradient of the requested size as a new object,
    whatever the provider would have answered and whatever [retries] is;
    for a size [Image.new] refuses (a negative side, a side beyond
    2147483647, a width beyond 536870910) the error of [Image.new] comes out
    instead. *)
Theorem missing_token_gives_the_fallback E prompt width height retries w :
  no_token E ->
  create_background_via_api E prompt width height retries w
  = match size_error width height with
    | Some e => (Raise e, w)
    | None =>
        (Ok (length (heap w)),
         {| heap := heap w ++ [fallback_bitmap width height];
            trace := trace w |})
    end.
Proof. intros H. apply create_background_fallback_any. now left. Qed.

(** X2: When the first request raises a RequestException or is answered with a
    status other than 200 and 503, and also when [retries] is 0, the loop
    is left and the fallback gradient of the requested size is returned;
    for a size [Image.new] refuses (a negative side, a side beyond
    2147483647, a width beyond 536870910) the error of [Image.new] comes out
    instead. *)
Theorem failed_request_gives_the_fallback E prompt width height retries w :
  retries = 0%nat \/ first_attempt_breaks E ->
  create_background_via_api E prompt width height retries w
  = match size_error width height with
    | Some e => (Raise e, w)
    | None =>
        (Ok (length (heap w)),
         {| heap := heap w ++ [fallback_bitmap width height];
            trace := trace w |})
    end.
Proof. intros H. apply create_background_fallback_any. now right. Qed.

Lemma create_background_image E prompt width height retries w token content b :
  hf_token E = Some token -> token <> [] -> (0 < retries)%nat ->
  http_post E 0 = Response 200 content -> image_open E content = Some b ->
  create_background_via_api E prompt width height retries w
  = (Ok (length (heap w)), {| heap := heap w ++ [b]; trace := trace w |}).
Proof.
  intros Ht Hne Hr Hp Ho. unfold create_background_via_api.
  erewrite bind_ok by reflexivity. rewrite Ht.
  destruct token as [|c token]; [contradiction|].
  destruct retries as [|k]; [lia|].
  erewrite bind_ok with (a := Some (length (heap w)));
    [reflexivity|].
  cbn [seq]. rewrite api_attempts_first_round. cbn [api_attempts].
  erewrite bind_ok by (eapply api_attempt_image; eassumption). reflexivity.
Qed.

(** X3: A first answer with status 200 whose body opens as an image makes
    [create_background_via_api] return that image as it is: the requested
    width and height play no part in the size of the background. *)
Theorem answered_image_is_returned_as_is
    E prompt width height retries w token content b :
  hf_token E = Some token -> token <> [] -> (0 < retries)%nat ->
  http_post E 0 = Response 200 content -> image_open E content = Some b ->
  create_background_via_api E prompt width height retries w
  = (Ok (length (heap w)), {| heap := heap w ++ [b]; trace := trace w |}).
Proof. apply create_background_image. Qed.

Lemma create_background_no_image E prompt width height retries w token content :
  hf_token E = Some token -> token <> [] -> (0 < retries)%nat ->
  http_post E 0 = Response 200 content -> image_open E content = None ->
  create_background_via_api E prompt width height retries w
  = (Raise UnidentifiedImageError, w).
Proof.
  intros Ht Hne Hr Hp Ho. unfold create_background_via_api.
  erewrite bind_ok by reflexivity. rewrite Ht.
  destruct token as [|c token]; [contradiction|].
  destruct retries as [|k]; [lia|].
  erewrite bind_raise; [reflexivity|].
  cbn [seq]. rewrite api_attempts_first_round. cbn [api_attempts].
  erewrite bind_raise by (eapply api_attempt_no_image; eassumption). reflexivity.
Qed.

(** X4: The [retries] parameter has no effect beyond the first round: the loop
    never reaches a second request, since a round ends in [return], in
    [break] or in an exception. *)
Theorem retries_beyond_the_first_are_never_made
    E prompt width height retries w :
  (0 < retries)%nat ->
  create_background_via_api E prompt width height retries w
  = create_background_via_api E prompt width height 1 w.
Proof.
  intros Hr. destruct retries as [|k]; [lia|].
  unfold create_background_via_api.
  erewrite !bind_ok by reflexivity.
  destruct (hf_token E) as [[|c token]|]; try reflexivity.
  unfold mbind, M_bind. cbn [seq]. now rewrite api_attempts_first_round.
Qed.

(** ** [process_logo] on any logo, and the entry point *)

Lemma process_logo_try_run_any E logo b max_size target w :
  heap w !! logo = Some b -> im_fault b = false -> has_Resampling E = true ->
  preserve_aspect_ratio (im_width b) (im_height b) max_size max_size = Ok target ->
  thumbnail_refused b target = false ->
  let t := thumbnail_of E b target in
  process_logo_try E logo max_size w
  = if bool_decide (im_mode b <> RGBA)
    then (Ok (Some (S (length (heap w)))),
          {| heap := heap w ++ [t; convert_bitmap RGBA t]; trace := trace w |})
    else (Ok (Some (length (heap w))),
          {| heap := heap w ++ [t]; trace := trace w |}).
Proof.
  intros H Hf Hr Ht Hs t. unfold process_logo_try.
  erewrite bind_ok by (apply Image_copy_run; eassumption).
  unfold Image_Resampling_LANCZOS. rewrite Hr.
  erewrite bind_ok by reflexivity.
  erewrite bind_ok; cycle 1.
  { eapply Image_thumbnail_run;
      [apply lookup_new | exact Hf | exact Ht | exact Hs]. }
  cbn [heap trace]. rewrite insert_new. fold t.
  erewrite bind_ok; cycle 1.
  { apply Image_mode_run. cbn [heap]. apply lookup_new. }
  rewrite (bool_decide_ext (im_mode t <> RGBA) (im_mode b <> RGBA))
    by (unfold t; now rewrite thumbnail_of_mode).
  destruct (bool_decide (im_mode b <> RGBA)); [|reflexivity].
  erewrite bind_ok; cycle 1.
  { apply Image_convert_run; cbn [heap];
      [apply lookup_new | now apply thumbnail_of_fault]. }
  cbn [heap trace length]. rewrite length_app. cbn [length].
  rewrite <- app_assoc. cbn [app].
  replace (length (heap w) + 1)%nat with (S (length (heap w))) by lia.
  reflexivity.
Qed.

(** The ways the [try] block of [process_logo] ends in an exception. *)
Lemma process_logo_try_raises E logo max_size w :
  match heap w !! logo with
  | None => True
  | Some b =>
      im_fault b = true \/ has_Resampling E = false
      \/ (exists e, preserve_aspect_ratio (im_width b) (im_height b)
                      max_size max_size = Raise e)
      \/ (exists target, preserve_aspect_ratio (im_width b) (im_height b)
                           max_size max_size = Ok target
                         /\ thumbnail_refused b target = true)
  end ->
  exists e w', process_logo_try E logo max_size w = (Raise e, w').
Proof.
  unfold process_logo_try. destruct (heap w !! logo) as [b|] eqn:Hl.
  - destruct (im_fault b) eqn:Hf.
    { intros _. do 2 eexists. erewrite bind_raise; [reflexivity|].
      unfold Image_copy. erewrite bind_raise; [reflexivity|].
      unfold load. erewrite bind_ok by (apply deref_run; exact Hl).
      rewrite Hf. reflexivity. }
    erewrite bind_ok by (apply Image_copy_run; eassumption).
    unfold Image_Resampling_LANCZOS.
    destruct (has_Resampling E).
    + intros [?|[?|[[e He]|(target & He & Hs)]]]; try discriminate.
      * erewrite bind_ok by reflexivity.
        do 2 eexists. erewrite bind_raise; [reflexivity|].
        unfold Image_thumbnail.
        erewrite bind_ok by (apply deref_run; cbn [heap]; apply lookup_new).
        erewrite bind_raise; [reflexivity|].
        unfold lift. cbn [fst snd]. rewrite He. reflexivity.
      * erewrite bind_ok by reflexivity.
        do 2 eexists. erewrite bind_raise; [reflexivity|].
        unfold Image_thumbnail.
        erewrite bind_ok by (apply deref_run; cbn [heap]; apply lookup_new).
        erewrite bind_ok
          by (unfold lift; cbn [fst snd]; rewrite He; reflexivity).
        destruct target as [new_size|]; [|discriminate].
        cbn [thumbnail_refused] in Hs.
        erewrite bind_ok
          by (apply load_run; [cbn [heap]; apply lookup_new | exact Hf]).
        destruct (bool_decide _); [discriminate|].
        cbn [negb andb] in Hs. rewrite Hs. reflexivity.
    + intros _. do 2 eexists. erewrite bind_raise; reflexivity.
  - intros _. do 2 eexists. erewrite bind_raise; [reflexivity|].
    unfold Image_copy. erewrite bind_raise; [reflexivity|].
    unfold load. erewrite bind_raise; [reflexivity|].
    unfold deref. rewrite Hl. reflexivity.
Qed.

(** [process_logo] always returns, leaves every existing object alone, and
    what it returns is absent or a new RGBA bitmap that loads. *)
Lemma process_logo_outcome E logo max_size w :
  exists o lgo w',
    process_logo E logo max_size w = (Ok o, w')
    /\ frame (length (heap w)) w w'
    /\ processed_logo_at w' o lgo.
Proof.
  pose proof (keeps_process_logo (length (heap w)) E logo max_size w (le_n _))
    as [F _].
  destruct logo as [l|]; [|exists None, None, w; now split].
  assert (Hfail : (exists e w', process_logo_try E l max_size w = (Raise e, w')) ->
                  exists o lgo w',
                    process_logo E (Some l) max_size w = (Ok o, w')
                    /\ frame (length (heap w)) w w'
                    /\ processed_logo_at w' o lgo).
  { intros (e & w' & He). exists None, None, w'.
    unfold process_logo, try_except in *. rewrite He in *. now split. }
  destruct (heap w !! l) as [b|] eqn:Hl;
    [|apply Hfail, process_logo_try_raises; now rewrite Hl].
  destruct (im_fault b) eqn:Hf;
    [apply Hfail, process_logo_try_raises; rewrite Hl; now left|].
  destruct (has_Resampling E) eqn:HR;
    [|apply Hfail, process_logo_try_raises; rewrite Hl; right; now left].
  destruct (preserve_aspect_ratio (im_width b) (im_height b) max_size max_size)
    as [target|e] eqn:Hp;
    [|apply Hfail, process_logo_try_raises; rewrite Hl; right; right; left;
      now exists e].
  destruct (thumbnail_refused b target) eqn:Hs;
    [apply Hfail, process_logo_try_raises; rewrite Hl; right; right; right;
     now exists target|].
  clear Hfail. unfold process_logo, try_except in *.
  rewrite (process_logo_try_run_any E l b max_size target w Hl Hf HR Hp Hs) in *.
  set (t := thumbnail_of E b target) in *.
  destruct (bool_decide (im_mode b <> RGBA)) eqn:Em.
  - exists (Some (S (length (heap w)))), (Some (convert_bitmap RGBA t)).
    eexists. split; [reflexivity|]. split; [exact F|].
    cbn [processed_logo_at heap]. split; [|done].
    change (heap w ++ [t; convert_bitmap RGBA t])
      with (heap w ++ [t] ++ [convert_bitmap RGBA t]).
    rewrite app_assoc.
    replace (S (length (heap w))) with (length (heap w ++ [t]))
      by (rewrite length_app; cbn; lia).
    apply lookup_new.
  - exists (Some (length (heap w))), (Some t).
    eexists. split; [reflexivity|]. split; [exact F|].
    cbn [processed_logo_at heap]. split; [apply lookup_new|].
    split; [unfold t; now apply thumbnail_of_fault|].
    unfold t. rewrite thumbnail_of_mode.
    apply bool_decide_eq_false in Em.
    destruct (decide (im_mode b = RGBA)); [done | contradiction].
Qed.

Lemma gradient_bitmap_shape width height color1 color2 :
  let g := gradient_bitmap width height color1 color2 in
  im_mode g = RGB /\ im_width g = width /\ im_height g = height
  /\ im_fault g = false.
Proof.
  unfold gradient_bitmap.
  apply (foldl_paint_row_shape width height color1 color2 (range 0 height)
           (solid RGB width height (0, 0, 0, 0))).
Qed.

(** Every size the table of [generate_simple_poster] can give. *)
Lemma aspect_ratio_size label :
  let size := dict_get aspect_ratios label (1024, 1024) in
  576 <= size.1 <= 1024 /\ 576 <= size.2 <= 1024
  /\ Z.max size.1 size.2 = 1024.
Proof.
  unfold aspect_ratios. cbn [dict_get].
  repeat destruct (bool_decide _); cbn [fst snd]; lia.
Qed.

(** The entry point once the background is there. *)
Lemma generate_simple_poster_run
    E prompt subtitle details logo_image aspect_ratio w bg :
  fonts_ready E (im_width bg) (im_height bg) -> usable bg ->
  (let size := dict_get aspect_ratios aspect_ratio (1024, 1024) in
   create_background_via_api E prompt size.1 size.2 3 w
   = (Ok (length (heap w)), {| heap := heap w ++ [bg]; trace := trace w |})) ->
  exists r out w',
    generate_simple_poster E prompt subtitle details logo_image aspect_ratio w
    = (Ok r, w')
    /\ heap w' !! r = Some out
    /\ im_mode out = RGB
    /\ im_width out = im_width bg /\ im_height out = im_height bg
    /\ (length (heap w) < r)%nat
    /\ heap w' !! length (heap w) = Some bg
    /\ forall k, (k < length (heap w))%nat -> heap w' !! k = heap w !! k.
Proof.
  intros HE Hu Hbg. cbv zeta in Hbg. unfold generate_simple_poster.
  destruct (dict_get aspect_ratios aspect_ratio (1024, 1024)) as [width height].
  cbn [fst snd] in Hbg. erewrite bind_ok by exact Hbg.
  set (w1 := {| heap := heap w ++ [bg]; trace := trace w |}).
  destruct (process_logo_outcome E logo_image 200 w1)
    as (o & lgo & w2 & Hrun & [Flen F] & Hlogo).
  erewrite bind_ok by exact Hrun.
  assert (Hn : heap w2 !! length (heap w) = Some bg).
  { rewrite F by (unfold w1; cbn [heap]; rewrite length_app; cbn; lia).
    unfold w1. cbn [heap]. apply lookup_new. }
  assert (Hlen : (length (heap w) < length (heap w2))%nat)
    by (eapply lookup_lt_Some, Hn).
  rewrite (apply_text_layout_run E (length (heap w)) subtitle details o lgo bg
             w2 Hn Hu HE Hlogo).
  do 3 eexists. split; [reflexivity|]. cbn [heap].
  split; [apply (lookup_tail_Some (heap w2) _ 6); reflexivity|].
  unfold poster_of.
  cbn [convert_bitmap alpha_composite_bitmap im_mode im_width im_height].
  split; [reflexivity|].
  split; [now destruct lgo|]. split; [now destruct lgo|].
  split; [lia|]. split; [now apply lookup_app_l_Some|].
  intros k Hk. rewrite lookup_app_l by lia.
  rewrite F by (unfold w1; cbn [heap]; rewrite length_app; cbn; lia).
  unfold w1. cbn [heap]. now rewrite lookup_app_l by lia.
Qed.

(** X5: Whenever no background comes from the provider (no token, a failed
    request or an error status), [generate_simple_poster] still returns: for
    every prompt, subtitle, details, logo (absent, usable or broken) and
    aspect-ratio label it hands back a new RGB poster whose size is the
    table's entry for the label, (1024, 1024) for an unknown label, drawn on
    the fallback gradient, and it leaves every existing object as it was. *)
Theorem poster_without_the_provider
    E prompt subtitle details logo_image aspect_ratio w :
  font_faults_are_IOError E -> no_token E \/ first_attempt_breaks E ->
  exists r out w',
    generate_simple_poster E prompt subtitle details logo_image aspect_ratio w
    = (Ok r, w')
    /\ heap w' !! r = Some out
    /\ im_mode out = RGB
    /\ (im_width out, im_height out)
       = dict_get aspect_ratios aspect_ratio (1024, 1024)
    /\ 576 <= im_width out <= 1024 /\ 576 <= im_height out <= 1024
    /\ (length (heap w) < r)%nat
    /\ heap w' !! length (heap w)
       = Some (fallback_bitmap (im_width out) (im_height out))
    /\ forall k, (k < length (heap w))%nat -> heap w' !! k = heap w !! k.
Proof.
  intros HE Hno.
  pose proof (aspect_ratio_size aspect_ratio) as Hs. cbv zeta in Hs.
  destruct (dict_get aspect_ratios aspect_ratio (1024, 1024))
    as [width height] eqn:Es.
  cbn [fst snd] in Hs.
  destruct (gradient_bitmap_shape width height (100, 150, 255) (150, 200, 255))
    as (Sm & Sw & Sh & Sf).
  destruct (generate_simple_poster_run E prompt subtitle details logo_image
              aspect_ratio w (fallback_bitmap width height)
              (font_faults_ready E _ _ HE))
    as (r & out & w' & Hrun & Hout & Hm & Hwd & Hht & Hr & Hbg & Hfr).
  - unfold usable, fallback_bitmap. rewrite Sw, Sh, Sf. repeat split; lia.
  - rewrite Es. cbn [fst snd]. apply create_background_fallback; [|lia|lia].
    destruct Hno as [H|H]; [now left | now right; right].
  - exists r, out, w'. unfold fallback_bitmap in Hwd, Hht.
    rewrite Sw in Hwd. rewrite Sh in Hht. rewrite Hwd, Hht.
    repeat (split; [assumption || reflexivity || lia|]). exact Hfr.
Qed.

(** X6: When the provider answers the first request with status 200 and a body
    that opens as a usable image, and the two fonts of a layout of that
    image's size load or fall back, the poster has the size of that image,
    whatever the aspect-ratio label asked for. *)
Theorem poster_has_the_size_of_the_answered_image
    E prompt subtitle details logo_image aspect_ratio w token content b :
  fonts_ready E (im_width b) (im_height b) ->
  hf_token E = Some token -> token <> [] ->
  http_post E 0 = Response 200 content -> image_open E content = Some b ->
  usable b ->
  exists r out w',
    generate_simple_poster E prompt subtitle details logo_image aspect_ratio w
    = (Ok r, w')
    /\ heap w' !! r = Some out
    /\ im_mode out = RGB
    /\ im_width out = im_width b /\ im_height out = im_height b
    /\ forall k, (k < length (heap w))%nat -> heap w' !! k = heap w !! k.
Proof.
  intros HE Ht Hne Hp Ho Hu.
  destruct (generate_simple_poster_run E prompt subtitle details logo_image
              aspect_ratio w b HE Hu)
    as (r & out & w' & Hrun & Hout & Hm & Hwd & Hht & Hr & Hbg & Hfr).
  - cbv zeta. eapply create_background_image; eauto.
  - exists r, out, w'. repeat (split; [assumption|]). exact Hfr.
Qed.

(** X7: A first answer with status 200 whose body is no image makes the entry
    point raise: UnidentifiedImageError from [Image.open] when the bytes are
    not recognised (it is no RequestException, so line 46 does not catch
    it), OSError from the first [load] in [apply_text_layout] when the file
    opens but its pixel data cannot be decoded. *)
Theorem undecodable_answer_raises
    E prompt subtitle details logo_image aspect_ratio w token content :
  hf_token E = Some token -> token <> [] ->
  http_post E 0 = Response 200 content ->
  match image_open E content with
  | None =>
      generate_simple_poster E prompt subtitle details logo_image aspect_ratio w
      = (Raise UnidentifiedImageError, w)
  | Some b =>
      im_fault b = true ->
      (generate_simple_poster E prompt subtitle details logo_image
         aspect_ratio w).1 = Raise OSError
  end.
Proof.
  intros Ht Hne Hp. unfold generate_simple_poster.
  destruct (dict_get aspect_ratios aspect_ratio (1024, 1024)) as [width height].
  destruct (image_open E content) as [b|] eqn:Ho.
  - intros Hf.
    erewrite bind_ok by (eapply create_background_image; eauto).
    set (w1 := {| heap := heap w ++ [b]; trace := trace w |}).
    destruct (process_logo_outcome E logo_image 200 w1)
      as (o & lgo & w2 & Hrun & [Flen F] & Hlogo).
    erewrite bind_ok by exact Hrun.
    assert (Hn : heap w2 !! length (heap w) = Some b).
    { rewrite F by (unfold w1; cbn [heap]; rewrite length_app; cbn; lia).
      unfold w1. cbn [heap]. apply lookup_new. }
    unfold apply_text_layout, text_layout.
    erewrite bind_raise; [reflexivity|].
    unfold Image_copy. erewrite bind_raise; [reflexivity|].
    unfold load. erewrite bind_ok by (apply deref_run; exact Hn).
    rewrite Hf. reflexivity.
  - erewrite bind_raise; [reflexivity|].
    eapply create_background_no_image; eauto.
Qed.

(** ** The gradient at its edges *)

Lemma gradient_bitmap_pixel width height color1 color2 x y :
  valid_colour color1 -> valid_colour color2 ->
  0 <= x < width -> 0 <= y < height ->
  let ratio := true_quotient y height in
  getpixel (gradient_bitmap width height color1 color2) x y
  = Some [gradient_channel color1.1.1 color2.1.1 ratio;
          gradient_channel color1.1.2 color2.1.2 ratio;
          gradient_channel color1.2 color2.2 ratio].
Proof.
  intros Hc1 Hc2 Hx Hy ratio.
  destruct (gradient_bitmap_shape width height color1 color2)
    as (Sm & Sw & Sh & _).
  destruct color1 as [[r1 g1] b1], color2 as [[r2 g2] b2].
  destruct Hc1 as (Hr1 & Hg1 & Hb1), Hc2 as (Hr2 & Hg2 & Hb2).
  unfold getpixel, in_bounds. rewrite Sm, Sw, Sh.
  destruct (Z.leb_spec 0 x); [|lia]. destruct (Z.ltb_spec x width); [|lia].
  destruct (Z.leb_spec 0 y); [|lia]. destruct (Z.ltb_spec y height); [|lia].
  cbn [andb]. unfold gradient_bitmap.
  rewrite foldl_paint_row_data by (try apply range_elem; lia).
  unfold ink_of, gradient_colour. cbn [fst snd bands]. fold ratio.
  pose proof (true_quotient_unit y height Hy) as Hr. fold ratio in Hr.
  rewrite !clip8_id by (apply gradient_channel_range; assumption).
  reflexivity.
Qed.

(** X8: [create_gradient_background] at the edges of its size arguments: a
    negative side is refused by [Image.new] with ValueError, a side beyond
    2147483647 (a C int) with OverflowError, a width beyond 536870910 with
    MemoryError, each before anything is allocated; every other size gives
    an RGB image of that size: a side of 0 gives an empty image, and with
    height 0 the loop body, and so the division by [height], is never
    reached. *)
Theorem gradient_of_any_size width height color1 color2 w :
  valid_colour color1 -> valid_colour color2 ->
  let run := create_gradient_background width height color1 color2 w in
  if (width <? 0) || (height <? 0) then run = (Raise ValueError, w)
  else if (2147483647 <? width) || (2147483647 <? height)
  then run = (Raise OverflowError, w)
  else if 536870910 <? width then run = (Raise MemoryError, w)
  else exists g,
         run = (Ok (length (heap w)),
                {| heap := heap w ++ [g]; trace := trace w |})
         /\ im_mode g = RGB /\ im_width g = width /\ im_height g = height.
Proof.
  intros _ _ run. unfold run.
  destruct ((width <? 0) || (height <? 0)) eqn:Eneg.
  { unfold create_gradient_background, Image_new.
    erewrite bind_raise; [reflexivity|]. now rewrite Eneg. }
  destruct ((2147483647 <? width) || (2147483647 <? height)) eqn:Ebig.
  { unfold create_gradient_background, Image_new.
    erewrite bind_raise; [reflexivity|]. now rewrite Eneg, Ebig. }
  destruct (536870910 <? width) eqn:Eline.
  { unfold create_gradient_background, Image_new.
    erewrite bind_raise; [reflexivity|]. now rewrite Eneg, Ebig, Eline. }
  apply orb_false_iff in Eneg as [Hw Hh]. apply Z.ltb_ge in Hw, Hh.
  apply orb_false_iff in Ebig as [Bw Bh]. apply Z.ltb_ge in Bw, Bh.
  apply Z.ltb_ge in Eline.
  exists (gradient_bitmap width height color1 color2).
  split; [apply create_gradient_background_run; lia|].
  destruct (gradient_bitmap_shape width height color1 color2)
    as (Sm & Sw & Sh & _). auto.
Qed.

Section GradientBounds.
Local Open Scope Q_scope.

(** Between two different channel values the truncated interpolation stays
    within them and never reaches a brighter bottom value; between two equal
    values it is that value or, by a rounding error of the float expression,
    one less. *)
Lemma gradient_channel_between c1 c2 y h :
  (0 <= c1 <= 255)%Z -> (0 <= c2 <= 255)%Z -> (0 <= y < h)%Z ->
  (h < 10 ^ 9)%Z ->
  between_ends c1 c2 (gradient_channel c1 c2 (true_quotient y h)).
Proof.
  intros H1 H2 Hy Hh.
  pose proof (gradient_channel_near_exact c1 c2 y h H1 H2 Hy) as [Lo Up].
  cbv zeta in Lo, Up.
  set (v := gradient_channel c1 c2 (true_quotient y h)) in *.
  assert (Hpos : 0 < inject_Z h) by (apply inject_Z_pos; lia).
  set (d := / inject_Z h).
  assert (Hd : inject_Z h * d == 1) by (apply Qmult_inv_r; lra).
  assert (Hq : inject_Z y / inject_Z h == inject_Z y * d) by reflexivity.
  rewrite Hq in Lo, Up.
  assert (D0 : 0 < d) by (apply Qinv_lt_0_compat; exact Hpos).
  assert (D9 : (1 # 1000000000) < d).
  { assert (Hh9 : inject_Z h < 1000000000).
    { change 1000000000 with (inject_Z (10 ^ 9)). rewrite <- Zlt_Qlt. lia. }
    assert (K : inject_Z h * (1 # 1000000000) < inject_Z h * d).
    { rewrite Hd. lra. }
    destruct (Qlt_le_dec (1 # 1000000000) d) as [|Hle]; [assumption|exfalso].
    assert (inject_Z h * d <= inject_Z h * (1 # 1000000000))
      by (apply Qmult_le_nonneg_l; lra).
    lra. }
  set (q := inject_Z y * d) in *.
  assert (Q0 : 0 <= q).
  { apply Qmult_le_0_compat; [|lra].
    change 0 with (inject_Z 0). rewrite <- Zle_Qle. lia. }
  assert (Q1 : q <= 1 - d).
  { assert (Hy1 : inject_Z y <= inject_Z h - 1).
    { assert (E : inject_Z y <= inject_Z (h + -1)) by (rewrite <- Zle_Qle; lia).
      rewrite inject_Z_plus in E. change (inject_Z (-1)) with (-1) in E. lra. }
    assert (K : inject_Z y * d <= (inject_Z h - 1) * d)
      by (apply Qmult_le_compat_r; lra).
    unfold q. lra. }
  assert (Qd : (1 <= y)%Z -> d <= q).
  { intros Hy1. assert (E : 1 <= inject_Z y).
    { change 1 with (inject_Z 1). rewrite <- Zle_Qle. lia. }
    assert (K : 1 * d <= inject_Z y * d) by (apply Qmult_le_compat_r; lra).
    unfold q. lra. }
  unfold between_ends.
  destruct (Z.ltb_spec c1 c2) as [Hlt|Hge].
  - (* a brighter bottom *)
    assert (E : 1 <= inject_Z c2 - inject_Z c1).
    { assert (E : inject_Z (c1 + 1) <= inject_Z c2) by (rewrite <- Zle_Qle; lia).
      rewrite inject_Z_plus in E. change (inject_Z 1) with 1 in E. lra. }
    assert (K1 : (inject_Z c2 - inject_Z c1) * q
                 <= (inject_Z c2 - inject_Z c1) * (1 - d))
      by (apply Qmult_le_nonneg_l; lra).
    assert (K2 : 1 * d <= (inject_Z c2 - inject_Z c1) * d)
      by (apply Qmult_le_compat_r; lra).
    split.
    + destruct (Z.eq_dec y 0%Z) as [->|Hy0].
      * unfold v. rewrite gradient_channel_top by lia. lia.
      * specialize (Qd ltac:(lia)).
        assert (K3 : 1 * q <= (inject_Z c2 - inject_Z c1) * q)
          by (apply Qmult_le_compat_r; lra).
        apply Zle_of_Qlt. lra.
    + assert (v + 1 <= c2)%Z; [|lia].
      apply Zle_of_Qlt. rewrite inject_Z_plus.
      change (inject_Z 1) with 1. lra.
  - destruct (Z.ltb_spec c2 c1) as [Hlt|Hge'].
    + (* a darker bottom *)
      assert (E : 1 <= inject_Z c1 - inject_Z c2).
      { assert (E : inject_Z (c2 + 1) <= inject_Z c1) by (rewrite <- Zle_Qle; lia).
        rewrite inject_Z_plus in E. change (inject_Z 1) with 1 in E. lra. }
      assert (K1 : 0 <= (inject_Z c1 - inject_Z c2) * q)
        by (apply Qmult_le_0_compat; lra).
      assert (K2 : 1 * (1 - q) <= (inject_Z c1 - inject_Z c2) * (1 - q))
        by (apply Qmult_le_compat_r; lra).
      split; [apply Zle_of_Qlt | apply Zle_of_Qlt_succ]; lra.
    + assert (c1 = c2) by lia. subst c2.
      split; [|apply Zle_of_Qlt_succ; lra].
      assert (c1 <= v + 1)%Z; [|lia].
      apply Zle_of_Qlt. rewrite inject_Z_plus.
      change (inject_Z 1) with 1. lra.
Qed.

End GradientBounds.

(** X9: For heights below 10^9 the gradient never leaves the range of its two
    colours: a channel that grows down the image starts at the top value and
    never reaches the bottom value, a channel that shrinks stays within both
    values, and a channel with equal ends holds that value or one less.
    (A width [Image.new] refuses, one beyond 536870910, gives no gradient but
    the error of [Image.new].) *)
Theorem gradient_stays_between_its_colours width height color1 color2 w :
  valid_colour color1 -> valid_colour color2 ->
  0 < width -> 0 < height < 10 ^ 9 ->
  match size_error width height with
  | Some e =>
      create_gradient_background width height color1 color2 w = (Raise e, w)
  | None =>
      exists g,
        create_gradient_background width height color1 color2 w
        = (Ok (length (heap w)), {| heap := heap w ++ [g]; trace := trace w |})
        /\ forall x y, 0 <= x < width -> 0 <= y < height ->
             exists r g' b,
               getpixel g x y = Some [r; g'; b]
               /\ between_ends color1.1.1 color2.1.1 r
               /\ between_ends color1.1.2 color2.1.2 g'
               /\ between_ends color1.2 color2.2 b
  end.
Proof.
  intros Hc1 Hc2 Hw Hh.
  pose proof (create_gradient_background_any width height color1 color2 w)
    as Hrun.
  destruct (size_error width height) as [e|]; [exact Hrun|].
  exists (gradient_bitmap width height color1 color2).
  split; [exact Hrun|].
  intros x y Hx Hy. do 3 eexists.
  split; [now apply gradient_bitmap_pixel|].
  destruct color1 as [[r1 g1] b1], color2 as [[r2 g2] b2].
  destruct Hc1 as (Hr1 & Hg1 & Hb1), Hc2 as (Hr2 & Hg2 & Hb2).
  cbn [fst snd].
  repeat split; apply gradient_channel_between; assumption || lia.
Qed.

(** X10: The fallback background of any size below 10^9 rows is an RGB image
    whose top row is (100, 150, 255) and whose pixels have red in 100..149,
    green in 150..199 and blue 254 or 255: the bottom colour (150, 200, 255)
    is approached but never painted.  (A width [Image.new] refuses, one
    beyond 536870910, gives no background but the error of [Image.new].) *)
Theorem fallback_background_colours width height w :
  0 < width -> 0 < height < 10 ^ 9 ->
  match size_error width height with
  | Some e => create_fallback_background width height w = (Raise e, w)
  | None =>
      exists g,
        create_fallback_background width height w
        = (Ok (length (heap w)), {| heap := heap w ++ [g]; trace := trace w |})
        /\ im_mode g = RGB /\ im_width g = width /\ im_height g = height
        /\ (forall x, 0 <= x < width -> getpixel g x 0 = Some [100; 150; 255])
        /\ forall x y, 0 <= x < width -> 0 <= y < height ->
             exists r g' b,
               getpixel g x y = Some [r; g'; b]
               /\ 100 <= r <= 149 /\ 150 <= g' <= 199 /\ 254 <= b <= 255
  end.
Proof.
  intros Hw Hh.
  pose proof (create_gradient_background_any width height (100, 150, 255)
                (150, 200, 255) w) as Hrun.
  fold (create_fallback_background width height) in Hrun.
  fold (fallback_bitmap width height) in Hrun.
  destruct (size_error width height) as [e|]; [exact Hrun|].
  exists (fallback_bitmap width height).
  split; [exact Hrun|].
  destruct (gradient_bitmap_shape width height (100, 150, 255) (150, 200, 255))
    as (Sm & Sw & Sh & _).
  do 3 (split; [assumption|]).
  assert (V1 : valid_colour (100, 150, 255)) by (cbn; lia).
  assert (V2 : valid_colour (150, 200, 255)) by (cbn; lia).
  split.
  - intros x Hx. unfold fallback_bitmap.
    rewrite gradient_bitmap_pixel by (assumption || lia). cbn [fst snd].
    now rewrite !gradient_channel_top by lia.
  - intros x y Hx Hy. do 3 eexists. unfold fallback_bitmap.
    split; [now apply gradient_bitmap_pixel|]. cbn [fst snd].
    pose proof (gradient_channel_between 100 150 y height) as Br.
    pose proof (gradient_channel_between 150 200 y height) as Bg.
    pose proof (gradient_channel_between 255 255 y height) as Bb.
    unfold between_ends in Br, Bg, Bb. cbn [Z.ltb Z.compare Pos.compare Pos.compare_cont] in Br, Bg, Bb.
    specialize (Br ltac:(lia) ltac:(lia) ltac:(lia) ltac:(lia)).
    specialize (Bg ltac:(lia) ltac:(lia) ltac:(lia) ltac:(lia)).
    specialize (Bb ltac:(lia) ltac:(lia) ltac:(lia) ltac:(lia)).
    lia.
Qed.

(** X11: For images with sides below 2^31 the float expressions of lines 121-128
    and 138 are integer divisions: with base = min(width, height) // 15 the
    subtitle size is 4 * base // 5, the details size base // 2, the spacing
    under the subtitle 6 * base // 5 and the step between detail lines
    3 * (base // 2) // 2. *)
Theorem layout_sizes_are_integer_fractions width height :
  0 <= width < 2 ^ 31 -> 0 <= height < 2 ^ 31 ->
  let base := Z.min width height / 15 in
  subtitle_size width height = 4 * base / 5
  /\ details_size width height = base / 2
  /\ spacing width height = 6 * base / 5
  /\ line_step width height = 3 * (base / 2) / 2.
Proof.
  intros Hw Hh base.
  assert (Hb : 0 <= base < 2 ^ 31).
  { unfold base. split; [apply Z.div_pos; lia|].
    apply Z.div_lt_upper_bound; lia. }
  assert (Hd : 0 <= base / 2 < 2 ^ 31).
  { split; [apply Z.div_pos; lia|]. apply Z.div_lt_upper_bound; lia. }
  unfold subtitle_size, details_size, spacing, line_step, details_size,
    base_size. fold base.
  rewrite scaled_0_8, scaled_1_2, !scaled_0_5, scaled_1_5 by assumption.
  repeat split; reflexivity.
Qed.

(** ** The draw calls of the layout *)

Lemma length_outlined_calls draw text font fill outline x y :
  length (outlined_calls draw text font fill outline x y) = 25%nat.
Proof. reflexivity. Qed.

Lemma length_detail_calls E draw font width y step lines :
  length (detail_calls E draw font width y step lines)
  = (25 * length lines)%nat.
Proof.
  revert y. induction lines as [|line rest IH]; intros y; [reflexivity|].
  cbn [detail_calls]. rewrite length_app, IH.
  unfold line_calls. rewrite length_outlined_calls. cbn [length]. lia.
Qed.

Lemma text_block_nil : text_block [] = [].
Proof. reflexivity. Qed.

Lemma length_layout_calls E draw width height subtitle details :
  length (layout_calls E draw width height subtitle details)
  = (25 * lines_drawn subtitle details)%nat.
Proof.
  unfold layout_calls, lines_drawn. rewrite length_app.
  rewrite details_lines_text_block.
  assert (Hd : length (if truthy details
                       then detail_calls E draw
                              (font_of E (details_size width height)) width
                              (details_start width height subtitle)
                              (line_step width height) (text_block details)
                       else [])
               = (25 * length (text_block details))%nat).
  { destruct details as [|c s]; [reflexivity|].
    cbn [truthy]. apply length_detail_calls. }
  rewrite Hd. destruct (truthy subtitle).
  - unfold line_calls. rewrite length_outlined_calls. lia.
  - cbn [length]. lia.
Qed.

Lemma outlined_calls_text draw text font fill outline x y :
  Forall (fun c => tc_text c = text)
    (outlined_calls draw text font fill outline x y).
Proof.
  unfold outlined_calls. apply Forall_app. split.
  - apply Forall_fmap, Forall_true. done.
  - now repeat constructor.
Qed.

Lemma detail_calls_text E draw font width y step lines :
  Forall (fun c => tc_text c ∈ lines)
    (detail_calls E draw font width y step lines).
Proof.
  revert y. induction lines as [|line rest IH]; intros y;
    cbn [detail_calls]; [constructor|].
  apply Forall_app. split.
  - eapply Forall_impl; [apply outlined_calls_text|].
    intros c ->. apply list_elem_of_here.
  - eapply Forall_impl; [apply IH|].
    intros c Hc. now apply list_elem_of_further.
Qed.

Lemma layout_calls_text E draw width height subtitle details :
  Forall (fun c => tc_text c = subtitle \/ tc_text c ∈ text_block details)
    (layout_calls E draw width height subtitle details).
Proof.
  unfold layout_calls. rewrite details_lines_text_block.
  apply Forall_app. split.
  - destruct (truthy subtitle); [|constructor].
    eapply Forall_impl; [apply outlined_calls_text|]. intros c ->. now left.
  - destruct (truthy details); [|constructor].
    eapply Forall_impl; [apply detail_calls_text|]. intros c Hc. now right.
Qed.

(** X12: Where the two fonts of the layout load or fall back,
    [apply_text_layout] makes exactly 25 [draw.text] calls for each line it
    draws (the subtitle when it is not empty, and each trimmed non-empty
    line of the details); every one of them draws on the overlay, the third
    object the call creates, and its text is the subtitle as given or one of
    the trimmed detail lines. *)
Theorem every_line_costs_25_draws
    E image subtitle details logo lgo bg w :
  heap w !! image = Some bg -> usable bg ->
  fonts_ready E (im_width bg) (im_height bg) ->
  processed_logo_at w logo lgo ->
  exists drawn,
    trace (apply_text_layout E image subtitle details logo w).2
    = trace w ++ drawn
    /\ length drawn = (25 * lines_drawn subtitle details)%nat
    /\ Forall (fun c => tc_target c = (length (heap w) + 2)%nat
                        /\ (tc_text c = subtitle
                            \/ tc_text c ∈ text_block details)) drawn.
Proof.
  intros Hbg Hu HE Hlogo.
  rewrite (apply_text_layout_run E image subtitle details logo lgo bg w
             Hbg Hu HE Hlogo).
  eexists. split; [reflexivity|]. split; [apply length_layout_calls|].
  apply Forall_and. split; [apply layout_calls_target | apply layout_calls_text].
Qed.

(** ** The darkening layer *)

Lemma darken_channel d :
  0 <= d <= 255 ->
  Z.shiftr (shift_for_div255 (d * 22400 + 16384)) 7 = darkened_channel d.
Proof.
  intros Hd. apply Z.eqb_eq.
  apply (byte_forall
           (fun d => Z.shiftr (shift_for_div255 (d * 22400 + 16384)) 7
                     =? darkened_channel d));
    [vm_compute; reflexivity | exact Hd].
Qed.

(** Black at alpha 80 over an opaque pixel. *)
Lemma darken_opaque r g b :
  0 <= r <= 255 -> 0 <= g <= 255 -> 0 <= b <= 255 ->
  alpha_composite_pixel (r, g, b, 255) (0, 0, 0, 80)
  = (darkened_channel r, darkened_channel g, darkened_channel b, 255).
Proof.
  intros Hr Hg Hb. unfold alpha_composite_pixel.
  change (80 =? 0) with false. cbv iota.
  change (80 * 255 + 255 * (255 - 80)) with 65025.
  change (80 * 255 * 255 * 128 / 65025) with 10240.
  change (255 * 128 - 10240) with 22400.
  change (shift_for_div255 (65025 + 128)) with 255.
  replace (0 * 10240 + r * 22400 + 128 * 128) with (r * 22400 + 16384) by lia.
  replace (0 * 10240 + g * 22400 + 128 * 128) with (g * 22400 + 16384) by lia.
  replace (0 * 10240 + b * 22400 + 128 * 128) with (b * 22400 + 16384) by lia.
  now rewrite !darken_channel by assumption.
Qed.

Lemma darkened_channel_bounds c :
  0 <= c <= 255 ->
  0 <= darkened_channel c <= c /\ darkened_channel c <= 175.
Proof.
  intros Hc. unfold darkened_channel.
  pose proof (Z.div_mod (175 * c + 127) 255 ltac:(lia)).
  pose proof (Z.mod_pos_bound (175 * c + 127) 255 ltac:(lia)). lia.
Qed.

(** X13: Where the two fonts of the layout load or fall back and nothing is
    drawn (no logo, and a text layer that is transparent at the pixel) the
    poster shows the background darkened: each channel c of an opaque
    background pixel comes out as (175 * c + 127) // 255, which is never
    brighter than c and never above 175. *)
Theorem bare_pixels_are_the_background_darkened
    E image subtitle details bg w x y r g b a :
  heap w !! image = Some bg -> usable bg ->
  fonts_ready E (im_width bg) (im_height bg) ->
  0 <= x < im_width bg -> 0 <= y < im_height bg ->
  im_data bg x y = (r, g, b, a) ->
  im_mode bg = RGB \/ (im_mode bg = RGBA /\ a = 255) ->
  0 <= r <= 255 -> 0 <= g <= 255 -> 0 <= b <= 255 ->
  exists p out w',
    apply_text_layout E image subtitle details None w = (Ok p, w')
    /\ heap w' !! p = Some out
    /\ (alpha_of (render E (drop (length (trace w)) (trace w'))
                    (fun _ _ => (0, 0, 0, 0)) x y) = 0 ->
        getpixel out x y
        = Some [darkened_channel r; darkened_channel g; darkened_channel b])
    /\ darkened_channel r <= r /\ darkened_channel g <= g
    /\ darkened_channel b <= b.
Proof.
  intros Hbg Hu HE Hx Hy Hpx Hm Hr Hg Hb.
  pose proof (apply_text_layout_run E image subtitle details None None bg w
                Hbg Hu HE I) as Hrun.
  cbv zeta in Hrun. do 3 eexists. split; [exact Hrun|]. split.
  { cbn [heap]. apply (lookup_tail_Some (heap w) _ 6). reflexivity. }
  split; [|repeat split; now apply darkened_channel_bounds].
  cbn [trace]. rewrite drop_app_length. intros Ha.
  unfold getpixel, in_bounds, poster_of.
  cbn [convert_bitmap alpha_composite_bitmap with_logo darkened solid
       text_overlay with_data im_mode im_width im_height im_data].
  destruct (Z.leb_spec 0 x); [|lia].
  destruct (Z.ltb_spec x (im_width bg)); [|lia].
  destruct (Z.leb_spec 0 y); [|lia].
  destruct (Z.ltb_spec y (im_height bg)); [|lia].
  cbn [andb]. rewrite alpha_composite_transparent by exact Ha.
  rewrite Hpx.
  assert (Hc : convert_pixel (im_mode bg) RGBA (r, g, b, a) = (r, g, b, 255)).
  { destruct Hm as [->|[-> ->]]; reflexivity. }
  rewrite Hc, darken_opaque by assumption. reflexivity.
Qed.

(** ** The logo step on other logos *)



(** ** More on [process_logo] *)

(** X15: On a Pillow without [Image.Resampling] (older than 9.1) the AttributeError
    of line 84 is swallowed by [except Exception]: every logo is dropped. *)
Theorem logo_is_dropped_without_Resampling E logo max_size w :
  has_Resampling E = false ->
  (process_logo E logo max_size w).1 = Ok None.
Proof.
  intros HR. destruct logo as [l|]; [|reflexivity].
  destruct (process_logo_try_raises E l max_size w) as (e & w' & He).
  { destruct (heap w !! l); [right; now left | exact I]. }
  unfold process_logo, try_except. now rewrite He.
Qed.

Lemma process_logo_fitting E logo b max_size w :
  heap w !! logo = Some b -> im_fault b = false -> has_Resampling E = true ->
  im_width b <= max_size -> im_height b <= max_size ->
  exists r w',
    process_logo E (Some logo) max_size w = (Ok (Some r), w')
    /\ (length (heap w) <= r)%nat
    /\ heap w' !! r
       = Some (if bool_decide (im_mode b = RGBA) then b
               else convert_bitmap RGBA b).
Proof.
  intros Hl Hf HR Hw Hh.
  assert (Hp : preserve_aspect_ratio (im_width b) (im_height b) max_size max_size
               = Ok None).
  { unfold preserve_aspect_ratio.
    destruct (Z.leb_spec (im_width b) max_size); [|lia].
    destruct (Z.leb_spec (im_height b) max_size); [|lia]. reflexivity. }
  unfold process_logo, try_except.
  rewrite (process_logo_try_run_any E logo b max_size None w Hl Hf HR Hp
             eq_refl).
  cbn [thumbnail_of].
  destruct (decide (im_mode b = RGBA)) as [Em|Em].
  - rewrite bool_decide_eq_false_2 by (intros H; now apply H).
    rewrite bool_decide_eq_true_2 by exact Em.
    do 2 eexists. split; [reflexivity|]. split; [lia|].
    cbn [heap]. apply lookup_new.
  - rewrite bool_decide_eq_true_2 by exact Em.
    rewrite bool_decide_eq_false_2 by exact Em.
    do 2 eexists. split; [reflexivity|]. split; [lia|].
    cbn [heap]. replace (S (length (heap w))) with (length (heap w) + 1)%nat by lia.
    apply (lookup_tail_Some (heap w) [b; convert_bitmap RGBA b] 1).
    reflexivity.
Qed.

(** X16: A logo that already fits in the box is not resized, and in particular
    never enlarged: [process_logo] hands back a new object that is the logo
    itself when it is RGBA, its conversion to RGBA otherwise. *)
Theorem fitting_logo_is_not_resized E logo b max_size w :
  heap w !! logo = Some b -> im_fault b = false -> has_Resampling E = true ->
  im_width b <= max_size -> im_height b <= max_size ->
  exists r w',
    process_logo E (Some logo) max_size w = (Ok (Some r), w')
    /\ (length (heap w) <= r)%nat
    /\ heap w' !! r
       = Some (if bool_decide (im_mode b = RGBA) then b
               else convert_bitmap RGBA b).
Proof. apply process_logo_fitting. Qed.

(** What [process_logo] makes of a logo that loads: the last object of the
    new heap, RGBA, within the box; nothing else changes. *)
Lemma process_logo_within_box E logo b w :
  heap w !! logo = Some b -> im_fault b = false -> has_Resampling E = true ->
  0 < im_width b < 2 ^ 31 -> 0 < im_height b < 2 ^ 31 ->
  exists r p w1,
    process_logo E (Some logo) 200 w = (Ok (Some r), w1)
    /\ heap w1 !! r = Some p /\ S r = length (heap w1)
    /\ im_fault p = false /\ im_mode p = RGBA
    /\ 1 <= im_width p <= 200 /\ 1 <= im_height p <= 200
    /\ trace w1 = trace w
    /\ forall k x, heap w !! k = Some x -> heap w1 !! k = Some x.
Proof.
  intros Hl Hf HR Hw Hh.
  assert (Hfit : exists target,
            preserve_aspect_ratio (im_width b) (im_height b) 200 200 = Ok target
            /\ thumbnail_refused b target = false
            /\ 1 <= im_width (thumbnail_of E b target) <= 200
            /\ 1 <= im_height (thumbnail_of E b target) <= 200).
  { destruct (preserve_aspect_ratio_200 (im_width b) (im_height b) Hw Hh)
      as [(Ht & F1 & F2)|[(x & Ht & Hx & _)|(y & Ht & Hy & _)]];
      eexists; (split; [exact Ht|]);
      (split; [apply thumbnail_accepted; [lia | lia |];
               intros ? ? [= <- <-]; lia|]);
      cbn [thumbnail_of]; [lia| |].
    - destruct (bool_decide _) eqn:Esame; [|cbn; lia].
      apply bool_decide_eq_true in Esame. inversion Esame as [[Ew Eh]]. lia.
    - destruct (bool_decide _) eqn:Esame; [|cbn; lia].
      apply bool_decide_eq_true in Esame. inversion Esame as [[Ew Eh]]. lia. }
  destruct Hfit as (target & Hp & Hacc & Tw & Th).
  set (t := thumbnail_of E b target) in *.
  assert (Tf : im_fault t = false) by (now apply thumbnail_of_fault).
  assert (Tm : im_mode t = im_mode b) by apply thumbnail_of_mode.
  unfold process_logo, try_except.
  rewrite (process_logo_try_run_any E logo b 200 target w Hl Hf HR Hp Hacc).
  fold t. destruct (decide (im_mode b = RGBA)) as [Em|Em].
  - rewrite bool_decide_eq_false_2 by (intros H; now apply H).
    exists (length (heap w)), t. eexists. split; [reflexivity|].
    cbn [heap trace]. split; [apply lookup_new|].
    split; [rewrite length_app; cbn; lia|].
    split; [assumption|]. split; [congruence|].
    split; [assumption|]. split; [assumption|]. split; [reflexivity|].
    intros k x Hk. now apply lookup_app_l_Some.
  - rewrite bool_decide_eq_true_2 by exact Em.
    exists (S (length (heap w))), (convert_bitmap RGBA t).
    eexists. split; [reflexivity|]. cbn [heap trace].
    split.
    { replace (S (length (heap w))) with (length (heap w) + 1)%nat by lia.
      apply (lookup_tail_Some (heap w) [t; convert_bitmap RGBA t] 1).
      reflexivity. }
    split; [rewrite length_app; cbn; lia|].
    split; [reflexivity|]. split; [reflexivity|].
    split; [assumption|]. split; [assumption|]. split; [reflexivity|].
    intros k x Hk. now apply lookup_app_l_Some.
Qed.

(** X17: [process_logo] is idempotent on what it returns: a processed logo is
    RGBA and fits the box, so processing it again gives a new object with
    the very same bitmap. *)
Theorem processing_twice_changes_nothing E logo b w :
  heap w !! logo = Some b -> im_fault b = false -> has_Resampling E = true ->
  0 < im_width b < 2 ^ 31 -> 0 < im_height b < 2 ^ 31 ->
  exists r p w1 r' w2,
    process_logo E (Some logo) 200 w = (Ok (Some r), w1)
    /\ heap w1 !! r = Some p
    /\ process_logo E (Some r) 200 w1 = (Ok (Some r'), w2)
    /\ heap w2 !! r' = Some p
    /\ (r < r')%nat.
Proof.
  intros Hl Hf HR Hw Hh.
  destruct (process_logo_within_box E logo b w Hl Hf HR Hw Hh)
    as (r & p & w1 & Hrun1 & Hr & Hlen & Pf & Pm & Pw & Ph & _).
  destruct (process_logo_fitting E r p 200 w1 Hr Pf HR ltac:(lia) ltac:(lia))
    as (r' & w2 & Hrun2 & Hr' & Hp').
  rewrite bool_decide_eq_true_2 in Hp' by exact Pm.
  exists r, p, w1, r', w2. repeat (split; [assumption|]). lia.
Qed.

(** X18: A usable logo ends up in the top right corner of the poster made on the
    fallback gradient, on an installation whose fonts fail at positive sizes
    with an IOError only: processed to at most 200 x 200, its box starts 40
    pixels below the top edge and ends 40 pixels before the right edge, lies
    entirely inside the poster for every aspect-ratio label, and wherever
    the logo is opaque and no text is drawn over it the poster shows the
    logo's own colour. *)
Theorem logo_sits_in_the_top_right_corner
    E prompt subtitle details logo b aspect_ratio w :
  positive_sizes_recover E -> no_token E \/ first_attempt_breaks E ->
  heap w !! logo = Some b -> im_fault b = false -> has_Resampling E = true ->
  0 < im_width b < 2 ^ 31 -> 0 < im_height b < 2 ^ 31 ->
  exists r out w' l lg,
    generate_simple_poster E prompt subtitle details (Some logo) aspect_ratio w
    = (Ok r, w')
    /\ heap w' !! r = Some out
    /\ heap w' !! l = Some lg
    /\ im_mode lg = RGBA
    /\ 1 <= im_width lg <= 200 /\ 1 <= im_height lg <= 200
    /\ 0 <= im_width out - im_width lg - 40
    /\ 40 + im_height lg <= im_height out
    /\ forall x y cr cg cb,
         let x0 := im_width out - im_width lg - 40 in
         x0 <= x < x0 + im_width lg -> 40 <= y < 40 + im_height lg ->
         im_data lg (x - x0) (y - 40) = (cr, cg, cb, 255) ->
         0 <= cr <= 255 -> 0 <= cg <= 255 -> 0 <= cb <= 255 ->
         alpha_of (render E (drop (length (trace w)) (trace w'))
                     (fun _ _ => (0, 0, 0, 0)) x y) = 0 ->
         getpixel out x y = Some [cr; cg; cb].
Proof.
  intros HE Hno Hl Hf HR Hw Hh.
  pose proof (aspect_ratio_size aspect_ratio) as Hs. cbv zeta in Hs.
  unfold generate_simple_poster.
  destruct (dict_get aspect_ratios aspect_ratio (1024, 1024))
    as [width height]. cbn [fst snd] in Hs.
  destruct (gradient_bitmap_shape width height (100, 150, 255) (150, 200, 255))
    as (Sm & Sw & Sh & Sf).
  fold (fallback_bitmap width height) in Sm, Sw, Sh, Sf.
  set (bg := fallback_bitmap width height) in *.
  erewrite bind_ok; cycle 1.
  { apply create_background_fallback; [|lia|lia].
    destruct Hno as [H|H]; [now left | now right; right]. }
  fold bg. set (w1 := {| heap := heap w ++ [bg]; trace := trace w |}).
  destruct (process_logo_within_box E logo b w1) as
    (l & lg & w2 & Hrun & Hlg & Hlen & Lf & Lm & Lw & Lh & Htr & Hkeep);
    try assumption.
  { unfold w1. cbn [heap]. now apply lookup_app_l_Some. }
  erewrite bind_ok by exact Hrun.
  assert (Hbg : heap w2 !! length (heap w) = Some bg).
  { apply Hkeep. unfold w1. cbn [heap]. apply lookup_new. }
  assert (Hu : usable bg)
    by (unfold usable; rewrite Sw, Sh, Sf; repeat split; lia).
  assert (Hlogo : processed_logo_at w2 (Some l) (Some lg)) by (now cbn).
  assert (HF : fonts_ready E (im_width bg) (im_height bg))
    by (rewrite Sw, Sh; apply fonts_ready_from_30; [exact HE | lia | lia]).
  rewrite (apply_text_layout_run E (length (heap w)) subtitle details (Some l)
             (Some lg) bg w2 Hbg Hu HF Hlogo).
  rewrite Sw, Sh.
  set (calls := layout_calls E (length (heap w2) + 2)%nat width height
                  subtitle details).
  exists (length (heap w2) + 6)%nat, (poster_of E bg (Some lg) calls).
  eexists. exists l, lg. split; [reflexivity|]. cbn [heap trace].
  split; [apply (lookup_tail_Some (heap w2) _ 6); reflexivity|].
  split; [now apply lookup_app_l_Some|].
  split; [exact Lm|]. split; [exact Lw|]. split; [exact Lh|].
  assert (Pw : im_width (poster_of E bg (Some lg) calls) = width)
    by (unfold poster_of; cbn; exact Sw).
  assert (Ph : im_height (poster_of E bg (Some lg) calls) = height)
    by (unfold poster_of; cbn; exact Sh).
  rewrite Pw, Ph. split; [lia|]. split; [lia|].
  intros x y cr cg cb Hx Hy Hpx Hr Hg Hb Ha.
  rewrite Htr in Ha. unfold w1 in Ha. cbn [trace] in Ha.
  rewrite drop_app_length in Ha.
  set (x0 := width - im_width lg - 40) in *.
  unfold getpixel, in_bounds. rewrite Pw, Ph.
  destruct (Z.leb_spec 0 x); [|lia]. destruct (Z.ltb_spec x width); [|lia].
  destruct (Z.leb_spec 0 y); [|lia]. destruct (Z.ltb_spec y height); [|lia].
  cbn [andb]. unfold poster_of.
  cbn [convert_bitmap alpha_composite_bitmap text_overlay with_data solid
       im_mode im_data].
  rewrite alpha_composite_transparent by exact Ha.
  rewrite with_logo_data by (intros ? [= <-]; exact Lm).
  cbv zeta. change (im_width (darkened bg)) with (im_width bg). rewrite Sw.
  fold x0.
  destruct (Z.leb_spec x0 x); [|lia].
  destruct (Z.ltb_spec x (x0 + im_width lg)); [|lia].
  destruct (Z.leb_spec 40 y); [|lia].
  destruct (Z.ltb_spec y (40 + im_height lg)); [|lia].
  cbn [andb]. rewrite Hpx. cbn [alpha_of].
  rewrite paste_opaque by assumption. reflexivity.
Qed.

(** ** The detail lines are single lines *)

Lemma split_no_sep sep s : Forall (fun l => sep ∉ l) (split sep s).
Proof.
  induction s as [|c s IH]; cbn [split].
  - repeat constructor. apply not_elem_of_nil.
  - destruct (N.eqb_spec c sep) as [->|Hc].
    + constructor; [apply not_elem_of_nil | exact IH].
    + destruct (split sep s) as [|l ls].
      * repeat constructor. rewrite not_elem_of_cons. split; [congruence|].
        apply not_elem_of_nil.
      * inversion IH as [|? ? Hl Hls]; subst. constructor; [|exact Hls].
        rewrite not_elem_of_cons. split; [congruence | exact Hl].
Qed.

Lemma elem_of_lstrip c s : c ∈ lstrip s -> c ∈ s.
Proof.
  intros H. destruct (lstrip_suffix s) as [pre Hpre]. rewrite Hpre.
  apply elem_of_app. now right.
Qed.

Lemma elem_of_strip c s : c ∈ strip s -> c ∈ s.
Proof.
  unfold strip, rstrip. rewrite list_elem_of_In, <- in_rev, <- list_elem_of_In.
  intros H. apply elem_of_lstrip in H.
  rewrite list_elem_of_In, <- in_rev, <- list_elem_of_In in H.
  now apply elem_of_lstrip.
Qed.

Lemma text_block_no_newline raw line :
  line ∈ text_block raw -> newline ∉ line.
Proof.
  unfold text_block. rewrite list_elem_of_In, filter_In, in_map_iff.
  intros [(s & <- & Hs) _] Hn. apply elem_of_strip in Hn.
  pose proof (split_no_sep newline raw) as Hall.
  rewrite Forall_forall in Hall.
  apply (Hall s); [now apply list_elem_of_In | exact Hn].
Qed.

Lemma split_whitespace sep s :
  Forall (fun c => is_whitespace c = true) s ->
  Forall (Forall (fun c => is_whitespace c = true)) (split sep s).
Proof.
  induction 1 as [|c s Hc Hs IH]; cbn [split]; [repeat constructor|].
  destruct (c =? sep)%N; [constructor; [constructor | exact IH]|].
  destruct (split sep s) as [|l ls]; [repeat constructor; exact Hc|].
  inversion IH; subst. repeat constructor; assumption.
Qed.

Lemma lstrip_whitespace s :
  Forall (fun c => is_whitespace c = true) s -> lstrip s = [].
Proof.
  induction 1 as [|c s Hc Hs IH]; [reflexivity|]. cbn. now rewrite Hc.
Qed.

Lemma text_block_blank raw :
  Forall (fun c => is_whitespace c = true) raw -> text_block raw = [].
Proof.
  intros H. unfold text_block.
  pose proof (split_whitespace newline raw H) as Hall.
  induction Hall as [|l ls Hl _ IH]; [reflexivity|].
  cbn [map List.filter]. unfold strip at 1.
  rewrite (lstrip_whitespace l Hl). cbn. exact IH.
Qed.

Lemma layout_calls_fills E draw width height subtitle details :
  fills_in "lightgray" (layout_calls E draw width height subtitle details)
  = imap (fun k line =>
            (line, details_start width height subtitle
                   + Z.of_nat k * line_step width height))
         (text_block details).
Proof.
  unfold layout_calls. rewrite fills_in_app.
  replace (fills_in "lightgray"
             (if truthy subtitle
              then line_calls E draw (font_of E (subtitle_size width height))
                     "white" width subtitle (height / 3)
              else [])) with (@nil (pystr * Z))
    by (destruct (truthy subtitle); reflexivity).
  cbn [app]. destruct (truthy details) eqn:Ed.
  - rewrite details_lines_text_block. apply fills_in_detail_calls.
  - destruct details; [reflexivity | discriminate].
Qed.

(** X19: Where the two fonts of the layout load or fall back, every detail
    line [apply_text_layout] draws is a single line: its text holds no
    newline.  Details made of whitespace only (blanks, tabs, empty lines)
    draw no line at all, and with an empty subtitle as well nothing is
    drawn. *)
Theorem detail_lines_are_single_lines
    E image subtitle details logo lgo bg w :
  heap w !! image = Some bg -> usable bg ->
  fonts_ready E (im_width bg) (im_height bg) ->
  processed_logo_at w logo lgo ->
  exists drawn,
    trace (apply_text_layout E image subtitle details logo w).2
    = trace w ++ drawn
    /\ (forall text y, (text, y) ∈ fills_in "lightgray" drawn ->
          newline ∉ text)
    /\ (Forall (fun c => is_whitespace c = true) details ->
          fills_in "lightgray" drawn = []
          /\ (subtitle = [] -> drawn = [])).
Proof.
  intros Hbg Hu HE Hlogo.
  rewrite (apply_text_layout_run E image subtitle details logo lgo bg w
             Hbg Hu HE Hlogo).
  eexists. split; [reflexivity|]. rewrite layout_calls_fills. split.
  - intros text y Hin. apply elem_of_lookup_imap in Hin as (k & line & [= -> ->] & Hk).
    apply (text_block_no_newline details). eapply list_elem_of_lookup_2, Hk.
  - intros Hblank. rewrite (text_block_blank details Hblank).
    split; [reflexivity|]. intros ->.
    assert (Hlen : length (layout_calls E (length (heap w) + 2)%nat
                             (im_width bg) (im_height bg) [] details) = 0%nat).
    { rewrite length_layout_calls. unfold lines_drawn.
      now rewrite (text_block_blank details Hblank). }
    now apply nil_length_inv.
Qed.

(** ** What the logo leaves alone *)

Lemma byte_forall2 (P : Z -> Z -> bool) :
  forallb (fun d => forallb (P d) (range 0 256)) (range 0 256) = true ->
  forall d a, 0 <= d <= 255 -> 0 <= a <= 255 -> P d a = true.
Proof.
  intros H d a Hd Ha.
  apply (byte_forall (P d)); [|exact Ha].
  apply (byte_forall (fun d => forallb (P d) (range 0 256))); assumption.
Qed.

Lemma blend_transparent c s : 0 <= c <= 255 -> blend 0 c s = c.
Proof.
  intros Hc. unfold blend.
  replace (c * (255 - 0) + s * 0 + 128) with (c * 255 + 128) by lia.
  apply Z.eqb_eq.
  apply (byte_forall (fun c => shift_for_div255 (c * 255 + 128) =? c));
    [vm_compute; reflexivity | exact Hc].
Qed.

(** Pasting through a matte of 0 leaves the pixel under it. *)
Lemma paste_transparent p q : valid_pixel p -> paste_pixel p q 0 = p.
Proof.
  destruct p as [[[r g] b] a], q as [[[r' g'] b'] a'].
  intros (Hr & Hg & Hb & Ha). unfold paste_pixel.
  now rewrite !blend_transparent by assumption.
Qed.

Lemma darken_channel_byte d a :
  0 <= d <= 255 -> 0 <= a <= 255 ->
  0 <= Z.shiftr
         (shift_for_div255
            (0 * (80 * 255 * 255 * 128 / (80 * 255 + a * (255 - 80)))
             + d * (255 * 128
                    - 80 * 255 * 255 * 128 / (80 * 255 + a * (255 - 80)))
             + 128 * 128)) 7 <= 255.
Proof.
  intros Hd Ha.
  pose proof (byte_forall2
    (fun d a =>
       let v := Z.shiftr
                  (shift_for_div255
                     (0 * (80 * 255 * 255 * 128 / (80 * 255 + a * (255 - 80)))
                      + d * (255 * 128
                             - 80 * 255 * 255 * 128
                               / (80 * 255 + a * (255 - 80)))
                      + 128 * 128)) 7 in
       (0 <=? v) && (v <=? 255))) as H.
  specialize (H ltac:(vm_compute; reflexivity) d a Hd Ha).
  cbv zeta in H. apply andb_true_iff in H as [H1 H2].
  apply Z.leb_le in H1, H2. lia.
Qed.

Lemma darken_alpha_byte a :
  0 <= a <= 255 ->
  0 <= shift_for_div255 (80 * 255 + a * (255 - 80) + 128) <= 255.
Proof.
  intros Ha.
  pose proof (byte_forall
    (fun a => let v := shift_for_div255 (80 * 255 + a * (255 - 80) + 128) in
              (0 <=? v) && (v <=? 255))) as H.
  specialize (H ltac:(vm_compute; reflexivity) a Ha).
  cbv zeta in H. apply andb_true_iff in H as [H1 H2].
  apply Z.leb_le in H1, H2. lia.
Qed.

(** The darkened background is made of bytes where the background is. *)
Lemma darken_valid p :
  valid_pixel p -> valid_pixel (alpha_composite_pixel p (0, 0, 0, 80)).
Proof.
  destruct p as [[[r g] b] a]. intros (Hr & Hg & Hb & Ha).
  pose proof (darken_channel_byte r a Hr Ha) as Cr.
  pose proof (darken_channel_byte g a Hg Ha) as Cg.
  pose proof (darken_channel_byte b a Hb Ha) as Cb.
  pose proof (darken_alpha_byte a Ha) as Ca.
  unfold alpha_composite_pixel. change (80 =? 0) with false.
  cbv beta iota zeta. unfold valid_pixel.
  exact (conj Cr (conj Cg (conj Cb Ca))).
Qed.

Lemma convert_RGBA_valid m p :
  valid_pixel p -> valid_pixel (convert_pixel m RGBA p).
Proof.
  destruct p as [[[r g] b] a]. intros (Hr & Hg & Hb & Ha).
  destruct m; cbn; repeat split; lia.
Qed.

(** X20: Where the two fonts of the layout load or fall back, the logo changes
    the poster only inside its box, and there only where the logo is not
    fully transparent: at every other pixel the poster with the logo equals
    the poster made without it, and the text drawn is the same. *)
Theorem logo_changes_only_its_box
    E image subtitle details logo lg bg w :
  heap w !! image = Some bg -> usable bg ->
  fonts_ready E (im_width bg) (im_height bg) ->
  processed_logo_at w (Some logo) (Some lg) ->
  exists p out w' p0 out0 w0,
    apply_text_layout E image subtitle details (Some logo) w = (Ok p, w')
    /\ heap w' !! p = Some out
    /\ apply_text_layout E image subtitle details None w = (Ok p0, w0)
    /\ heap w0 !! p0 = Some out0
    /\ trace w' = trace w0
    /\ forall x y,
         let x0 := im_width bg - im_width lg - 40 in
         x < x0 \/ x0 + im_width lg <= x \/ y < 40 \/ 40 + im_height lg <= y
         \/ (valid_pixel (im_data bg x y)
             /\ alpha_of (im_data lg (x - x0) (y - 40)) = 0) ->
         im_data out x y = im_data out0 x y.
Proof.
  intros Hbg Hu HE Hlogo.
  pose proof (apply_text_layout_run E image subtitle details (Some logo)
                (Some lg) bg w Hbg Hu HE Hlogo) as Hrun.
  pose proof (apply_text_layout_run E image subtitle details None None bg w
                Hbg Hu HE I) as Hrun0.
  cbv zeta in Hrun, Hrun0.
  do 6 eexists. split; [exact Hrun|]. split.
  { cbn [heap]. apply (lookup_tail_Some (heap w) _ 6). reflexivity. }
  split; [exact Hrun0|]. split.
  { cbn [heap]. apply (lookup_tail_Some (heap w) _ 6). reflexivity. }
  split; [reflexivity|].
  intros x y x0 Hout. unfold poster_of.
  cbn [convert_bitmap alpha_composite_bitmap im_data im_mode].
  do 2 f_equal.
  rewrite with_logo_data by (eapply processed_logo_is_RGBA; exact Hlogo).
  cbn [with_logo]. cbv zeta.
  change (im_width (darkened bg)) with (im_width bg). fold x0.
  destruct ((x0 <=? x) && (x <? x0 + im_width lg)
            && (40 <=? y) && (y <? 40 + im_height lg)) eqn:Ebox;
    [|reflexivity].
  apply andb_true_iff in Ebox as [Ebox E4].
  apply andb_true_iff in Ebox as [Ebox E3].
  apply andb_true_iff in Ebox as [E1 E2].
  apply Z.leb_le in E1, E3. apply Z.ltb_lt in E2, E4.
  destruct Hout as [?|[?|[?|[?|[Hv Ha]]]]]; try lia.
  rewrite Ha. apply paste_transparent.
  cbn [darkened alpha_composite_bitmap convert_bitmap solid im_data].
  now apply darken_valid, convert_RGBA_valid.
Qed.

(** ** Fonts are loaded before any text is looked at *)

Lemma small_base_sizes width height :
  0 <= width -> 0 <= height -> Z.min width height < 30 ->
  subtitle_size width height = 0 /\ details_size width height = 0.
Proof.
  intros Hw Hh Hmin. unfold subtitle_size, details_size, base_size.
  assert (Hb : 0 <= Z.min width height / 15 <= 1).
  { split; [apply Z.div_pos; lia|].
    assert (Z.min width height / 15 < 2); [|lia].
    apply Z.div_lt_upper_bound; lia. }
  rewrite scaled_0_8, scaled_0_5 by lia.
  set (base := Z.min width height / 15) in *.
  assert (Hc : base = 0 \/ base = 1) by lia.
  destruct Hc as [-> | ->]; split; reflexivity.
Qed.

(** X21: [apply_text_layout] loads both fonts before it looks at the texts, and
    [get_font] catches IOError only: a font error of another class (such as
    the ValueError recent Pillow raises for a size of 0) leaves
    [apply_text_layout], even when there is no text to draw.  A size of 0 is
    what the layout asks for on backgrounds whose shorter side is below 30
    pixels. *)
Theorem font_errors_other_than_IOError_escape
    E image subtitle details logo bg w e :
  heap w !! image = Some bg -> usable bg ->
  truetype E (subtitle_size (im_width bg) (im_height bg)) = Some e ->
  is_IOError e = false ->
  (apply_text_layout E image subtitle details logo w).1 = Raise e
  /\ (Z.min (im_width bg) (im_height bg) < 30 ->
      subtitle_size (im_width bg) (im_height bg) = 0
      /\ details_size (im_width bg) (im_height bg) = 0).
Proof.
  intros Hbg (Hw & Hh & Hf) Ht He.
  split; [|now apply small_base_sizes].
  destruct w as [hw tr]. cbn [heap trace] in *.
  unfold apply_text_layout, text_layout.
  erewrite bind_ok by (apply Image_copy_run; [exact Hbg | exact Hf]).
  cbn [heap trace].
  erewrite bind_ok by
    (apply Image_convert_run; cbn [heap]; [apply lookup_new | exact Hf]).
  cbn [heap trace]. rewrite !length_app, <- !app_assoc. cbn [length app].
  erewrite bind_ok by
    (apply Image_size_run; cbn [heap]; apply lookup_tail_Some; reflexivity).
  cbn [convert_bitmap im_width im_height].
  erewrite bind_ok by (apply Image_new_run; assumption).
  cbn [heap trace]. rewrite !length_app, <- !app_assoc. cbn [length app].
  unfold ImageDraw_Draw.
  erewrite bind_ok; cycle 1.
  { erewrite bind_ok; [reflexivity|].
    apply load_run with (b := solid RGBA (im_width bg) (im_height bg) (0, 0, 0, 0));
      [cbn [heap]; apply lookup_tail_Some; reflexivity | reflexivity]. }
  erewrite bind_ok by (apply Image_new_run; assumption).
  cbn [heap trace]. rewrite !length_app, <- !app_assoc. cbn [length app].
  erewrite bind_ok; cycle 1.
  { unfold Image_alpha_composite.
    erewrite bind_ok by
      (apply load_run with (b := convert_bitmap RGBA bg);
       [cbn [heap]; apply (lookup_tail_Some hw _ 1); reflexivity | reflexivity]).
    erewrite bind_ok by
      (apply load_run with (b := solid RGBA (im_width bg) (im_height bg) (0, 0, 0, 80));
       [cbn [heap]; apply (lookup_tail_Some hw _ 3); reflexivity | reflexivity]).
    cbn [convert_bitmap solid im_mode im_width im_height].
    change (bool_decide (RGBA = RGBA)) with true.
    rewrite !Z.eqb_refl. cbn [andb].
    apply alloc_run. }
  change (py_int (fmul (float_of_int (Z.min (im_width bg) (im_height bg) / 15)) lit_0_8))
    with (subtitle_size (im_width bg) (im_height bg)).
  erewrite bind_raise; [reflexivity|].
  unfold get_font, try_except, ImageFont_truetype. rewrite Ht.
  unfold raise. now rewrite He.
Qed.

(** ** The further properties at work on the sample installations *)

Lemma missing_token_gives_the_fallback_witness :
  create_background_via_api sample_env (str "poster") 4 3 3 empty_world
  = (Ok 0%nat, {| heap := [fallback_bitmap 4 3]; trace := [] |}).
Proof.
  apply (missing_token_gives_the_fallback sample_env (str "poster") 4 3 3
           empty_world). left. reflexivity.
Defined.

Lemma failed_request_gives_the_fallback_witness :
  create_background_via_api (answering_env (Response 500 []) None)
    (str "poster") 4 3 3 empty_world
  = (Ok 0%nat, {| heap := [fallback_bitmap 4 3]; trace := [] |}).
Proof.
  apply (failed_request_gives_the_fallback
           (answering_env (Response 500 []) None) (str "poster") 4 3 3
           empty_world). right. split; discriminate.
Defined.

Lemma answered_image_is_returned_as_is_witness :
  create_background_via_api
    (answering_env (Response 200 []) (Some (solid RGB 512 512 (9, 9, 9, 255))))
    (str "poster") 768 1024 3 empty_world
  = (Ok 0%nat,
     {| heap := [solid RGB 512 512 (9, 9, 9, 255)]; trace := [] |}).
Proof.
  apply (answered_image_is_returned_as_is
           (answering_env (Response 200 [])
              (Some (solid RGB 512 512 (9, 9, 9, 255))))
           (str "poster") 768 1024 3 empty_world (str "hf_token") []);
    [reflexivity | discriminate | lia | reflexivity | reflexivity].
Defined.

Lemma retries_beyond_the_first_are_never_made_witness :
  create_background_via_api loading_env (str "poster") 768 1024 3 empty_world
  = create_background_via_api loading_env (str "poster") 768 1024 1 empty_world.
Proof.
  apply (retries_beyond_the_first_are_never_made loading_env (str "poster")
           768 1024 3 empty_world). lia.
Defined.

Lemma poster_without_the_provider_witness :
  exists r out w',
    generate_simple_poster sample_env (str "poster") (str "Tech Summit 2024")
      (str "Dec 15-17") (Some 2%nat) (str "3:4 - Poster") sample_world
    = (Ok r, w')
    /\ heap w' !! r = Some out
    /\ im_mode out = RGB
    /\ (im_width out, im_height out) = (768, 1024).
Proof.
  destruct (poster_without_the_provider sample_env (str "poster")
              (str "Tech Summit 2024") (str "Dec 15-17") (Some 2%nat)
              (str "3:4 - Poster") sample_world)
    as (r & out & w' & Hrun & Hout & Hm & Hs & _).
  - intros size e H. injection H as <-. reflexivity.
  - left. left. reflexivity.
  - exists r, out, w'. repeat (split; [assumption|]). exact Hs.
Defined.

Lemma poster_has_the_size_of_the_answered_image_witness :
  exists r out w',
    generate_simple_poster
      (answering_env (Response 200 [])
         (Some (solid RGB 512 512 (9, 9, 9, 255))))
      (str "poster") (str "Tech Summit 2024") (str "Dec 15-17") None
      (str "3:4 - Poster") empty_world
    = (Ok r, w')
    /\ heap w' !! r = Some out
    /\ im_mode out = RGB
    /\ im_width out = 512 /\ im_height out = 512.
Proof.
  destruct (poster_has_the_size_of_the_answered_image
              (answering_env (Response 200 [])
                 (Some (solid RGB 512 512 (9, 9, 9, 255))))
              (str "poster") (str "Tech Summit 2024") (str "Dec 15-17") None
              (str "3:4 - Poster") empty_world (str "hf_token") []
              (solid RGB 512 512 (9, 9, 9, 255)))
    as (r & out & w' & Hrun & Hout & Hm & Hw & Hh & _).
  - vm_compute. reflexivity.
  - reflexivity.
  - discriminate.
  - reflexivity.
  - reflexivity.
  - unfold usable, solid. cbn [im_width im_height im_fault].
    split; [lia|]. split; [lia | reflexivity].
  - exists r, out, w'. repeat (split; [assumption|]). exact Hh.
Defined.

Lemma undecodable_answer_raises_witness :
  generate_simple_poster (answering_env (Response 200 []) None)
    (str "poster") (str "Tech Summit 2024") (str "Dec 15-17") None
    (str "3:4 - Poster") empty_world
  = (Raise UnidentifiedImageError, empty_world).
Proof.
  assert (Hne : str "hf_token" <> []) by discriminate.
  exact (undecodable_answer_raises (answering_env (Response 200 []) None)
           (str "poster") (str "Tech Summit 2024") (str "Dec 15-17") None
           (str "3:4 - Poster") empty_world (str "hf_token") []
           eq_refl Hne eq_refl).
Defined.

Lemma gradient_of_any_size_witness :
  (exists g,
     create_gradient_background 5 0 (100, 150, 255) (150, 200, 255) empty_world
     = (Ok 0%nat, {| heap := [g]; trace := [] |})
     /\ im_mode g = RGB /\ im_width g = 5 /\ im_height g = 0)
  /\ create_gradient_background 2147483648 0 (100, 150, 255) (150, 200, 255)
       empty_world
     = (Raise OverflowError, empty_world).
Proof.
  split.
  - apply (gradient_of_any_size 5 0 (100, 150, 255) (150, 200, 255)
             empty_world); cbn; lia.
  - apply (gradient_of_any_size 2147483648 0 (100, 150, 255) (150, 200, 255)
             empty_world); cbn; lia.
Defined.

Lemma gradient_stays_between_its_colours_witness :
  exists g,
    create_gradient_background 4 3 (10, 200, 7) (250, 20, 7) empty_world
    = (Ok 0%nat, {| heap := [g]; trace := [] |})
    /\ forall x y, 0 <= x < 4 -> 0 <= y < 3 ->
         exists r g' b,
           getpixel g x y = Some [r; g'; b]
           /\ between_ends 10 250 r /\ between_ends 200 20 g'
           /\ between_ends 7 7 b.
Proof.
  apply (gradient_stays_between_its_colours 4 3 (10, 200, 7) (250, 20, 7)
           empty_world); [cbn; lia | cbn; lia | lia | lia].
Defined.

Lemma fallback_background_colours_witness :
  exists g,
    create_fallback_background 4 3 empty_world
    = (Ok 0%nat, {| heap := [g]; trace := [] |})
    /\ im_mode g = RGB /\ im_width g = 4 /\ im_height g = 3
    /\ (forall x, 0 <= x < 4 -> getpixel g x 0 = Some [100; 150; 255])
    /\ forall x y, 0 <= x < 4 -> 0 <= y < 3 ->
         exists r g' b,
           getpixel g x y = Some [r; g'; b]
           /\ 100 <= r <= 149 /\ 150 <= g' <= 199 /\ 254 <= b <= 255.
Proof.
  apply (fallback_background_colours 4 3 empty_world); lia.
Defined.

Lemma layout_sizes_are_integer_fractions_witness :
  subtitle_size 1024 683 = 36 /\ details_size 1024 683 = 22
  /\ spacing 1024 683 = 54 /\ line_step 1024 683 = 33.
Proof.
  apply (layout_sizes_are_integer_fractions 1024 683); lia.
Defined.

Lemma every_line_costs_25_draws_witness :
  exists drawn,
    trace (apply_text_layout strict_font_env 0%nat (str "Tech Summit 2024")
             (str "Dec 15-17") (Some 1%nat) sample_world).2
    = drawn
    /\ length drawn = 50%nat.
Proof.
  destruct (every_line_costs_25_draws strict_font_env 0%nat (str "Tech Summit 2024")
              (str "Dec 15-17") (Some 1%nat)
              (Some (solid RGBA 120 60 (255, 0, 0, 255)))
              (solid RGB 1024 683 (100, 150, 255, 255)) sample_world)
    as (drawn & Htr & Hlen & _).
  - reflexivity.
  - unfold usable, solid. cbn [im_width im_height im_fault].
    split; [lia|]. split; [lia | reflexivity].
  - vm_compute. reflexivity.
  - cbn. split; [reflexivity|]. split; reflexivity.
  - exists drawn. split; [exact Htr | exact Hlen].
Defined.

Lemma bare_pixels_are_the_background_darkened_witness :
  exists p out w',
    apply_text_layout strict_font_env 0%nat [] [] None sample_world = (Ok p, w')
    /\ heap w' !! p = Some out
    /\ getpixel out 0 0 = Some [69; 103; 175].
Proof.
  destruct (bare_pixels_are_the_background_darkened strict_font_env 0%nat [] []
              (solid RGB 1024 683 (100, 150, 255, 255)) sample_world
              0 0 100 150 255 255)
    as (p & out & w' & Hrun & Hout & Hpx & _).
  - reflexivity.
  - unfold usable, solid. cbn [im_width im_height im_fault].
    split; [lia|]. split; [lia | reflexivity].
  - vm_compute. reflexivity.
  - unfold solid. cbn [im_width]. lia.
  - unfold solid. cbn [im_height]. lia.
  - reflexivity.
  - left. reflexivity.
  - lia.
  - lia.
  - lia.
  - exists p, out, w'. split; [exact Hrun|]. split; [exact Hout|].
    apply Hpx.
    assert (Htr : trace w' = []); [|now rewrite Htr].
    replace w' with (apply_text_layout strict_font_env 0%nat [] [] None
                       sample_world).2 by (now rewrite Hrun).
    vm_compute. reflexivity.
Defined.


Lemma logo_is_dropped_without_Resampling_witness :
  (process_logo legacy_env (Some 1%nat) 200 sample_world).1 = Ok None.
Proof.
  apply (logo_is_dropped_without_Resampling legacy_env (Some 1%nat) 200
           sample_world). reflexivity.
Defined.

Lemma fitting_logo_is_not_resized_witness :
  exists r w',
    process_logo sample_env (Some 1%nat) 200 sample_world = (Ok (Some r), w')
    /\ (3 <= r)%nat
    /\ heap w' !! r = Some (solid RGBA 120 60 (255, 0, 0, 255)).
Proof.
  apply (fitting_logo_is_not_resized sample_env 1%nat
           (solid RGBA 120 60 (255, 0, 0, 255)) 200 sample_world).
  - reflexivity.
  - reflexivity.
  - reflexivity.
  - unfold solid. cbn [im_width]. lia.
  - unfold solid. cbn [im_height]. lia.
Defined.

Lemma processing_twice_changes_nothing_witness :
  exists r p w1 r' w2,
    process_logo sample_env (Some 2%nat) 200 sample_world = (Ok (Some r), w1)
    /\ heap w1 !! r = Some p
    /\ process_logo sample_env (Some r) 200 w1 = (Ok (Some r'), w2)
    /\ heap w2 !! r' = Some p
    /\ (r < r')%nat.
Proof.
  apply (processing_twice_changes_nothing sample_env 2%nat
           (solid RGB 400 100 (10, 20, 30, 255)) sample_world);
    [reflexivity | reflexivity | reflexivity
    | split; reflexivity | split; reflexivity].
Defined.

Lemma detail_lines_are_single_lines_witness :
  exists drawn,
    trace (apply_text_layout strict_font_env 0%nat [] [32; 10; 9; 10; 32]%N None
             sample_world).2
    = drawn
    /\ drawn = [].
Proof.
  destruct (detail_lines_are_single_lines strict_font_env 0%nat []
              [32; 10; 9; 10; 32]%N None None
              (solid RGB 1024 683 (100, 150, 255, 255)) sample_world)
    as (drawn & Htr & _ & Hblank).
  - reflexivity.
  - unfold usable, solid. cbn [im_width im_height im_fault].
    split; [lia|]. split; [lia | reflexivity].
  - vm_compute. reflexivity.
  - exact I.
  - exists drawn. split; [exact Htr|].
    apply Hblank; [|reflexivity]. repeat constructor.
Defined.

Lemma logo_changes_only_its_box_witness :
  exists p out w' p0 out0 w0,
    apply_text_layout strict_font_env 0%nat (str "Tech Summit 2024")
      (str "Dec 15-17") (Some 1%nat) sample_world = (Ok p, w')
    /\ heap w' !! p = Some out
    /\ apply_text_layout strict_font_env 0%nat (str "Tech Summit 2024")
         (str "Dec 15-17") None sample_world = (Ok p0, w0)
    /\ heap w0 !! p0 = Some out0
    /\ im_data out 10 10 = im_data out0 10 10.
Proof.
  destruct (logo_changes_only_its_box strict_font_env 0%nat (str "Tech Summit 2024")
              (str "Dec 15-17") 1%nat (solid RGBA 120 60 (255, 0, 0, 255))
              (solid RGB 1024 683 (100, 150, 255, 255)) sample_world)
    as (p & out & w' & p0 & out0 & w0 & H1 & H2 & H3 & H4 & _ & Hsame).
  - reflexivity.
  - unfold usable, solid. cbn [im_width im_height im_fault].
    split; [lia|]. split; [lia | reflexivity].
  - vm_compute. reflexivity.
  - cbn. split; [reflexivity|]. split; reflexivity.
  - exists p, out, w', p0, out0, w0. repeat (split; [assumption|]).
    apply Hsame. left. unfold solid. cbn [im_width]. lia.
Defined.

Lemma font_errors_other_than_IOError_escape_witness :
  (apply_text_layout strict_font_env 0%nat [] [] None tiny_world).1
  = Raise ValueError.
Proof.
  apply (font_errors_other_than_IOError_escape strict_font_env 0%nat [] []
           None (solid RGB 20 20 (0, 0, 0, 255)) tiny_world ValueError).
  - reflexivity.
  - unfold usable, solid. cbn [im_width im_height im_fault].
    split; [lia|]. split; [lia | reflexivity].
  - vm_compute. reflexivity.
  - reflexivity.
Defined.

Lemma logo_sits_in_the_top_right_corner_witness :
  exists r out w' l lg,
    generate_simple_poster strict_font_env (str "poster") (str "Tech Summit 2024")
      (str "Dec 15-17") (Some 2%nat) (str "3:4 - Poster") sample_world
    = (Ok r, w')
    /\ heap w' !! r = Some out
    /\ heap w' !! l = Some lg
    /\ im_mode lg = RGBA
    /\ 1 <= im_width lg <= 200 /\ 1 <= im_height lg <= 200
    /\ 0 <= im_width out - im_width lg - 40
    /\ 40 + im_height lg <= im_height out.
Proof.
  destruct (logo_sits_in_the_top_right_corner strict_font_env (str "poster")
              (str "Tech Summit 2024") (str "Dec 15-17") 2%nat
              (solid RGB 400 100 (10, 20, 30, 255)) (str "3:4 - Poster")
              sample_world)
    as (r & out & w' & l & lg & H1 & H2 & H3 & H4 & H5 & H6 & H7 & H8 & _).
  - intros size e Hs. cbn. destruct (Z.leb_spec size 0); [lia|].
    intros [= <-]. reflexivity.
  - left. left. reflexivity.
  - reflexivity.
  - reflexivity.
  - reflexivity.
  - split; reflexivity.
  - split; reflexivity.
  - exists r, out, w', l, lg. repeat (split; [assumption|]). exact H8.
Defined.
